(** * 3d-compiler: the IR viewer (renderer.js, app.js, state.js), the chat
      page and the page that runs the compiler in the browser, and the
      compiler's front end, embedded in Rocq.

    The viewer is JavaScript that walks JSON received from the compile
    service, so the embedding starts with the JavaScript values that
    [JSON.parse] can produce and the handful of language operations the viewer
    applies to them ([||], [?.], property reads, [===], [+], [<]).  Numbers are
    IEEE-754 binary64 values, taken from the Standard Library's [SpecFloat]. *)

From Stdlib Require Import ZArith List String Ascii Bool Lia.
From Stdlib Require Import Floats.SpecFloat.
Import ListNotations.
Set Warnings "-register-all".
Local Open Scope string_scope.
Local Open Scope list_scope.

(** ** JavaScript numbers *)

Definition number := spec_float.
Definition prec : Z := 53.
Definition emax : Z := 1024.

(** The double closest to an integer literal (exact below 2^53). *)
Definition num_of_Z (z : Z) : number := binary_normalize prec emax z 0 false.
Definition num_of_nat (n : nat) : number := num_of_Z (Z.of_nat n).

Definition num_add : number -> number -> number := SFadd prec emax.
Definition num_mul : number -> number -> number := SFmul prec emax.
Definition num_ltb : number -> number -> bool := SFltb.
Definition num_leb : number -> number -> bool := SFleb.
Definition num_eqb : number -> number -> bool := SFeqb.

Definition is_nan (x : number) : bool :=
  match x with S754_nan => true | _ => false end.

(** ** JavaScript values reachable from parsed JSON *)

(** Built-in objects that a property read on a plain object can reach through
    its prototype chain: [Object.prototype] itself and its function members. *)
Inductive Builtin :=
| ObjectPrototype
| BuiltinFunction (name : string).

(** [JObj] lists the own properties of a plain object in the engine's
    enumeration order, one entry per key. *)
Inductive JsVal :=
| JUndefined
| JNull
| JBool (b : bool)
| JNum (x : number)
| JStr (s : string)
| JArr (items : list JsVal)
| JObj (fields : list (string * JsVal))
| JBuiltin (b : Builtin).

(** Thrown values.  Only the [message] of an error is ever read back. *)
Inductive JsError :=
| TypeError (message : string)
| RequestError (message : string).

Definition message (e : JsError) : string :=
  match e with TypeError m | RequestError m => m end.

Inductive Res (A : Type) :=
| Ok (a : A)
| Throw (e : JsError).
Arguments Ok {A} a.
Arguments Throw {A} e.

(** ToBoolean *)
Definition truthy (v : JsVal) : bool :=
  match v with
  | JUndefined | JNull => false
  | JBool b => b
  | JNum (S754_zero _) | JNum S754_nan => false
  | JNum _ => true
  | JStr s => negb (s =? "")
  | JArr _ | JObj _ | JBuiltin _ => true
  end.

(** [a || b] on values already computed *)
Definition js_or (a b : JsVal) : JsVal := if truthy a then a else b.

Definition is_nullish (v : JsVal) : bool :=
  match v with JUndefined | JNull => true | _ => false end.

Definition is_array (v : JsVal) : bool :=
  match v with JArr _ => true | _ => false end.

Fixpoint assoc {A : Type} (k : string) (l : list (string * A)) : option A :=
  match l with
  | [] => None
  | (k', v) :: rest => if k =? k' then Some v else assoc k rest
  end.

(** Array index keys: a decimal numeral without a leading zero. *)
Definition digit_of (c : ascii) : option nat :=
  let n := nat_of_ascii c in
  if (48 <=? n)%nat && (n <=? 57)%nat then Some (n - 48)%nat else None.

Fixpoint digits_value (acc : nat) (s : string) : option nat :=
  match s with
  | EmptyString => Some acc
  | String c rest =>
      match digit_of c with
      | Some d => digits_value (10 * acc + d) rest
      | None => None
      end
  end.

Definition index_of_key (k : string) : option nat :=
  match k with
  | EmptyString => None
  | String "0" EmptyString => Some 0%nat
  | String "0" _ => None
  | _ => digits_value 0 k
  end.

(** Members of [Object.prototype].  All but [__proto__] are functions;
    [__proto__] is an accessor that answers with the receiver's prototype. *)
Definition object_prototype_functions : list string :=
  [ "constructor"; "hasOwnProperty"; "isPrototypeOf"; "propertyIsEnumerable";
    "toLocaleString"; "toString"; "valueOf";
    "__defineGetter__"; "__defineSetter__"; "__lookupGetter__"; "__lookupSetter__" ].

Definition string_in (k : string) (l : list string) : bool :=
  existsb (String.eqb k) l.

Definition object_prototype_get (receiver_proto : JsVal) (k : string) : JsVal :=
  if k =? "__proto__" then receiver_proto
  else if string_in k object_prototype_functions then JBuiltin (BuiltinFunction k)
  else JUndefined.

Definition string_char_at (s : string) (i : nat) : JsVal :=
  match String.get i s with
  | Some c => JStr (String c EmptyString)
  | None => JUndefined
  end.

(** [v[k]] / [v.k].  Reading a property of [null] or [undefined] throws.
    Plain objects answer with an own property, then with [Object.prototype];
    arrays and strings answer for indices and [length].  Methods that arrays,
    strings, numbers and functions inherit from their own prototypes are not
    listed: the viewer never reads those names out of IR data. *)
Definition js_get (v : JsVal) (k : string) : Res JsVal :=
  match v with
  | JUndefined => Throw (TypeError ("Cannot read properties of undefined (reading '" ++ k ++ "')"))
  | JNull => Throw (TypeError ("Cannot read properties of null (reading '" ++ k ++ "')"))
  | JObj fields =>
      match assoc k fields with
      | Some x => Ok x
      | None => Ok (object_prototype_get (JBuiltin ObjectPrototype) k)
      end
  | JArr items =>
      if k =? "length" then Ok (JNum (num_of_nat (List.length items)))
      else match index_of_key k with
           | Some i => Ok (nth i items JUndefined)
           | None => Ok JUndefined
           end
  | JStr s =>
      if k =? "length" then Ok (JNum (num_of_nat (String.length s)))
      else match index_of_key k with
           | Some i => Ok (string_char_at s i)
           | None => Ok JUndefined
           end
  | JBool _ | JNum _ | JBuiltin _ => Ok JUndefined
  end.

(** [v?.k] *)
Definition js_get_opt (v : JsVal) (k : string) : JsVal :=
  match js_get v k with
  | Ok x => x
  | Throw _ => JUndefined
  end.

(** [a === b].  Arrays and objects compare by identity; in the viewer the two
    sides of every [===] come from different places of the parsed document (or
    one side is a literal), so two such values are never the same object. *)
Definition strict_eq (a b : JsVal) : bool :=
  match a, b with
  | JUndefined, JUndefined => true
  | JNull, JNull => true
  | JBool x, JBool y => Bool.eqb x y
  | JNum x, JNum y => num_eqb x y
  | JStr x, JStr y => x =? y
  | _, _ => false
  end.

(** * The compiler's front end *)

(** Modelled from the spec: the compiler proper (lexer, parser, validators,
    lowering) is Rust code that is not among the sources; only its frozen
    grammar (dsl/grammar.md) and its documentation are.  The lexer follows
    section 4.2 of the specification, the parser section 4.3 and the grammar,
    the driver sections 5 to 7.  The five validation passes and the lowering
    are parameters of the driver. *)
Module Compiler.

Local Open Scope string_scope.

Record SourceSpan := {
  byte_offset : nat;
  byte_length : nat;
  line : nat;
  column : nat
}.

Inductive Severity := Error | Warning.

(** [code] is the number of the error code: 1 for E001, 101 for E101. *)
Record Diagnostic := {
  severity : Severity;
  code : nat;
  message : string;
  span : SourceSpan;
  file : string;
  help : option string
}.

Inductive Keyword :=
| KwScene | KwEntity | KwComponents | KwConstraint | KwMotion
| KwTimeline | KwEvent | KwLibraryImports | KwKind.

Inductive TokenKind :=
| TKeyword (k : Keyword)
| TIdentifier
| TInteger
| TNumber
| TString
| TColon
| TComma
| TLeftBrace
| TRightBrace
| TLeftBracket
| TRightBracket
| TEof.

Record Token := {
  kind : TokenKind;
  lexeme : string;
  token_span : SourceSpan
}.

Definition error (c : nat) (msg file_id : string) (sp : SourceSpan) : Diagnostic :=
  {| severity := Error; code := c; message := msg; span := sp;
     file := file_id; help := None |}.

(** ** Lexer *)

Definition in_range (lo hi : nat) (c : ascii) : bool :=
  let n := nat_of_ascii c in ((lo <=? n) && (n <=? hi))%nat.

Definition is_digit (c : ascii) : bool := in_range 48 57 c.

Definition is_ident_start (c : ascii) : bool :=
  in_range 65 90 c || in_range 97 122 c || Ascii.eqb c "_".

Definition is_ident_char (c : ascii) : bool := is_ident_start c || is_digit c.

(** ASCII white space: space, tab, line feed, form feed, carriage return *)
Definition is_whitespace (c : ascii) : bool :=
  let n := nat_of_ascii c in
  ((n =? 32) || (n =? 9) || (n =? 10) || (n =? 12) || (n =? 13))%nat.

Definition is_newline (c : ascii) : bool := (nat_of_ascii c =? 10)%nat.

Definition quote : ascii := ascii_of_nat 34.

Fixpoint take_while (p : ascii -> bool) (s : string) : string * string :=
  match s with
  | EmptyString => (EmptyString, EmptyString)
  | String c rest =>
      if p c then let (a, b) := take_while p rest in (String c a, b)
      else (EmptyString, s)
  end.

Definition keyword_of (s : string) : option Keyword :=
  if s =? "scene" then Some KwScene
  else if s =? "entity" then Some KwEntity
  else if s =? "components" then Some KwComponents
  else if s =? "constraint" then Some KwConstraint
  else if s =? "motion" then Some KwMotion
  else if s =? "timeline" then Some KwTimeline
  else if s =? "event" then Some KwEvent
  else if s =? "library_imports" then Some KwLibraryImports
  else if s =? "kind" then Some KwKind
  else None.

(** The scanner's position: offsets from 0, lines and columns from 1. *)
Record Position := {
  pos_offset : nat;
  pos_line : nat;
  pos_column : nat
}.

Definition start_position : Position :=
  {| pos_offset := 0; pos_line := 1; pos_column := 1 |}.

Definition advance (p : Position) (c : ascii) : Position :=
  if is_newline c
  then {| pos_offset := S (pos_offset p); pos_line := S (pos_line p); pos_column := 1 |}
  else {| pos_offset := S (pos_offset p); pos_line := pos_line p;
          pos_column := S (pos_column p) |}.

Fixpoint advance_over (p : Position) (s : string) : Position :=
  match s with
  | EmptyString => p
  | String c rest => advance_over (advance p c) rest
  end.

Definition span_at (p : Position) (len : nat) : SourceSpan :=
  {| byte_offset := pos_offset p; byte_length := len;
     line := pos_line p; column := pos_column p |}.

Definition token_at (k : TokenKind) (text : string) (p : Position) (len : nat) : Token :=
  {| kind := k; lexeme := text; token_span := span_at p len |}.

(** The fraction of a number, [\.[0-9]+], when the input continues with one *)
Definition take_fraction (s : string) : string * string :=
  match s with
  | String "." rest =>
      match take_while is_digit rest with
      | (EmptyString, _) => (EmptyString, s)
      | (digits, rest') => (String "." digits, rest')
      end
  | _ => (EmptyString, s)
  end.

Definition is_sign (c : ascii) : bool := Ascii.eqb c "+" || Ascii.eqb c "-".

(** The exponent of a number, [[eE][+-]?[0-9]+], when the input continues
    with one *)
Definition take_exponent (s : string) : string * string :=
  match s with
  | String e rest =>
      if Ascii.eqb e "e" || Ascii.eqb e "E" then
        let (sign, after_sign) :=
          match rest with
          | String c rest' =>
              if is_sign c then (String c EmptyString, rest') else (EmptyString, rest)
          | EmptyString => (EmptyString, rest)
          end in
        match take_while is_digit after_sign with
        | (EmptyString, _) => (EmptyString, s)
        | (digits, rest') => (String e (sign ++ digits), rest')
        end
      else (EmptyString, s)
  | EmptyString => (EmptyString, s)
  end.

(** A number starting at [s]: [-?[0-9]+(\.[0-9]+)?([eE][+-]?[0-9]+)?].  The
    token is an integer when it has neither fraction nor exponent. *)
Definition take_number (s : string) : option (TokenKind * string * string) :=
  let (minus, after_minus) :=
    match s with
    | String "-" rest => (String "-" EmptyString, rest)
    | _ => (EmptyString, s)
    end in
  match take_while is_digit after_minus with
  | (EmptyString, _) => None
  | (int_part, r1) =>
      let (frac, r2) := take_fraction r1 in
      let (expo, r3) := take_exponent r2 in
      let k := match frac, expo with
               | EmptyString, EmptyString => TInteger
               | _, _ => TNumber
               end in
      Some (k, minus ++ int_part ++ frac ++ expo, r3)
  end.

Definition punctuation (c : ascii) : option TokenKind :=
  if Ascii.eqb c "{" then Some TLeftBrace
  else if Ascii.eqb c "}" then Some TRightBrace
  else if Ascii.eqb c "[" then Some TLeftBracket
  else if Ascii.eqb c "]" then Some TRightBracket
  else if Ascii.eqb c ":" then Some TColon
  else if Ascii.eqb c "," then Some TComma
  else None.

(** The text of a string literal and what follows its closing quote *)
Fixpoint take_string (s : string) : option (string * string) :=
  match s with
  | EmptyString => None
  | String c rest =>
      if Ascii.eqb c quote then Some (EmptyString, rest)
      else match take_string rest with
           | Some (text, rest') => Some (String c text, rest')
           | None => None
           end
  end.

Definition out_of_steps (file_id : string) (p : Position) : Diagnostic :=
  error 0 "scanner stopped" file_id (span_at p 0).

(** Modelled from the spec: the scanner of section 4.2.  One token per step;
    [fuel] bounds the steps, and a source of n bytes needs at most n + 1. *)
Fixpoint lex_from (fuel : nat) (file_id : string) (p : Position) (s : string)
  : Diagnostic + list Token :=
  match fuel with
  | O => inl (out_of_steps file_id p)
  | S fuel' =>
      match s with
      | EmptyString => inr [token_at TEof EmptyString p 0]
      | String c rest =>
          if is_whitespace c then lex_from fuel' file_id (advance p c) rest
          else if Ascii.eqb c "/" && (match rest with String "/" _ => true | _ => false end) then
            let (comment, rest') := take_while (fun x => negb (is_newline x)) s in
            lex_from fuel' file_id (advance_over p comment) rest'
          else if is_ident_start c then
            let (text, rest') := take_while is_ident_char s in
            let k := match keyword_of text with
                     | Some kw => TKeyword kw
                     | None => TIdentifier
                     end in
            match lex_from fuel' file_id (advance_over p text) rest' with
            | inl d => inl d
            | inr toks => inr (token_at k text p (String.length text) :: toks)
            end
          else if is_digit c
                  || (Ascii.eqb c "-" && (match rest with
                                          | String d _ => is_digit d
                                          | EmptyString => false
                                          end)) then
            match take_number s with
            | None => inl (error 1 "unexpected character" file_id (span_at p 1))
            | Some (k, text, rest') =>
                match lex_from fuel' file_id (advance_over p text) rest' with
                | inl d => inl d
                | inr toks => inr (token_at k text p (String.length text) :: toks)
                end
            end
          else if Ascii.eqb c quote then
            match take_string rest with
            | None =>
                inl (error 2 "unterminated string" file_id (span_at p (String.length s)))
            | Some (text, rest') =>
                let len := S (S (String.length text)) in
                match lex_from fuel' file_id
                        (advance_over p (String c (text ++ String quote EmptyString)))
                        rest' with
                | inl d => inl d
                | inr toks => inr (token_at TString text p len :: toks)
                end
            end
          else
            match punctuation c with
            | Some k =>
                match lex_from fuel' file_id (advance p c) rest with
                | inl d => inl d
                | inr toks => inr (token_at k (String c EmptyString) p 1 :: toks)
                end
            | None => inl (error 1 "unexpected character" file_id (span_at p 1))
            end
      end
  end.

(** Modelled from the spec: lex(source, file_id), the tokens ending in the
    end-of-file token, or the first lexical error (E001 to E099). *)
Definition lex (source file_id : string) : Diagnostic + list Token :=
  lex_from (S (String.length source)) file_id start_position source.

(** ** Abstract syntax *)

(** A number keeps the text of its literal; its value as a double is not
    needed by the parser. *)
Inductive AstValue :=
| ANumber (literal : string)
| AString (text : string)
| AIdentifier (name : string)
| AVector3 (x y z : string).

Record AstField := {
  field_name : string;
  field_value : AstValue;
  field_span : SourceSpan
}.

Record AstScene := {
  scene_name : string;
  scene_version : string;
  scene_ir_version : string;
  scene_unit_system : string;
  scene_span : SourceSpan
}.

Record AstComponent := {
  component_type : string;
  component_fields : list AstField;
  component_span : SourceSpan
}.

Record AstEntity := {
  entity_id : string;
  entity_kind : string;
  entity_components : list AstComponent;
  entity_span : SourceSpan
}.

Record AstConstraint := {
  constraint_id : string;
  constraint_type : string;
  constraint_fields : list AstField;
  constraint_span : SourceSpan
}.

Record AstMotion := {
  motion_id : string;
  motion_target : string;
  motion_type : string;
  motion_fields : list AstField;
  motion_span : SourceSpan
}.

Record AstEvent := {
  event_motion : string;
  event_start : string;
  event_duration : string;
  event_span : SourceSpan
}.

Record AstTimeline := {
  timeline_id : string;
  timeline_events : list AstEvent;
  timeline_span : SourceSpan
}.

Record AstFile := {
  ast_scene : AstScene;
  ast_library_imports : list (string * string);
  ast_entities : list AstEntity;
  ast_constraints : list AstConstraint;
  ast_motions : list AstMotion;
  ast_timelines : list AstTimeline
}.

(** ** Parser *)

(** A parser reads a prefix of the tokens and returns what is left, or stops
    with the first diagnostic. *)
Definition Parser (A : Type) : Type := list Token -> Diagnostic + (A * list Token).

Definition pure {A : Type} (a : A) : Parser A := fun toks => inr (a, toks).

Definition then_ {A B : Type} (p : Parser A) (k : A -> Parser B) : Parser B :=
  fun toks => match p toks with
              | inl d => inl d
              | inr (a, rest) => k a rest
              end.

Notation "x <-- p ;; k" := (then_ p (fun x => k))
  (at level 61, p at next level, right associativity).

Definition eof_token : Token :=
  {| kind := TEof; lexeme := EmptyString;
     token_span := {| byte_offset := 0; byte_length := 0; line := 1; column := 1 |} |}.

Definition peek (toks : list Token) : Token :=
  match toks with
  | t :: _ => t
  | [] => eof_token
  end.

Definition kind_eqb (a b : TokenKind) : bool :=
  match a, b with
  | TKeyword x, TKeyword y =>
      match x, y with
      | KwScene, KwScene | KwEntity, KwEntity | KwComponents, KwComponents
      | KwConstraint, KwConstraint | KwMotion, KwMotion | KwTimeline, KwTimeline
      | KwEvent, KwEvent | KwLibraryImports, KwLibraryImports | KwKind, KwKind => true
      | _, _ => false
      end
  | TIdentifier, TIdentifier | TInteger, TInteger | TNumber, TNumber
  | TString, TString | TColon, TColon | TComma, TComma
  | TLeftBrace, TLeftBrace | TRightBrace, TRightBrace
  | TLeftBracket, TLeftBracket | TRightBracket, TRightBracket | TEof, TEof => true
  | _, _ => false
  end.

Section WithFile.

Variable file_id : string.

Definition unexpected (t : Token) : Diagnostic :=
  error 100 "unexpected token" file_id (token_span t).

Definition missing_section (name : string) (t : Token) : Diagnostic :=
  error 101 ("missing required section " ++ name) file_id (token_span t).

Definition malformed_vector (t : Token) : Diagnostic :=
  error 110 "malformed vector" file_id (token_span t).

(** The next token when it has kind [k]; E100 on any other. *)
Definition expect (k : TokenKind) : Parser Token :=
  fun toks =>
    match toks with
    | t :: rest => if kind_eqb (kind t) k then inr (t, rest) else inl (unexpected t)
    | [] => inl (unexpected eof_token)
    end.

(** An identifier spelled [name] *)
Definition expect_name (name : string) : Parser Token :=
  fun toks =>
    match toks with
    | t :: rest =>
        if kind_eqb (kind t) TIdentifier && (lexeme t =? name)
        then inr (t, rest) else inl (unexpected t)
    | [] => inl (unexpected eof_token)
    end.

Definition is_numeric (k : TokenKind) : bool :=
  match k with TInteger | TNumber => true | _ => false end.

(** NUMBER: an integer or a number token *)
Definition expect_number : Parser Token :=
  fun toks =>
    match toks with
    | t :: rest => if is_numeric (kind t) then inr (t, rest) else inl (unexpected t)
    | [] => inl (unexpected eof_token)
    end.

(** [p] as long as the next token has kind [starts]; [fuel] bounds the
    repetitions, and a list of n tokens allows at most n. *)
Fixpoint many {A : Type} (fuel : nat) (starts : TokenKind) (p : Parser A)
  : Parser (list A) :=
  fun toks =>
    match fuel with
    | O => inl (error 0 "parser stopped" file_id (token_span (peek toks)))
    | S fuel' =>
        if kind_eqb (kind (peek toks)) starts then
          match p toks with
          | inl d => inl d
          | inr (x, rest) =>
              match many fuel' starts p rest with
              | inl d => inl d
              | inr (xs, rest') => inr (x :: xs, rest')
              end
          end
        else inr ([], toks)
    end.

(** vector := "[" NUMBER "," NUMBER "," NUMBER "]"; anything else after the
    bracket is E110, reported at the bracket. *)
Definition parse_vector (open : Token) : Parser AstValue :=
  fun toks =>
    match toks with
    | a :: c1 :: b :: c2 :: c :: close :: rest =>
        if is_numeric (kind a) && kind_eqb (kind c1) TComma
           && is_numeric (kind b) && kind_eqb (kind c2) TComma
           && is_numeric (kind c) && kind_eqb (kind close) TRightBracket
        then inr (AVector3 (lexeme a) (lexeme b) (lexeme c), rest)
        else inl (malformed_vector open)
    | _ => inl (malformed_vector open)
    end.

(** value := NUMBER | STRING | IDENT | vector *)
Definition parse_value : Parser AstValue :=
  fun toks =>
    match toks with
    | t :: rest =>
        match kind t with
        | TInteger | TNumber => inr (ANumber (lexeme t), rest)
        | TString => inr (AString (lexeme t), rest)
        | TIdentifier => inr (AIdentifier (lexeme t), rest)
        | TLeftBracket => parse_vector t rest
        | _ => inl (unexpected t)
        end
    | [] => inl (unexpected eof_token)
    end.

(** field := IDENT ":" value *)
Definition parse_field : Parser AstField :=
  name <-- expect TIdentifier ;;
  _ <-- expect TColon ;;
  v <-- parse_value ;;
  pure {| field_name := lexeme name; field_value := v; field_span := token_span name |}.

(** scene := "scene" "{" "name:" STRING "version:" INTEGER
             "ir_version:" STRING "unit_system:" STRING "}" *)
Definition parse_scene : Parser AstScene :=
  kw <-- expect (TKeyword KwScene) ;;
  _ <-- expect TLeftBrace ;;
  _ <-- expect_name "name" ;; _ <-- expect TColon ;; name <-- expect TString ;;
  _ <-- expect_name "version" ;; _ <-- expect TColon ;; version <-- expect TInteger ;;
  _ <-- expect_name "ir_version" ;; _ <-- expect TColon ;; ir <-- expect TString ;;
  _ <-- expect_name "unit_system" ;; _ <-- expect TColon ;; units <-- expect TString ;;
  _ <-- expect TRightBrace ;;
  pure {| scene_name := lexeme name; scene_version := lexeme version;
          scene_ir_version := lexeme ir; scene_unit_system := lexeme units;
          scene_span := token_span kw |}.

(** import_pair := IDENT ":" STRING *)
Definition parse_import : Parser (string * string) :=
  alias <-- expect TIdentifier ;;
  _ <-- expect TColon ;;
  library <-- expect TString ;;
  pure (lexeme alias, lexeme library).

(** library_imports := "library_imports" "{" import_pair* "}" *)
Definition parse_library_imports (fuel : nat) : Parser (list (string * string)) :=
  _ <-- expect (TKeyword KwLibraryImports) ;;
  _ <-- expect TLeftBrace ;;
  imports <-- many fuel TIdentifier parse_import ;;
  _ <-- expect TRightBrace ;;
  pure imports.

(** component := IDENT "{" field* "}" *)
Definition parse_component (fuel : nat) : Parser AstComponent :=
  name <-- expect TIdentifier ;;
  _ <-- expect TLeftBrace ;;
  fields <-- many fuel TIdentifier parse_field ;;
  _ <-- expect TRightBrace ;;
  pure {| component_type := lexeme name; component_fields := fields;
          component_span := token_span name |}.

(** entity := "entity" IDENT "{" "kind:" IDENT "components" "{" component* "}" "}" *)
Definition parse_entity (fuel : nat) : Parser AstEntity :=
  kw <-- expect (TKeyword KwEntity) ;;
  id <-- expect TIdentifier ;;
  _ <-- expect TLeftBrace ;;
  _ <-- expect (TKeyword KwKind) ;; _ <-- expect TColon ;; k <-- expect TIdentifier ;;
  _ <-- expect (TKeyword KwComponents) ;;
  _ <-- expect TLeftBrace ;;
  components <-- many fuel TIdentifier (parse_component fuel) ;;
  _ <-- expect TRightBrace ;;
  _ <-- expect TRightBrace ;;
  pure {| entity_id := lexeme id; entity_kind := lexeme k;
          entity_components := components; entity_span := token_span kw |}.

(** constraint := "constraint" IDENT "{" "type:" IDENT field* "}" *)
Definition parse_constraint (fuel : nat) : Parser AstConstraint :=
  kw <-- expect (TKeyword KwConstraint) ;;
  id <-- expect TIdentifier ;;
  _ <-- expect TLeftBrace ;;
  _ <-- expect_name "type" ;; _ <-- expect TColon ;; ty <-- expect TIdentifier ;;
  fields <-- many fuel TIdentifier parse_field ;;
  _ <-- expect TRightBrace ;;
  pure {| constraint_id := lexeme id; constraint_type := lexeme ty;
          constraint_fields := fields; constraint_span := token_span kw |}.

(** The two leading fields of a motion, [target:] and [type:], in either
    order; the result is (target, type). *)
Definition parse_target_and_type : Parser (string * string) :=
  first <-- expect TIdentifier ;;
  _ <-- expect TColon ;;
  v1 <-- expect TIdentifier ;;
  if lexeme first =? "target" then
    _ <-- expect_name "type" ;; _ <-- expect TColon ;; v2 <-- expect TIdentifier ;;
    pure (lexeme v1, lexeme v2)
  else if lexeme first =? "type" then
    _ <-- expect_name "target" ;; _ <-- expect TColon ;; v2 <-- expect TIdentifier ;;
    pure (lexeme v2, lexeme v1)
  else fun _ => inl (unexpected first).

(** motion := "motion" IDENT "{" target-and-type field* "}" *)
Definition parse_motion (fuel : nat) : Parser AstMotion :=
  kw <-- expect (TKeyword KwMotion) ;;
  id <-- expect TIdentifier ;;
  _ <-- expect TLeftBrace ;;
  tt <-- parse_target_and_type ;;
  fields <-- many fuel TIdentifier parse_field ;;
  _ <-- expect TRightBrace ;;
  pure {| motion_id := lexeme id; motion_target := fst tt; motion_type := snd tt;
          motion_fields := fields; motion_span := token_span kw |}.

(** event := "event" "{" "motion:" IDENT "start:" NUMBER "duration:" NUMBER "}" *)
Definition parse_event : Parser AstEvent :=
  kw <-- expect (TKeyword KwEvent) ;;
  _ <-- expect TLeftBrace ;;
  _ <-- expect (TKeyword KwMotion) ;; _ <-- expect TColon ;; m <-- expect TIdentifier ;;
  _ <-- expect_name "start" ;; _ <-- expect TColon ;; s <-- expect_number ;;
  _ <-- expect_name "duration" ;; _ <-- expect TColon ;; d <-- expect_number ;;
  _ <-- expect TRightBrace ;;
  pure {| event_motion := lexeme m; event_start := lexeme s;
          event_duration := lexeme d; event_span := token_span kw |}.

(** timeline := "timeline" IDENT "{" event* "}" *)
Definition parse_timeline (fuel : nat) : Parser AstTimeline :=
  kw <-- expect (TKeyword KwTimeline) ;;
  id <-- expect TIdentifier ;;
  _ <-- expect TLeftBrace ;;
  events <-- many fuel (TKeyword KwEvent) parse_event ;;
  _ <-- expect TRightBrace ;;
  pure {| timeline_id := lexeme id; timeline_events := events;
          timeline_span := token_span kw |}.

(** Modelled from the spec: a mandatory section, E101 when the next token
    does not open it (section 4.3). *)
Definition required {A : Type} (k : Keyword) (name : string) (p : Parser A) : Parser A :=
  fun toks =>
    if kind_eqb (kind (peek toks)) (TKeyword k) then p toks
    else inl (missing_section name (peek toks)).

(** Modelled from the spec: the recursive-descent parser of section 4.3 on
    the frozen grammar,
    file := scene library_imports entity* constraint* motion* timeline* eof.
    It stops at the first error. *)
Definition parse_file (toks : list Token) : Diagnostic + AstFile :=
  let fuel := List.length toks in
  match
    (scene <-- required KwScene "scene" parse_scene ;;
     imports <-- required KwLibraryImports "library_imports"
                   (parse_library_imports fuel) ;;
     entities <-- many fuel (TKeyword KwEntity) (parse_entity fuel) ;;
     constraints <-- many fuel (TKeyword KwConstraint) (parse_constraint fuel) ;;
     motions <-- many fuel (TKeyword KwMotion) (parse_motion fuel) ;;
     timelines <-- many fuel (TKeyword KwTimeline) (parse_timeline fuel) ;;
     _ <-- expect TEof ;;
     pure {| ast_scene := scene; ast_library_imports := imports;
             ast_entities := entities; ast_constraints := constraints;
             ast_motions := motions; ast_timelines := timelines |}) toks
  with
  | inl d => inl d
  | inr (ast, _) => inr ast
  end.

(** Modelled from the spec: parse_only(source, file_id), lexer then parser *)
Definition parse_only (source : string) : Diagnostic + AstFile :=
  match lex source file_id with
  | inl d => inl d
  | inr toks => parse_file toks
  end.

End WithFile.

(** ** Driver *)

Inductive FieldType :=
| FNumber | FString | FIdentifier | FVector3 | FBoolean
| FEnum (values : list string).

Record FieldSchema := {
  schema_field : string;
  schema_required : bool;
  schema_type : FieldType
}.

(** Type name to the fields it declares *)
Definition SchemaRegistry : Type := list (string * list FieldSchema).

Record Library := {
  provides_components : list string;
  provides_constraints : list string;
  provides_motions : list string
}.

(** Library name to what it provides *)
Definition LibraryRegistry : Type := list (string * Library).

Definition Pass : Type :=
  SchemaRegistry -> LibraryRegistry -> string -> AstFile -> list Diagnostic.

(** The stages behind the parser: the five passes, each a function of the
    registries, the file id and the tree, and the lowering to JSON text. *)
Record Backend := {
  syntax_pass : Pass;
  schema_pass : Pass;
  reference_pass : Pass;
  unit_pass : Pass;
  library_pass : Pass;
  lower_to_json : AstFile -> string
}.

(** compile(source, file_id): the IR as JSON text with the warnings that
    accompany it, or the ordered diagnostics. *)
Inductive Outcome :=
| Compiled (json : string) (warnings : list Diagnostic)
| Rejected (diagnostics : list Diagnostic).

Definition is_error (d : Diagnostic) : bool :=
  match severity d with Error => true | Warning => false end.

(** Modelled from the spec: validate_only(ast, file_id), the passes in their
    numbered order, every pass run and its diagnostics kept in that order *)
Definition validate_only (B : Backend) (S : SchemaRegistry) (L : LibraryRegistry)
    (file_id : string) (ast : AstFile) : list Diagnostic :=
  (syntax_pass B S L file_id ast ++ schema_pass B S L file_id ast
   ++ reference_pass B S L file_id ast ++ unit_pass B S L file_id ast
   ++ library_pass B S L file_id ast)%list.

(** Modelled from the spec: compile(source, file_id) of sections 2 and 5 to
    7.  A lexical or syntax error ends the run with that one diagnostic;
    otherwise the passes run, and the tree is lowered when none reports an
    error. *)
Definition compile (B : Backend) (S : SchemaRegistry) (L : LibraryRegistry)
    (source file_id : string) : Outcome :=
  match parse_only file_id source with
  | inl d => Rejected [d]
  | inr ast =>
      let diags := validate_only B S L file_id ast in
      if existsb is_error diags then Rejected diags
      else Compiled (lower_to_json B ast) diags
  end.

(** The kinds of the tokens of a scene section and of a library_imports
    section with [n] imports *)
Definition scene_section : list TokenKind :=
  [ TKeyword KwScene; TLeftBrace;
    TIdentifier; TColon; TString;
    TIdentifier; TColon; TInteger;
    TIdentifier; TColon; TString;
    TIdentifier; TColon; TString;
    TRightBrace ].

Definition imports_section (n : nat) : list TokenKind :=
  (TKeyword KwLibraryImports :: TLeftBrace
   :: List.concat (repeat [TIdentifier; TColon; TString] n) ++ [TRightBrace])%list.

Definition kinds (toks : list Token) : list TokenKind := map kind toks.

(** A parser that only ever reports E100 and returns a suffix of its input *)
Definition plain {A : Type} (p : Parser A) : Prop :=
  forall toks,
    match p toks with
    | inl d => code d = 100
    | inr (_, rest) => exists pre, toks = (pre ++ rest)%list
    end.

(** ** The shipped samples *)

Definition dq : string := String quote EmptyString.

(** frontend/js/sample-dsl.js: SAMPLE_DSL *)
Definition SAMPLE_DSL : string :=
  "scene {
  name: " ++ dq ++ "Simple Visualization" ++ dq ++ "
  version: 1
  ir_version: " ++ dq ++ "0.1.0" ++ dq ++ "
  unit_system: " ++ dq ++ "SI" ++ dq ++ "
}

entity cube1 {
  kind: solid
  components {
    transform {
      position: [0, 0, 0]
      rotation: [0, 0, 0]
      scale: [2, 2, 2]
    }
    geometry {
      primitive: cube
    }
  }
}

entity sphere1 {
  kind: solid
  components {
    transform {
      position: [4, 0, 0]
      rotation: [0, 0, 0]
      scale: [1.5, 1.5, 1.5]
    }
    geometry {
      primitive: sphere
    }
  }
}

entity cylinder1 {
  kind: solid
  components {
    transform {
      position: [-3, 0, 0]
      rotation: [0, 0, 0]
      scale: [1, 2, 1]
    }
    geometry {
      primitive: cylinder
    }
  }
}".

(** frontend/js/sample-dsl.js: SAMPLE_DSL_SIMPLE *)
Definition SAMPLE_DSL_SIMPLE : string :=
  "entity box {
  kind: solid
  components {
    transform {
      position: [0, 0, 0]
      rotation: [0, 0, 0]
      scale: [1, 1, 1]
    }
    geometry {
      primitive: cube
    }
  }
}".

(** scene.dsl *)
Definition scene_dsl : string :=
  "scene {
name: " ++ dq ++ "Cube Demo" ++ dq ++ "
version: 1
ir_version: " ++ dq ++ "0.1.0" ++ dq ++ "
unit_system: " ++ dq ++ "SI" ++ dq ++ "
}
library_imports {
math: " ++ dq ++ "core_mechanics" ++ dq ++ "
geometry: " ++ dq ++ "basic_solids" ++ dq ++ "
}
entity cube {
kind: solid
components {
transform {
position: [0, 0, 0]
rotation: [0, 0, 0]
scale: [1, 1, 1]
}
geometry {
primitive: cube
}
physical {
mass: 1.0
rigid: true
}
}
}
motion rotate_cube {
target: cube
type: rotation
axis: [0, 1, 0]
speed: 1.5708
}
timeline main {
event {
motion: rotate_cube
start: 0.0
duration: 10.0
}
}
".

(** The smallest source the grammar admits: both sections and nothing else *)
Definition minimal_scene : string :=
  "scene{name:" ++ dq ++ "T" ++ dq ++ " version:1 ir_version:" ++ dq ++ "0.1.0" ++ dq
  ++ " unit_system:" ++ dq ++ "SI" ++ dq ++ "} library_imports{math:" ++ dq
  ++ "core_mechanics" ++ dq ++ "}".

End Compiler.

(** ** Conversions *)

(** [Number::toString] and [StringToNumber] are fixed by the language but
    their digit-level algorithms play no part in the viewer's logic; every
    definition and theorem below is stated for arbitrary such functions. *)
Section Viewer.

Variable number_to_string : number -> string.
Variable string_to_number : string -> number.

(** [Math.random] as a sequence: [random_index k] is
    [Math.floor(Math.random() * 8)] at the k-th call. *)
Variable random_index : nat -> nat.

Fixpoint join_strings (sep : string) (l : list string) : string :=
  match l with
  | [] => ""
  | [x] => x
  | x :: rest => x ++ sep ++ join_strings sep rest
  end.

Fixpoint res_map {A B : Type} (f : A -> Res B) (l : list A) : Res (list B) :=
  match l with
  | [] => Ok []
  | x :: rest =>
      match f x with
      | Throw e => Throw e
      | Ok y => match res_map f rest with
                | Throw e => Throw e
                | Ok ys => Ok (y :: ys)
                end
      end
  end.

Definition builtin_to_string (b : Builtin) : string :=
  match b with
  | ObjectPrototype => "[object Object]"
  | BuiltinFunction name => "function " ++ name ++ "() { [native code] }"
  end.

(** ToString.  A parsed object has no callable own [toString]; when it has an
    own property of that name the inherited method is shadowed and the
    conversion throws.  Array elements [null] and [undefined] join as empty
    strings. *)
Fixpoint to_string (v : JsVal) : Res string :=
  match v with
  | JUndefined => Ok "undefined"
  | JNull => Ok "null"
  | JBool true => Ok "true"
  | JBool false => Ok "false"
  | JNum x => Ok (number_to_string x)
  | JStr s => Ok s
  | JArr items =>
      match res_map (fun x => if is_nullish x then Ok "" else to_string x) items with
      | Ok parts => Ok (join_strings "," parts)
      | Throw e => Throw e
      end
  | JObj fields =>
      match assoc "toString" fields with
      | Some _ => Throw (TypeError "Cannot convert object to primitive value")
      | None => Ok "[object Object]"
      end
  | JBuiltin b => Ok (builtin_to_string b)
  end.

(** ToPrimitive: primitives stay, arrays and objects become their string. *)
Definition to_primitive (v : JsVal) : Res JsVal :=
  match v with
  | JArr _ | JObj _ | JBuiltin _ =>
      match to_string v with
      | Ok s => Ok (JStr s)
      | Throw e => Throw e
      end
  | _ => Ok v
  end.

Definition prim_to_number (v : JsVal) : number :=
  match v with
  | JUndefined => S754_nan
  | JNull => S754_zero false
  | JBool true => num_of_Z 1
  | JBool false => S754_zero false
  | JNum x => x
  | JStr s => string_to_number s
  | _ => S754_nan
  end.

(** ToNumber *)
Definition to_number (v : JsVal) : Res number :=
  match to_primitive v with
  | Ok p => Ok (prim_to_number p)
  | Throw e => Throw e
  end.

(** ToPropertyKey, for [obj[v]] *)
Definition to_property_key (v : JsVal) : Res string := to_string v.

Definition is_string (v : JsVal) : bool :=
  match v with JStr _ => true | _ => false end.

(** [a + b] *)
Definition js_add (a b : JsVal) : Res JsVal :=
  match to_primitive a with
  | Throw e => Throw e
  | Ok pa =>
      match to_primitive b with
      | Throw e => Throw e
      | Ok pb =>
          if is_string pa || is_string pb then
            match to_string pa, to_string pb with
            | Ok sa, Ok sb => Ok (JStr (sa ++ sb))
            | Throw e, _ | _, Throw e => Throw e
            end
          else Ok (JNum (num_add (prim_to_number pa) (prim_to_number pb)))
      end
  end.

(** [a * b] *)
Definition js_mul (a b : JsVal) : Res number :=
  match to_number a with
  | Throw e => Throw e
  | Ok x => match to_number b with
            | Throw e => Throw e
            | Ok y => Ok (num_mul x y)
            end
  end.

(** Lexicographic order on code units, for [<] between two strings. *)
Fixpoint string_ltb (a b : string) : bool :=
  match a, b with
  | _, EmptyString => false
  | EmptyString, String _ _ => true
  | String x a', String y b' =>
      let nx := nat_of_ascii x in
      let ny := nat_of_ascii y in
      if (nx <? ny)%nat then true
      else if (ny <? nx)%nat then false
      else string_ltb a' b'
  end.

(** [a < b] *)
Definition js_lt (a b : JsVal) : Res bool :=
  match to_primitive a with
  | Throw e => Throw e
  | Ok pa =>
      match to_primitive b with
      | Throw e => Throw e
      | Ok pb =>
          match pa, pb with
          | JStr sa, JStr sb => Ok (string_ltb sa sb)
          | _, _ => Ok (num_ltb (prim_to_number pa) (prim_to_number pb))
          end
      end
  end.

(** [a > b] is [b < a] with the operands still evaluated left to right. *)
Definition js_gt (a b : JsVal) : Res bool :=
  match to_primitive a with
  | Throw e => Throw e
  | Ok _ => js_lt b a
  end.
(** ** Statements: state that survives a throw *)

(** A method body runs against a mutable receiver; what it wrote before an
    exception stays written. *)
Definition M (S A : Type) : Type := S -> Res A * S.

Definition ret {S A : Type} (a : A) : M S A := fun s => (Ok a, s).

Definition bind {S A B : Type} (c : M S A) (k : A -> M S B) : M S B :=
  fun s => match c s with
           | (Ok a, s') => k a s'
           | (Throw e, s') => (Throw e, s')
           end.

Definition throw {S A : Type} (e : JsError) : M S A := fun s => (Throw e, s).
Definition get_state {S : Type} : M S S := fun s => (Ok s, s).
Definition modify {S : Type} (f : S -> S) : M S unit := fun s => (Ok tt, f s).

Definition lift {S A : Type} (r : Res A) : M S A := fun s => (r, s).

(** [try { c } catch (e) { handler e }] *)
Definition try_catch {S A : Type} (c : M S A) (handler : JsError -> M S A) : M S A :=
  fun s => match c s with
           | (Ok a, s') => (Ok a, s')
           | (Throw e, s') => handler e s'
           end.

(** [try { c } finally { f }], for an [f] that does not throw *)
Definition try_finally {S A : Type} (c : M S A) (f : S -> S) : M S A :=
  fun s => let (r, s') := c s in (r, f s').

Notation "x <- c ;; k" := (bind c (fun x => k))
  (at level 61, c at next level, right associativity).
Notation "c ;;; k" := (bind c (fun _ => k))
  (at level 61, right associativity).

(** [list.forEach(body)]: stops at the first throw *)
Fixpoint forEach {S A : Type} (l : list A) (body : A -> M S unit) : M S unit :=
  match l with
  | [] => ret tt
  | x :: rest => body x ;;; forEach rest body
  end.

(** The receiver of [.forEach]: anything but an array has no such method.
    [callee] is the text of the receiver expression, which the engine names
    in its message. *)
Definition forEach_items (callee : string) (v : JsVal) : Res (list JsVal) :=
  match v with
  | JArr items => Ok items
  | JUndefined | JNull =>
      match js_get v "forEach" with Ok _ => Ok [] | Throw e => Throw e end
  | _ => Throw (TypeError (callee ++ ".forEach is not a function"))
  end.

(** Expressions: sequencing of evaluations that may throw *)
Definition rbind {A B : Type} (c : Res A) (k : A -> Res B) : Res B :=
  match c with
  | Ok a => k a
  | Throw e => Throw e
  end.

Notation "x <~ c ;; k" := (rbind c (fun x => k))
  (at level 61, c at next level, right associativity).

(** ** renderer.js: ThreeRenderer *)

(** The three.js geometry constructors the viewer calls, with their arguments
    as passed. *)
Inductive Geometry :=
| BoxGeometry (width height depth : JsVal)
| SphereGeometry (radius : JsVal) (widthSegments heightSegments : Z)
| CylinderGeometry (radiusTop radiusBottom height : JsVal) (radialSegments : Z)
| ConeGeometry (radius height : JsVal) (radialSegments : Z)
| PlaneGeometry (width height : JsVal).

Definition Triple : Type := JsVal * JsVal * JsVal.

(** One [quaternion.premultiply(q)] with [q] built by
    [setFromAxisAngle(new Vector3(x, y, z).normalize(), angle)]. *)
Record Spin := {
  spin_axis : Triple;
  spin_angle : number
}.

(** A [THREE.Mesh] as the viewer sets it up.  three.js keeps an object's
    orientation as Euler angles and quaternion in step; [mesh_rotation] is the
    Euler triple given at creation and [mesh_spins] the rotations premultiplied
    since, latest first. *)
Record Mesh := {
  mesh_geometry : Geometry;
  mesh_color : Z;
  mesh_position : Triple;
  mesh_rotation : Triple;
  mesh_name : JsVal;
  mesh_userData : JsVal;
  mesh_spins : list Spin
}.

(** Entries of [this.timelineEvents]: [{ start, duration, motion }] *)
Record TimelineEvent := {
  start : JsVal;
  duration : JsVal;
  motion : JsVal
}.

(** The fields of a [ThreeRenderer] that the methods below read or write.
    The meshes in [objects] are exactly the meshes added to the three.js
    scene; [objectCount] is the number shown in the [#objectCount] element;
    [randomCalls] counts the calls of [Math.random] so far. *)
Record Renderer := {
  objects : list Mesh;
  motions : JsVal;
  timelineEvents : list TimelineEvent;
  isPlaying : bool;
  currentTime : number;
  lastTimestamp : option number;
  cameraPosition : number * number * number;
  objectCount : nat;
  randomCalls : nat
}.

Definition set_objects (v : list Mesh) (r : Renderer) : Renderer :=
  {| objects := v; motions := motions r; timelineEvents := timelineEvents r;
     isPlaying := isPlaying r; currentTime := currentTime r;
     lastTimestamp := lastTimestamp r; cameraPosition := cameraPosition r;
     objectCount := objectCount r; randomCalls := randomCalls r |}.

Definition set_motions (v : JsVal) (r : Renderer) : Renderer :=
  {| objects := objects r; motions := v; timelineEvents := timelineEvents r;
     isPlaying := isPlaying r; currentTime := currentTime r;
     lastTimestamp := lastTimestamp r; cameraPosition := cameraPosition r;
     objectCount := objectCount r; randomCalls := randomCalls r |}.

Definition set_timelineEvents (v : list TimelineEvent) (r : Renderer) : Renderer :=
  {| objects := objects r; motions := motions r; timelineEvents := v;
     isPlaying := isPlaying r; currentTime := currentTime r;
     lastTimestamp := lastTimestamp r; cameraPosition := cameraPosition r;
     objectCount := objectCount r; randomCalls := randomCalls r |}.

Definition set_isPlaying (v : bool) (r : Renderer) : Renderer :=
  {| objects := objects r; motions := motions r; timelineEvents := timelineEvents r;
     isPlaying := v; currentTime := currentTime r;
     lastTimestamp := lastTimestamp r; cameraPosition := cameraPosition r;
     objectCount := objectCount r; randomCalls := randomCalls r |}.

Definition set_currentTime (v : number) (r : Renderer) : Renderer :=
  {| objects := objects r; motions := motions r; timelineEvents := timelineEvents r;
     isPlaying := isPlaying r; currentTime := v;
     lastTimestamp := lastTimestamp r; cameraPosition := cameraPosition r;
     objectCount := objectCount r; randomCalls := randomCalls r |}.

Definition set_lastTimestamp (v : option number) (r : Renderer) : Renderer :=
  {| objects := objects r; motions := motions r; timelineEvents := timelineEvents r;
     isPlaying := isPlaying r; currentTime := currentTime r;
     lastTimestamp := v; cameraPosition := cameraPosition r;
     objectCount := objectCount r; randomCalls := randomCalls r |}.

Definition set_cameraPosition (v : number * number * number) (r : Renderer) : Renderer :=
  {| objects := objects r; motions := motions r; timelineEvents := timelineEvents r;
     isPlaying := isPlaying r; currentTime := currentTime r;
     lastTimestamp := lastTimestamp r; cameraPosition := v;
     objectCount := objectCount r; randomCalls := randomCalls r |}.

Definition set_objectCount (v : nat) (r : Renderer) : Renderer :=
  {| objects := objects r; motions := motions r; timelineEvents := timelineEvents r;
     isPlaying := isPlaying r; currentTime := currentTime r;
     lastTimestamp := lastTimestamp r; cameraPosition := cameraPosition r;
     objectCount := v; randomCalls := randomCalls r |}.

Definition set_randomCalls (v : nat) (r : Renderer) : Renderer :=
  {| objects := objects r; motions := motions r; timelineEvents := timelineEvents r;
     isPlaying := isPlaying r; currentTime := currentTime r;
     lastTimestamp := lastTimestamp r; cameraPosition := cameraPosition r;
     objectCount := objectCount r; randomCalls := v |}.

Definition num_zero : number := S754_zero false.
Definition num_one : number := num_of_Z 1.

Definition vec_literal (x y z : number) : JsVal := JArr [JNum x; JNum y; JNum z].

(** extractVector3(vectorData) *)
Definition extractVector3 (vectorData : JsVal) : Res JsVal :=
  if negb (truthy vectorData) then Ok JNull
  else if is_array vectorData then Ok vectorData
  else
    v3 <~ js_get vectorData "Vector3" ;;
    if truthy v3 then Ok v3
    else
      arr <~ js_get vectorData "Array" ;;
      if truthy arr then Ok arr else Ok JNull.

Definition colors : list Z :=
  [ 0xff6b6b; 0x4ecdc4; 0x45b7d1; 0xf7b731;
    0x845ef7; 0x6bff6b; 0xffd54f; 0xff6b8a ]%Z.

(** getRandomColor() *)
Definition getRandomColor : M Renderer Z :=
  fun r =>
    (Ok (nth (random_index (randomCalls r) mod 8) colors 0%Z),
     set_randomCalls (S (randomCalls r)) r).

Definition read3 (v : JsVal) : Res Triple :=
  x <~ js_get v "0" ;;
  y <~ js_get v "1" ;;
  z <~ js_get v "2" ;;
  Ok (x, y, z).

(** The [switch (primitive)] of createEntityMesh *)
Definition select_geometry (primitive scale : JsVal) : Res Geometry :=
  if strict_eq primitive (JStr "cube") then
    s0 <~ js_get scale "0" ;; s1 <~ js_get scale "1" ;; s2 <~ js_get scale "2" ;;
    Ok (BoxGeometry s0 s1 s2)
  else if strict_eq primitive (JStr "sphere") then
    s0 <~ js_get scale "0" ;;
    Ok (SphereGeometry s0 32 32)
  else if strict_eq primitive (JStr "cylinder") then
    s0 <~ js_get scale "0" ;; s0' <~ js_get scale "0" ;; s1 <~ js_get scale "1" ;;
    Ok (CylinderGeometry s0 s0' s1 32)
  else if strict_eq primitive (JStr "cone") then
    s0 <~ js_get scale "0" ;; s1 <~ js_get scale "1" ;;
    Ok (ConeGeometry s0 s1 32)
  else if strict_eq primitive (JStr "plane") then
    s0 <~ js_get scale "0" ;; s1 <~ js_get scale "1" ;;
    Ok (PlaneGeometry s0 s1)
  else Ok (BoxGeometry (JNum num_one) (JNum num_one) (JNum num_one)).

(** The values createEntityMesh derives from the entity before it builds
    anything: position, rotation, scale and the primitive. *)
Definition entity_layout (entity : JsVal) : Res (JsVal * JsVal * JsVal * JsVal) :=
  components0 <~ js_get entity "components" ;;
  let components := js_or components0 (JObj []) in
  transform0 <~ js_get components "transform" ;;
  let transform := js_or transform0 (JObj []) in
  geometry0 <~ js_get components "geometry" ;;
  let geometry := js_or geometry0 (JObj []) in
  transformProps0 <~ js_get transform "properties" ;;
  let transformProps := js_or transformProps0 (JObj []) in
  p <~ js_get transformProps "position" ;;
  p' <~ extractVector3 p ;;
  let position := js_or p' (vec_literal num_zero num_zero num_zero) in
  q <~ js_get transformProps "rotation" ;;
  q' <~ extractVector3 q ;;
  let rotation := js_or q' (vec_literal num_zero num_zero num_zero) in
  s <~ js_get transformProps "scale" ;;
  s' <~ extractVector3 s ;;
  let scale := js_or s' (vec_literal num_one num_one num_one) in
  geometryProps0 <~ js_get geometry "properties" ;;
  let geometryProps := js_or geometryProps0 (JObj []) in
  primitiveObj <~ js_get geometryProps "primitive" ;;
  let primitive :=
    js_or (js_or (js_get_opt primitiveObj "Identifier") primitiveObj) (JStr "cube") in
  Ok (position, rotation, scale, primitive).

(** createEntityMesh(name, entity).  The three.js constructors and setters
    store what they are given and do not throw.  The body ends with a log whose
    template literal converts [name] and then [primitive] to strings; an
    exception raised in the body is caught, and the handler logs a template
    literal that converts [name] once more, so a [name] without a string
    conversion leaves the method with that exception. *)
Definition createEntityMesh (name entity : JsVal) : M Renderer unit :=
  try_catch
    (layout <- lift (entity_layout entity) ;;
     let '(position, rotation, scale, primitive) := layout in
     geom <- lift (select_geometry primitive scale) ;;
     c <- getRandomColor ;;
     pos <- lift (read3 position) ;;
     rot <- lift (read3 rotation) ;;
     modify (fun r =>
       set_objects
         (objects r ++
          [ {| mesh_geometry := geom; mesh_color := c;
               mesh_position := pos; mesh_rotation := rot;
               mesh_name := name; mesh_userData := entity;
               mesh_spins := [] |} ]) r) ;;;
     shown <- lift (to_string name) ;;
     kind <- lift (to_string primitive) ;;
     ret tt)
    (fun _ => shown <- lift (to_string name) ;; ret tt).

(** *** loadMotions and its lookup table *)

(** [const motionMap = {}]: an ordinary object used as a table.  It has own
    properties and a prototype, [Object.prototype] to begin with. *)
Record PlainObject := {
  own : list (string * JsVal);
  proto : JsVal
}.

Definition empty_object : PlainObject :=
  {| own := []; proto := JBuiltin ObjectPrototype |}.

Fixpoint assoc_update {A : Type} (k : string) (v : A) (l : list (string * A))
  : list (string * A) :=
  match l with
  | [] => []
  | (k', x) :: rest =>
      if k =? k' then (k', v) :: rest else (k', x) :: assoc_update k v rest
  end.

Definition is_object (v : JsVal) : bool :=
  match v with JArr _ | JObj _ | JBuiltin _ => true | _ => false end.

(** A read that misses the own properties continues along the prototype
    chain.  A parsed object in that position answers with its own properties
    and then hands over to [Object.prototype], whose [__proto__] getter returns
    the prototype of the object the read started from. *)
Definition proto_get (p : JsVal) (k : string) : JsVal :=
  match p with
  | JBuiltin ObjectPrototype => object_prototype_get p k
  | JObj fields =>
      match assoc k fields with
      | Some x => x
      | None => object_prototype_get p k
      end
  | JArr _ | JBuiltin (BuiltinFunction _) =>
      if k =? "__proto__" then p
      else match js_get_opt p k with
           | JUndefined => object_prototype_get p k
           | x => x
           end
  | _ => JUndefined
  end.

(** [o[k]] *)
Definition object_get (o : PlainObject) (k : string) : JsVal :=
  match assoc k (own o) with
  | Some x => x
  | None => proto_get (proto o) k
  end.

(** Does the prototype chain offer a data property [__proto__] before the
    accessor of [Object.prototype] is reached? *)
Definition proto_shadows_accessor (p : JsVal) : bool :=
  match p with
  | JObj fields => match assoc "__proto__" fields with Some _ => true | None => false end
  | JNull => true
  | _ => false
  end.

(** [o[k] = v].  An own property is overwritten.  Otherwise the assignment
    creates an own property, except for the key [__proto__] when the accessor
    of [Object.prototype] is inherited: its setter replaces the prototype when
    [v] is an object or [null] and ignores any other value. *)
Definition object_set (o : PlainObject) (k : string) (v : JsVal) : PlainObject :=
  match assoc k (own o) with
  | Some _ => {| own := assoc_update k v (own o); proto := proto o |}
  | None =>
      if (k =? "__proto__") && negb (proto_shadows_accessor (proto o)) then
        if is_object v || strict_eq v JNull
        then {| own := own o; proto := v |}
        else o
      else {| own := own o ++ [(k, v)]; proto := proto o |}
  end.

(** [(this.motions || []).forEach(m => { motionMap[m.id] = m; })] *)
Fixpoint build_motionMap (ms : list JsVal) (motionMap : PlainObject) : Res PlainObject :=
  match ms with
  | [] => Ok motionMap
  | m :: rest =>
      id <~ js_get m "id" ;;
      key <~ to_property_key id ;;
      build_motionMap rest (object_set motionMap key m)
  end.

(** The body of the inner [forEach]: the entries one timeline event adds to
    [this.timelineEvents], none when the callback returns early. *)
Definition event_entries (motionMap : PlainObject) (ev : JsVal) : Res (list TimelineEvent) :=
  id <~ js_get ev "motion_id" ;;
  key <~ to_property_key id ;;
  let motion := js_or (object_get motionMap key) JNull in
  if negb (truthy motion) then Ok []
  else
    st <~ js_get ev "start_time" ;;
    start <~ (if truthy st then Ok st
              else s2 <~ js_get ev "start" ;; Ok (js_or s2 (JNum num_zero))) ;;
    d <~ js_get ev "duration" ;;
    let duration := js_or d (JNum num_zero) in
    Ok [ {| start := start; duration := duration; motion := motion |} ].

Definition push_events (l : list TimelineEvent) (r : Renderer) : Renderer :=
  set_timelineEvents (timelineEvents r ++ l) r.

(** loadMotions(motions, timelines) *)
Definition loadMotions (motionsArg timelines : JsVal) : M Renderer unit :=
  modify (set_motions (js_or motionsArg (JArr []))) ;;;
  modify (set_timelineEvents []) ;;;
  r <- get_state ;;
  ms <- lift (forEach_items "(this.motions || [])" (js_or (motions r) (JArr []))) ;;
  motionMap <- lift (build_motionMap ms empty_object) ;;
  tls <- lift (forEach_items "(timelines || [])" (js_or timelines (JArr []))) ;;
  forEach tls (fun tl =>
    evs0 <- lift (js_get tl "events") ;;
    evs <- lift (forEach_items "(tl.events || [])" (js_or evs0 (JArr []))) ;;
    forEach evs (fun ev =>
      entries <- lift (event_entries motionMap ev) ;;
      modify (push_events entries))).

(** *** updateAnimations *)

(** The predicate of findObjectByName's [find] *)
Definition object_matches (name : JsVal) (o : Mesh) : Res bool :=
  if strict_eq (mesh_name o) name then Ok true
  else if strict_eq (js_get_opt (mesh_userData o) "id") name then Ok true
  else
    s <~ to_string name ;;
    Ok (strict_eq (js_get_opt (mesh_userData o) "id") (JStr s)).

(** findObjectByName(name): the position in [objects] of the first match *)
Fixpoint findObjectByName (name : JsVal) (l : list Mesh) : Res (option nat) :=
  match l with
  | [] => Ok None
  | o :: rest =>
      hit <~ object_matches name o ;;
      if hit then Ok (Some 0%nat)
      else
        found <~ findObjectByName name rest ;;
        Ok (option_map S found)
  end.

(** [motion.parameters?.axis?.Vector3 || motion.parameters?.axis || [0,1,0]] *)
Definition rotation_axis (m : JsVal) : Res JsVal :=
  params <~ js_get m "parameters" ;;
  let a := js_get_opt params "axis" in
  Ok (js_or (js_or (js_get_opt a "Vector3") a)
            (vec_literal num_zero num_one num_zero)).

(** [motion.parameters?.speed?.Number || motion.parameters?.speed || 0] *)
Definition rotation_speed (m : JsVal) : Res JsVal :=
  params <~ js_get m "parameters" ;;
  let sp := js_get_opt params "speed" in
  Ok (js_or (js_or (js_get_opt sp "Number") sp) (JNum num_zero)).

(** [t < start || t > (start + duration)] *)
Definition outside_window (t : number) (evt : TimelineEvent) : Res bool :=
  before <~ js_lt (JNum t) (start evt) ;;
  if before then Ok true
  else
    e <~ js_add (start evt) (duration evt) ;;
    js_gt (JNum t) e.

Fixpoint update_nth {A : Type} (i : nat) (f : A -> A) (l : list A) : list A :=
  match l, i with
  | [], _ => []
  | x :: rest, O => f x :: rest
  | x :: rest, S j => x :: update_nth j f rest
  end.

Definition premultiply (sp : Spin) (o : Mesh) : Mesh :=
  {| mesh_geometry := mesh_geometry o; mesh_color := mesh_color o;
     mesh_position := mesh_position o; mesh_rotation := mesh_rotation o;
     mesh_name := mesh_name o; mesh_userData := mesh_userData o;
     mesh_spins := sp :: mesh_spins o |}.

(** What updateAnimations does with an event that passed the time test *)
Definition apply_motion (delta : number) (m : JsVal) : M Renderer unit :=
  if negb (truthy m) then ret tt
  else
    ty <- lift (js_get m "motion_type") ;;
    if strict_eq ty (JStr "rotation") then
      targetName <- lift (js_get m "target_entity") ;;
      axis <- lift (rotation_axis m) ;;
      speed <- lift (rotation_speed m) ;;
      r <- get_state ;;
      obj <- lift (findObjectByName targetName (objects r)) ;;
      match obj with
      | None => ret tt
      | Some i =>
          ax <- lift (read3 axis) ;;
          angle <- lift (js_mul speed (JNum delta)) ;;
          modify (fun r' =>
            set_objects
              (update_nth i (premultiply {| spin_axis := ax; spin_angle := angle |})
                          (objects r')) r')
      end
    else ret tt.

(** The callback of updateAnimations's [forEach] *)
Definition animate_event (delta : number) (evt : TimelineEvent) : M Renderer unit :=
  r <- get_state ;;
  out <- lift (outside_window (currentTime r) evt) ;;
  if out then ret tt else apply_motion delta (motion evt).

(** updateAnimations(delta) *)
Definition updateAnimations (delta : number) : M Renderer unit :=
  r <- get_state ;;
  match timelineEvents r with
  | [] => ret tt
  | evts => forEach evts (animate_event delta)
  end.

(** setPlaying(flag) *)
Definition setPlaying (flag : JsVal) : M Renderer unit :=
  modify (set_isPlaying (truthy flag)).

(** *** Loading a scene *)

Definition home_camera : number * number * number :=
  (num_zero, num_of_Z 10, num_of_Z 15).

(** clearScene() *)
Definition clearScene : M Renderer unit :=
  modify (set_objects []) ;;;
  modify (set_motions (JArr [])) ;;;
  modify (set_timelineEvents []) ;;;
  modify (set_cameraPosition home_camera).

(** resetCamera() *)
Definition resetCamera : M Renderer unit :=
  modify (set_cameraPosition home_camera).

(** reset() *)
Definition reset : M Renderer unit := clearScene.

(** fitCameraToScene().  The bounding box, its size and its centre are
    computed without side effect on the fields above; then the method
    evaluates [Math.isNaN(size)].  [Math] has no member [isNaN] (the test
    lives at [Number.isNaN] and at the global [isNaN]), so the call throws
    before the camera is touched. *)
Definition fitCameraToScene : M Renderer unit :=
  throw (TypeError "Math.isNaN is not a function").

Fixpoint string_chars (s : string) : list JsVal :=
  match s with
  | EmptyString => []
  | String c rest => JStr (String c EmptyString) :: string_chars rest
  end.

(** [Object.values(v)] for a [v] that is neither [null] nor [undefined] *)
Definition object_values (v : JsVal) : list JsVal :=
  match v with
  | JObj fields => map snd fields
  | JArr items => items
  | JStr s => string_chars s
  | _ => []
  end.

(** [Array.isArray(entities) ? entities : Object.values(entities)] *)
Definition entities_list (entities : JsVal) : list JsVal :=
  match entities with
  | JArr items => items
  | _ => object_values entities
  end.

Definition load_motions_if_any (irScene : JsVal) : M Renderer unit :=
  ms <- lift (js_get irScene "motions") ;;
  tls <- lift (js_get irScene "timelines") ;;
  if truthy ms || truthy tls
  then loadMotions (js_or ms (JArr [])) (js_or tls (JArr []))
  else ret tt.

(** loadScene(irScene).  The page holds the [#objectCount] element.  The
    [catch] logs and rethrows, so an exception of the body leaves the method
    as it was raised. *)
Definition loadScene (irScene : JsVal) : M Renderer unit :=
  clearScene ;;;
  if negb (truthy irScene) then ret tt
  else
    try_catch
      (entities <- lift (js_get irScene "entities") ;;
       (if truthy entities then
          forEach (entities_list entities) (fun entity =>
            id <- lift (js_get entity "id") ;;
            createEntityMesh (js_or id (JStr "unknown")) entity)
        else ret tt) ;;;
       load_motions_if_any irScene ;;;
       modify (fun r => set_objectCount (List.length (objects r)) r) ;;;
       fitCameraToScene ;;;
       modify (set_currentTime num_zero) ;;;
       modify (set_lastTimestamp None))
      (fun e => throw e).

(** *** The frame loop *)

Definition num_sub : number -> number -> number := SFsub prec emax.
Definition num_div : number -> number -> number := SFdiv prec emax.

(** [Math.min(a, b)]: NaN when either is NaN, and [-0] below [+0] *)
Definition math_min (a b : number) : number :=
  if is_nan a || is_nan b then S754_nan
  else if num_ltb a b then a
  else if num_ltb b a then b
  else match a with S754_zero true => a | _ => b end.

(** [Math.max(a, b)]: NaN when either is NaN, and [+0] above [-0] *)
Definition math_max (a b : number) : number :=
  if is_nan a || is_nan b then S754_nan
  else if num_ltb b a then a
  else if num_ltb a b then b
  else match a with S754_zero false => a | _ => b end.

(** The literals [0.1], [0.01], [0.5] and [1.2]: the doubles closest to the
    decimal fractions, which the correctly rounded quotients are. *)
Definition num_tenth : number := num_div num_one (num_of_Z 10).
Definition num_hundredth : number := num_div num_one (num_of_Z 100).
Definition num_half : number := num_div num_one (num_of_Z 2).
Definition num_six_fifths : number := num_div (num_of_Z 6) (num_of_Z 5).

(** [Math.round] and [Number.prototype.toFixed(2)] only feed the two counters
    of the page. *)
Variable math_round : number -> number.
Variable to_fixed2 : number -> string.

(** The counters of the page: the text of [#fpsCounter] and of
    [#timeDisplay], [None] for an element the page does not have. *)
Record Hud := {
  fpsCounter : option string;
  timeDisplay : option string
}.

(** [Math.min(deltaMs / 1000, 0.1)], with [lastTimestamp] read after the
    first frame has stored its own timestamp there *)
Definition frame_delta (timestamp : number) (r : Renderer) : number :=
  let last := match lastTimestamp r with
              | None => timestamp
              | Some t => t
              end in
  math_min (num_div (num_sub timestamp last) (num_of_Z 1000)) num_tenth.

(** The counters after a frame that got as far as drawing *)
Definition show_counters (delta : number) (r : Renderer) (hud : Hud) : Hud :=
  {| fpsCounter :=
       match fpsCounter hud with
       | Some old =>
           Some (if num_ltb num_zero delta
                 then number_to_string (math_round (num_div num_one delta))
                 else old)
       | None => None
       end;
     timeDisplay :=
       match timeDisplay hud with
       | Some _ => Some (to_fixed2 (currentTime r) ++ "s")%string
       | None => None
       end |}.

(** The callback [animate(timestamp)] of setupAnimation: one frame.  An
    exception of updateAnimations leaves the callback before anything is
    drawn or counted. *)
Definition animate (timestamp : number) : M (Renderer * Hud) unit :=
  fun s =>
    let r := fst s in
    let delta := frame_delta timestamp r in
    let r1 := set_lastTimestamp (Some timestamp) r in
    if isPlaying r1 then
      match updateAnimations delta
              (set_currentTime (num_add (currentTime r1) delta) r1) with
      | (Ok _, r2) => (Ok tt, (r2, show_counters delta r2 (snd s)))
      | (Throw e, r2) => (Throw e, (r2, snd s))
      end
    else (Ok tt, (r1, show_counters delta r1 (snd s))).

(** *** The orbit controls *)

(** [Math.sin] and [Math.cos] place the camera on its sphere. *)
Variable math_sin : number -> number.
Variable math_cos : number -> number.

(** [Math.PI] *)
Definition math_pi : number := binary_normalize prec emax 7074237752028440 (-51) false.

Record Spherical := {
  radius : number;
  theta : number;
  phi : number
}.

(** The fields initControls adds to the renderer: [cameraTarget],
    [cameraSpherical], [_isDragging], [_dragStart] and [_sphericalStart]. *)
Record Controls := {
  cameraTarget : number * number * number;
  cameraSpherical : Spherical;
  isDragging : bool;
  dragStart : number * number;
  sphericalStart : Spherical
}.

Definition set_cameraSpherical (s : Spherical) (c : Controls) : Controls :=
  {| cameraTarget := cameraTarget c; cameraSpherical := s;
     isDragging := isDragging c; dragStart := dragStart c;
     sphericalStart := sphericalStart c |}.

(** updateCameraFromSpherical() *)
Definition updateCameraFromSpherical (c : Controls) (r : Renderer) : Renderer :=
  let s := cameraSpherical c in
  let sinPhi := math_sin (phi s) in
  let x := num_mul (num_mul (radius s) sinPhi) (math_sin (theta s)) in
  let y := num_mul (radius s) (math_cos (phi s)) in
  let z := num_mul (num_mul (radius s) sinPhi) (math_cos (theta s)) in
  let '(tx, ty, tz) := cameraTarget c in
  set_cameraPosition (num_add tx x, num_add ty y, num_add tz z) r.

(** A pointer event: [clientX] and [clientY] *)
Record PointerEvent := {
  clientX : number;
  clientY : number
}.

(** The [pointerdown] listener.  Capturing the pointer changes no field. *)
Definition on_pointerdown (e : PointerEvent) (c : Controls) : Controls :=
  {| cameraTarget := cameraTarget c; cameraSpherical := cameraSpherical c;
     isDragging := true; dragStart := (clientX e, clientY e);
     sphericalStart := cameraSpherical c |}.

(** The [pointermove] listener, on a canvas of the given client size *)
Definition on_pointermove (clientWidth clientHeight : number) (e : PointerEvent)
    (s : Controls * Renderer) : Controls * Renderer :=
  let c := fst s in
  if negb (isDragging c) then s
  else
    let dx := num_div (num_sub (clientX e) (fst (dragStart c)))
                      (math_max num_one clientWidth) in
    let dy := num_div (num_sub (clientY e) (snd (dragStart c)))
                      (math_max num_one clientHeight) in
    let ROTATE_SPEED := num_mul math_pi num_six_fifths in
    let theta' := num_sub (theta (sphericalStart c)) (num_mul dx ROTATE_SPEED) in
    let phi' := num_sub (phi (sphericalStart c)) (num_mul dy ROTATE_SPEED) in
    let EPS := num_hundredth in
    let c' := set_cameraSpherical
                {| radius := radius (cameraSpherical c); theta := theta';
                   phi := math_max EPS (math_min (num_sub math_pi EPS) phi') |} c in
    (c', updateCameraFromSpherical c' (snd s)).

(** The [pointerup] and [pointercancel] listener; a failure to release the
    pointer is swallowed. *)
Definition endDrag (c : Controls) : Controls :=
  {| cameraTarget := cameraTarget c; cameraSpherical := cameraSpherical c;
     isDragging := false; dragStart := dragStart c;
     sphericalStart := sphericalStart c |}.

(** The [wheel] listener, for an event with the given [deltaY] *)
Definition on_wheel (deltaY : number) (s : Controls * Renderer) : Controls * Renderer :=
  let c := fst s in
  let delta := num_mul deltaY num_hundredth in
  let grown := num_mul (radius (cameraSpherical c)) (num_add num_one delta) in
  let c' := set_cameraSpherical
              {| radius := math_max num_half (math_min (num_of_Z 200) grown);
                 theta := theta (cameraSpherical c);
                 phi := phi (cameraSpherical c) |} c in
  (c', updateCameraFromSpherical c' (snd s)).

(** ** state.js: AppState *)

Record AppState := {
  currentScene : JsVal;
  app_isPlaying : bool;
  app_currentTime : number
}.

(** setScene(sceneData) *)
Definition setScene (sceneData : JsVal) (st : AppState) : AppState :=
  {| currentScene := sceneData; app_isPlaying := app_isPlaying st;
     app_currentTime := num_zero |}.

(** getCurrentScene() *)
Definition getCurrentScene (st : AppState) : JsVal := currentScene st.

(** togglePlayback() *)
Definition togglePlayback (st : AppState) : bool * AppState :=
  (negb (app_isPlaying st),
   {| currentScene := currentScene st; app_isPlaying := negb (app_isPlaying st);
      app_currentTime := app_currentTime st |}).

(** reset() *)
Definition AppState_reset (st : AppState) : AppState :=
  {| currentScene := currentScene st; app_isPlaying := true;
     app_currentTime := num_zero |}.

(** ** app.js: App *)

(** A [fetch] call: address, method, content type and the value handed to
    [JSON.stringify] for the body. *)
Record Request := {
  url : string;
  method : string;
  content_type : string;
  body : JsVal
}.

(** What the play button shows: the pause caption or the play caption *)
Inductive Caption := PauseCaption | PlayCaption.

(** The application object together with the parts of the page it writes:
    the text area, the status line, the loading overlay and the two buttons.
    [requests] lists the fetches issued so far, oldest first. *)
Record App := {
  dslInput : string;
  statusText : string;
  statusType : string;
  loadingHidden : bool;
  playDisabled : bool;
  resetDisabled : bool;
  playLabel : Caption;
  requests : list Request;
  renderer : Renderer;
  state : AppState
}.

Definition set_status (text type : string) (a : App) : App :=
  {| dslInput := dslInput a; statusText := text; statusType := type;
     loadingHidden := loadingHidden a; playDisabled := playDisabled a;
     resetDisabled := resetDisabled a; playLabel := playLabel a;
     requests := requests a; renderer := renderer a; state := state a |}.

Definition set_loadingHidden (v : bool) (a : App) : App :=
  {| dslInput := dslInput a; statusText := statusText a; statusType := statusType a;
     loadingHidden := v; playDisabled := playDisabled a;
     resetDisabled := resetDisabled a; playLabel := playLabel a;
     requests := requests a; renderer := renderer a; state := state a |}.

Definition set_controls (play reset_ : bool) (label : Caption) (a : App) : App :=
  {| dslInput := dslInput a; statusText := statusText a; statusType := statusType a;
     loadingHidden := loadingHidden a; playDisabled := play;
     resetDisabled := reset_; playLabel := label;
     requests := requests a; renderer := renderer a; state := state a |}.

Definition set_requests (v : list Request) (a : App) : App :=
  {| dslInput := dslInput a; statusText := statusText a; statusType := statusType a;
     loadingHidden := loadingHidden a; playDisabled := playDisabled a;
     resetDisabled := resetDisabled a; playLabel := playLabel a;
     requests := v; renderer := renderer a; state := state a |}.

Definition set_renderer (v : Renderer) (a : App) : App :=
  {| dslInput := dslInput a; statusText := statusText a; statusType := statusType a;
     loadingHidden := loadingHidden a; playDisabled := playDisabled a;
     resetDisabled := resetDisabled a; playLabel := playLabel a;
     requests := requests a; renderer := v; state := state a |}.

Definition set_state (v : AppState) (a : App) : App :=
  {| dslInput := dslInput a; statusText := statusText a; statusType := statusType a;
     loadingHidden := loadingHidden a; playDisabled := playDisabled a;
     resetDisabled := resetDisabled a; playLabel := playLabel a;
     requests := requests a; renderer := renderer a; state := v |}.

(** What the server answers to a request: the value of the awaited
    [response.json()], or the error with which [fetch] or [json()] rejects. *)
Variable server : Request -> Res JsVal.

(** A call on [this.renderer] *)
Definition on_renderer {A : Type} (c : M Renderer A) : M App A :=
  fun a => let (res, r') := c (renderer a) in (res, set_renderer r' a).

(** [await fetch(url, {...})] followed by [await response.json()] *)
Definition fetch_json (req : Request) : M App JsVal :=
  fun a => (server req, set_requests (requests a ++ [req]) a).

(** updateStatus(text, type) *)
Definition updateStatus (text type : string) : M App unit :=
  modify (set_status text type).

(** showLoading(show): the overlay is hidden when [show] is false *)
Definition showLoading (show : bool) : M App unit :=
  modify (set_loadingHidden (negb show)).

(** enableControls(enable) *)
Definition enableControls (enable : bool) : M App unit :=
  modify (fun a =>
    set_controls (negb enable) (negb enable)
      (if enable
       then (if app_isPlaying (state a) then PauseCaption else PlayCaption)
       else PauseCaption) a).

(** [String.prototype.trim].  Which code units count as white space is fixed
    by the language (the ASCII ones, the no-break space, the byte order mark,
    the line and paragraph separators and the Unicode space separators); the
    viewer only ever asks whether the trimmed text is empty and passes it on,
    so every definition and theorem below is stated for the function as the
    engine provides it. *)
Variable trim : string -> string.

(** [v.join(sep)], where [callee] is the text of the receiver expression,
    which the engine names in its message *)
Definition js_join (callee : string) (v : JsVal) (sep : string) : Res string :=
  match v with
  | JArr items =>
      parts <~ res_map (fun x => if is_nullish x then Ok "" else to_string x) items ;;
      Ok (join_strings sep parts)
  | JUndefined | JNull => x <~ js_get v "join" ;; Ok ""
  | _ => Throw (TypeError (callee ++ ".join is not a function"))
  end.

Definition validate_request (dslSource : string) : Request :=
  {| url := "/api/compile/validate"; method := "POST";
     content_type := "application/json";
     body := JObj [("dsl_source", JStr dslSource)] |}.

Definition compile_request (dslSource : string) : Request :=
  {| url := "/api/compile/"; method := "POST";
     content_type := "application/json";
     body := JObj [("dsl_source", JStr dslSource); ("optimize", JBool true)] |}.

(** [Array.isArray(e) ? e.length : Object.keys(e || {}).length] *)
Definition entity_count (entities : JsVal) : nat :=
  match entities with
  | JArr items => List.length items
  | _ => List.length (object_values (js_or entities (JObj [])))
  end.

(** The branch of handleCompile taken on a successful compile response *)
Definition show_scene (ir_scene : JsVal) : M App unit :=
  on_renderer (loadScene ir_scene) ;;;
  modify (fun a => set_state (setScene ir_scene (state a)) a) ;;;
  a <- get_state ;;
  on_renderer (setPlaying (JBool (app_isPlaying (state a)))) ;;;
  enableControls true ;;;
  entities <- lift (js_get ir_scene "entities") ;;
  updateStatus
    ("Scene loaded: " ++ number_to_string (num_of_nat (entity_count entities)) ++ " objects")
    "success".

(** The branch taken otherwise *)
Definition show_failure (compileResult : JsVal) : M App unit :=
  errs <- lift (js_get compileResult "errors") ;;
  joined <- lift (if is_nullish errs then Ok JUndefined
                  else s <~ js_join "compileResult.errors?" errs "; " ;; Ok (JStr s)) ;;
  errors <- lift (to_string (js_or joined (JStr "Unknown error"))) ;;
  updateStatus ("Compilation failed: " ++ errors) "error".

(** handleCompile().  One run, from the click to the end of the [finally];
    what other handlers do while the run waits for a response is not part of
    it. *)
Definition handleCompile : M App unit :=
  a <- get_state ;;
  let dslSource := trim (dslInput a) in
  if dslSource =? "" then updateStatus "Please enter DSL code" "error"
  else
    updateStatus "Compiling..." "loading" ;;;
    showLoading true ;;;
    try_finally
      (try_catch
         (validateResult <- fetch_json (validate_request dslSource) ;;
          valid <- lift (js_get validateResult "valid") ;;
          if negb (truthy valid) then
            errs <- lift (js_get validateResult "errors") ;;
            errors <- lift (js_join "validateResult.errors" errs "; ") ;;
            updateStatus ("Validation failed: " ++ errors) "error" ;;;
            showLoading false
          else
            compileResult <- fetch_json (compile_request dslSource) ;;
            success <- lift (js_get compileResult "success") ;;
            ir_scene <- lift (if truthy success then js_get compileResult "ir_scene"
                              else Ok success) ;;
            if truthy success && truthy ir_scene
            then show_scene ir_scene
            else show_failure compileResult)
         (fun error => updateStatus ("Error: " ++ message error) "error"))
      (set_loadingHidden true).

(** togglePlayback() of the application *)
Definition App_togglePlayback : M App unit :=
  a <- get_state ;;
  let toggled := togglePlayback (state a) in
  modify (set_state (snd toggled)) ;;;
  modify (fun a' =>
    set_controls (playDisabled a') (resetDisabled a')
      (if fst toggled then PauseCaption else PlayCaption) a') ;;;
  on_renderer (setPlaying (JBool (fst toggled))).

(** resetScene() *)
Definition resetScene : M App unit :=
  on_renderer reset ;;;
  modify (fun a => set_state (AppState_reset (state a)) a) ;;;
  enableControls false ;;;
  updateStatus "Scene reset" "success".

(** A [fetch(url)] with no options *)
Definition get_request (address : string) : Request :=
  {| url := address; method := "GET"; content_type := ""; body := JUndefined |}.

(** What the server holds at [/scene.dsl]: the error with which [fetch]
    rejects, or the response's [ok] flag together with the outcome of its
    [text()]. *)
Variable scene_file : Res (bool * Res string).

Definition set_dslInput (v : string) (a : App) : App :=
  {| dslInput := v; statusText := statusText a; statusType := statusType a;
     loadingHidden := loadingHidden a; playDisabled := playDisabled a;
     resetDisabled := resetDisabled a; playLabel := playLabel a;
     requests := requests a; renderer := renderer a; state := state a |}.

(** prefillSample().  The editor is looked at when the text has arrived. *)
Definition prefillSample : M App unit :=
  try_catch
    (modify (fun a => set_requests (requests a ++ [get_request "/scene.dsl"]) a) ;;;
     res <- lift scene_file ;;
     if negb (fst res) then ret tt
     else
       text <- lift (snd res) ;;
       a <- get_state ;;
       if trim (dslInput a) =? "" then modify (set_dslInput text) else ret tt)
    (fun _ => ret tt).

(** ** The chat page: chat.js, compiler-bridge.js and the application that
    drives them, the renderer and the state *)

(** [new Date().toLocaleTimeString()] at the k-th message *)
Variable time_text : nat -> string.

(** What addMessage puts into the chat container: the role in the class of
    the message, the text shown, the text of the code block when there is one,
    and the time shown. *)
Record Message := {
  msg_role : string;
  msg_content : string;
  msg_dsl : option string;
  msg_time : string
}.

(** [readyState] of a WebSocket; the browser moves it. *)
Inductive ReadyState := CONNECTING | OPEN | CLOSING | CLOSED.

(** The keys of the [colors] table of updateStatus; every call names one. *)
Inductive StatusKind := StatusSuccess | StatusError | StatusLoading | StatusInfo.

Definition status_color (k : StatusKind) : string :=
  match k with
  | StatusSuccess => "var(--success)"
  | StatusError => "var(--error)"
  | StatusLoading => "var(--primary)"
  | StatusInfo => "var(--text-dim)"
  end.

(** The chat application, its bridge and the parts of the page it writes.
    [ws] is the [readyState] of the bridge's socket, [None] until connect has
    made one.  The application registers one kind of message handler and one
    kind of error handler; [messageHandlers] and [errorHandlers] count how
    many of each the bridge holds.  [awaiting] says that connectWebSocket
    still waits for the promise of connect, and [reconnects] counts the
    sockets made since the one that promise belongs to.  [sent] lists the
    values handed to [JSON.stringify] and sent, oldest first. *)
Record ChatApp := {
  userInput : string;
  messages : list Message;
  clockReads : nat;
  chat_status : string;
  chat_statusColor : string;
  chat_loadingHidden : bool;
  chat_playDisabled : bool;
  chat_resetDisabled : bool;
  ws : option ReadyState;
  messageHandlers : nat;
  errorHandlers : nat;
  awaiting : bool;
  reconnects : nat;
  sent : list JsVal;
  chat_renderer : Renderer;
  chat_state : AppState
}.

Definition set_userInput (v : string) (a : ChatApp) : ChatApp :=
  {| userInput := v; messages := messages a; clockReads := clockReads a;
     chat_status := chat_status a; chat_statusColor := chat_statusColor a;
     chat_loadingHidden := chat_loadingHidden a;
     chat_playDisabled := chat_playDisabled a;
     chat_resetDisabled := chat_resetDisabled a; ws := ws a;
     messageHandlers := messageHandlers a;
     errorHandlers := errorHandlers a; awaiting := awaiting a;
     reconnects := reconnects a; sent := sent a;
     chat_renderer := chat_renderer a; chat_state := chat_state a |}.

Definition push_message (m : Message) (a : ChatApp) : ChatApp :=
  {| userInput := userInput a; messages := messages a ++ [m];
     clockReads := S (clockReads a); chat_status := chat_status a;
     chat_statusColor := chat_statusColor a;
     chat_loadingHidden := chat_loadingHidden a;
     chat_playDisabled := chat_playDisabled a;
     chat_resetDisabled := chat_resetDisabled a; ws := ws a;
     messageHandlers := messageHandlers a;
     errorHandlers := errorHandlers a; awaiting := awaiting a;
     reconnects := reconnects a; sent := sent a;
     chat_renderer := chat_renderer a; chat_state := chat_state a |}.

Definition set_chat_status (text : string) (k : StatusKind) (a : ChatApp) : ChatApp :=
  {| userInput := userInput a; messages := messages a;
     clockReads := clockReads a; chat_status := text;
     chat_statusColor := status_color k;
     chat_loadingHidden := chat_loadingHidden a;
     chat_playDisabled := chat_playDisabled a;
     chat_resetDisabled := chat_resetDisabled a; ws := ws a;
     messageHandlers := messageHandlers a;
     errorHandlers := errorHandlers a; awaiting := awaiting a;
     reconnects := reconnects a; sent := sent a;
     chat_renderer := chat_renderer a; chat_state := chat_state a |}.

Definition set_chat_loadingHidden (v : bool) (a : ChatApp) : ChatApp :=
  {| userInput := userInput a; messages := messages a;
     clockReads := clockReads a; chat_status := chat_status a;
     chat_statusColor := chat_statusColor a; chat_loadingHidden := v;
     chat_playDisabled := chat_playDisabled a;
     chat_resetDisabled := chat_resetDisabled a; ws := ws a;
     messageHandlers := messageHandlers a;
     errorHandlers := errorHandlers a; awaiting := awaiting a;
     reconnects := reconnects a; sent := sent a;
     chat_renderer := chat_renderer a; chat_state := chat_state a |}.

Definition set_chat_controls (disabled : bool) (a : ChatApp) : ChatApp :=
  {| userInput := userInput a; messages := messages a;
     clockReads := clockReads a; chat_status := chat_status a;
     chat_statusColor := chat_statusColor a;
     chat_loadingHidden := chat_loadingHidden a;
     chat_playDisabled := disabled; chat_resetDisabled := disabled;
     ws := ws a; messageHandlers := messageHandlers a;
     errorHandlers := errorHandlers a; awaiting := awaiting a;
     reconnects := reconnects a; sent := sent a;
     chat_renderer := chat_renderer a; chat_state := chat_state a |}.

Definition set_ws (v : option ReadyState) (a : ChatApp) : ChatApp :=
  {| userInput := userInput a; messages := messages a;
     clockReads := clockReads a; chat_status := chat_status a;
     chat_statusColor := chat_statusColor a;
     chat_loadingHidden := chat_loadingHidden a;
     chat_playDisabled := chat_playDisabled a;
     chat_resetDisabled := chat_resetDisabled a; ws := v;
     messageHandlers := messageHandlers a;
     errorHandlers := errorHandlers a; awaiting := awaiting a;
     reconnects := reconnects a; sent := sent a;
     chat_renderer := chat_renderer a; chat_state := chat_state a |}.

Definition add_handlers  (a : ChatApp) : ChatApp :=
  {| userInput := userInput a; messages := messages a;
     clockReads := clockReads a; chat_status := chat_status a;
     chat_statusColor := chat_statusColor a;
     chat_loadingHidden := chat_loadingHidden a;
     chat_playDisabled := chat_playDisabled a;
     chat_resetDisabled := chat_resetDisabled a; ws := ws a;
     messageHandlers := S (messageHandlers a);
     errorHandlers := S (errorHandlers a); awaiting := awaiting a;
     reconnects := reconnects a; sent := sent a;
     chat_renderer := chat_renderer a; chat_state := chat_state a |}.

Definition set_awaiting (v : bool) (a : ChatApp) : ChatApp :=
  {| userInput := userInput a; messages := messages a;
     clockReads := clockReads a; chat_status := chat_status a;
     chat_statusColor := chat_statusColor a;
     chat_loadingHidden := chat_loadingHidden a;
     chat_playDisabled := chat_playDisabled a;
     chat_resetDisabled := chat_resetDisabled a; ws := ws a;
     messageHandlers := messageHandlers a;
     errorHandlers := errorHandlers a; awaiting := v;
     reconnects := reconnects a; sent := sent a;
     chat_renderer := chat_renderer a; chat_state := chat_state a |}.

Definition set_reconnects (v : nat) (a : ChatApp) : ChatApp :=
  {| userInput := userInput a; messages := messages a;
     clockReads := clockReads a; chat_status := chat_status a;
     chat_statusColor := chat_statusColor a;
     chat_loadingHidden := chat_loadingHidden a;
     chat_playDisabled := chat_playDisabled a;
     chat_resetDisabled := chat_resetDisabled a; ws := ws a;
     messageHandlers := messageHandlers a;
     errorHandlers := errorHandlers a; awaiting := awaiting a;
     reconnects := v; sent := sent a; chat_renderer := chat_renderer a;
     chat_state := chat_state a |}.

Definition set_sent (v : list JsVal) (a : ChatApp) : ChatApp :=
  {| userInput := userInput a; messages := messages a;
     clockReads := clockReads a; chat_status := chat_status a;
     chat_statusColor := chat_statusColor a;
     chat_loadingHidden := chat_loadingHidden a;
     chat_playDisabled := chat_playDisabled a;
     chat_resetDisabled := chat_resetDisabled a; ws := ws a;
     messageHandlers := messageHandlers a;
     errorHandlers := errorHandlers a; awaiting := awaiting a;
     reconnects := reconnects a; sent := v;
     chat_renderer := chat_renderer a; chat_state := chat_state a |}.

Definition set_chat_renderer (v : Renderer) (a : ChatApp) : ChatApp :=
  {| userInput := userInput a; messages := messages a;
     clockReads := clockReads a; chat_status := chat_status a;
     chat_statusColor := chat_statusColor a;
     chat_loadingHidden := chat_loadingHidden a;
     chat_playDisabled := chat_playDisabled a;
     chat_resetDisabled := chat_resetDisabled a; ws := ws a;
     messageHandlers := messageHandlers a;
     errorHandlers := errorHandlers a; awaiting := awaiting a;
     reconnects := reconnects a; sent := sent a; chat_renderer := v;
     chat_state := chat_state a |}.

Definition set_chat_state (v : AppState) (a : ChatApp) : ChatApp :=
  {| userInput := userInput a; messages := messages a;
     clockReads := clockReads a; chat_status := chat_status a;
     chat_statusColor := chat_statusColor a;
     chat_loadingHidden := chat_loadingHidden a;
     chat_playDisabled := chat_playDisabled a;
     chat_resetDisabled := chat_resetDisabled a; ws := ws a;
     messageHandlers := messageHandlers a;
     errorHandlers := errorHandlers a; awaiting := awaiting a;
     reconnects := reconnects a; sent := sent a;
     chat_renderer := chat_renderer a; chat_state := v |}.

(** [element.textContent = v]: [null] and [undefined] give the empty text,
    any other value is converted to a string, which can throw. *)
Definition text_content (v : JsVal) : Res string :=
  if is_nullish v then Ok "" else to_string v.

(** ChatInterface.addMessage(role, content, dsl = null).  The content is
    converted first; the code block is made for a truthy [dsl] only, by
    createCodeBlock, which converts [dsl]; the message enters the container
    last, so a failed conversion leaves the chat as it was. *)
Definition addMessage (role : string) (content dsl : JsVal) : M ChatApp unit :=
  shown <- lift (text_content content) ;;
  code <- lift (if truthy dsl then s <~ text_content dsl ;; Ok (Some s) else Ok None) ;;
  modify (fun a =>
    push_message {| msg_role := role; msg_content := shown; msg_dsl := code;
                    msg_time := time_text (clockReads a) |} a).

(** CompilerBridge.sendMessage(data).  The error thrown is a plain [Error]. *)
Definition sendMessage (data : JsVal) : M ChatApp unit :=
  fun a =>
    match ws a with
    | Some OPEN => (Ok tt, set_sent (sent a ++ [data]) a)
    | _ => (Throw (RequestError "WebSocket not connected"), a)
    end.

(** handleUserInput() *)
Definition handleUserInput : M ChatApp unit :=
  a <- get_state ;;
  let message_ := trim (userInput a) in
  if message_ =? "" then ret tt
  else
    modify (set_userInput "") ;;;
    addMessage "user" (JStr message_) JUndefined ;;;
    modify (set_chat_status "Processing..." StatusLoading) ;;;
    try_catch
      (a' <- get_state ;;
       sendMessage (JObj [ ("message", JStr message_);
                           ("scene_context", getCurrentScene (chat_state a')) ]))
      (fun error =>
         addMessage "error" (JStr ("Failed to send message: " ++ message error))
                    JUndefined ;;;
         modify (set_chat_status "Error" StatusError)).

(** The [scene_update] case of handleServerMessage: the call of loadScene
    with the callbacks of its [then] and its [catch].  The application
    imports its renderer from renderer.js, the ThreeRenderer above. *)
Definition show_update (ir_scene : JsVal) : M ChatApp unit :=
  fun a =>
    match loadScene ir_scene (chat_renderer a) with
    | (Ok _, r') =>
        (Ok tt,
         set_chat_status "Scene loaded" StatusSuccess
           (set_chat_loadingHidden true
              (set_chat_controls false
                 (set_chat_state (setScene ir_scene (chat_state a))
                    (set_chat_renderer r' a)))))
    | (Throw _, r') =>
        (Ok tt,
         set_chat_status "Scene load failed" StatusError
           (set_chat_loadingHidden true (set_chat_renderer r' a)))
    end.

(** handleServerMessage(data) *)
Definition handleServerMessage (data : JsVal) : M ChatApp unit :=
  type <- lift (js_get data "type") ;;
  if strict_eq type (JStr "response") then
    content <- lift (js_get data "content") ;;
    dsl <- lift (js_get data "dsl") ;;
    addMessage "assistant" content dsl ;;;
    modify (set_chat_status "Ready" StatusSuccess)
  else if strict_eq type (JStr "scene_update") then
    modify (set_chat_loadingHidden false) ;;;
    ir_scene <- lift (js_get data "ir_scene") ;;
    show_update ir_scene
  else if strict_eq type (JStr "error") then
    msg <- lift (js_get data "message") ;;
    addMessage "error" msg JUndefined ;;;
    modify (set_chat_status "Error" StatusError)
  else ret tt.

(** connectWebSocket(), as far as its [await]: connect makes the socket and
    returns the promise the application waits for. *)
Definition connectWebSocket : M ChatApp unit :=
  modify (fun a => set_awaiting true (set_reconnects 0 (set_ws (Some CONNECTING) a))).

(** Does connectWebSocket wait for the socket that is the bridge's now? *)
Definition awaited (a : ChatApp) : bool := awaiting a && (reconnects a =? 0)%nat.

(** [ws.onopen]: the promise is resolved, and connectWebSocket, when it is
    this promise it waits for, reports and registers its two handlers. *)
Definition ws_onopen : M ChatApp unit :=
  a <- get_state ;;
  if awaited a then
    modify (set_awaiting false) ;;;
    modify (set_chat_status "Connected" StatusSuccess) ;;;
    modify add_handlers
  else ret tt.

(** [ws.onerror]: every error handler runs, then the promise is rejected,
    which connectWebSocket, when it waits for it, catches. *)
Definition ws_onerror : M ChatApp unit :=
  a <- get_state ;;
  forEach (seq 0 (errorHandlers a))
    (fun _ => modify (set_chat_status "Connection error" StatusError)) ;;;
  if awaited a then
    modify (set_awaiting false) ;;;
    modify (set_chat_status "Failed to connect" StatusError)
  else ret tt.

(** [ws.onmessage] for a frame on which [JSON.parse] gives [parsed]: every
    message handler runs, and whatever is thrown is logged and dropped. *)
Definition ws_onmessage (parsed : Res JsVal) : M ChatApp unit :=
  try_catch
    (data <- lift parsed ;;
     a <- get_state ;;
     forEach (seq 0 (messageHandlers a)) (fun _ => handleServerMessage data))
    (fun _ => ret tt).

(** The timer that [ws.onclose] sets: connect once more, with a new socket
    and a promise nobody waits for. *)
Definition reconnect : M ChatApp unit :=
  modify (fun a => set_reconnects (S (reconnects a)) (set_ws (Some CONNECTING) a)).

(** What can happen to the bridge's socket: its four callbacks, and the
    browser moving its [readyState]. *)
Inductive SocketEvent :=
| SocketOpens
| SocketFails
| FrameArrives (parsed : Res JsVal)
| ReconnectTimer
| StateBecomes (s : ReadyState).

Definition on_socket (ev : SocketEvent) : M ChatApp unit :=
  match ev with
  | SocketOpens => ws_onopen
  | SocketFails => ws_onerror
  | FrameArrives parsed => ws_onmessage parsed
  | ReconnectTimer => reconnect
  | StateBecomes s =>
      modify (fun a => match ws a with
                       | Some _ => set_ws (Some s) a
                       | None => a
                       end)
  end.

(** ** The page that runs the compiler in the browser (web/app.js) *)

(** [JSON.parse] on a text *)
Variable json_parse : string -> Res JsVal.

(** SameValueZero, the comparison of [Map] keys.  Arrays and objects compare
    by identity, and no two keys taken from snapshots are the same object. *)
Definition same_value_zero (a b : JsVal) : bool :=
  match a, b with
  | JNum x, JNum y => (is_nan x && is_nan y) || num_eqb x y
  | _, _ => strict_eq a b
  end.

(** A mesh of this page: the geometry createMesh chose and what updateScene
    set last.  three.js makes a mesh at the origin, unturned, of scale one
    and visible. *)
Record SnapshotMesh := {
  sm_geometry : Geometry;
  sm_position : Triple;
  sm_quaternion : JsVal * JsVal * JsVal * JsVal;
  sm_scale : Triple;
  sm_visible : JsVal
}.

(** createMesh(geomData) *)
Definition createMesh (geomData : JsVal) : Res SnapshotMesh :=
  type <~ js_get geomData "type" ;;
  geometry <~
    (if strict_eq type (JStr "sphere") then
       radius <~ js_get geomData "radius" ;;
       Ok (SphereGeometry radius 32 32)
     else if strict_eq type (JStr "box") then
       width <~ js_get geomData "width" ;;
       height <~ js_get geomData "height" ;;
       depth <~ js_get geomData "depth" ;;
       Ok (BoxGeometry width height depth)
     else if strict_eq type (JStr "cylinder") then
       radius <~ js_get geomData "radius" ;;
       radius' <~ js_get geomData "radius" ;;
       height <~ js_get geomData "height" ;;
       Ok (CylinderGeometry radius radius' height 32)
     else Ok (BoxGeometry (JNum num_one) (JNum num_one) (JNum num_one))) ;;
  Ok {| sm_geometry := geometry;
        sm_position := (JNum num_zero, JNum num_zero, JNum num_zero);
        sm_quaternion := (JNum num_zero, JNum num_zero, JNum num_zero, JNum num_one);
        sm_scale := (JNum num_one, JNum num_one, JNum num_one);
        sm_visible := JBool true |}.

(** The page: [renderObjects], a [Map] from object ids to meshes in the
    order of insertion, and the texts and the button the functions write.
    [errorLog] is the error shown, [None] when the log is hidden. *)
Record WasmPage := {
  renderObjects : list (JsVal * SnapshotMesh);
  sceneInfo : string;
  wasm_status : string;
  errorLog : option JsError;
  wasm_playDisabled : bool
}.

Definition set_renderObjects (v : list (JsVal * SnapshotMesh)) (p : WasmPage) : WasmPage :=
  {| renderObjects := v; sceneInfo := sceneInfo p; wasm_status := wasm_status p;
     errorLog := errorLog p; wasm_playDisabled := wasm_playDisabled p |}.

Definition set_sceneInfo (v : string) (p : WasmPage) : WasmPage :=
  {| renderObjects := renderObjects p; sceneInfo := v; wasm_status := wasm_status p;
     errorLog := errorLog p; wasm_playDisabled := wasm_playDisabled p |}.

Definition set_wasm_status (v : string) (p : WasmPage) : WasmPage :=
  {| renderObjects := renderObjects p; sceneInfo := sceneInfo p; wasm_status := v;
     errorLog := errorLog p; wasm_playDisabled := wasm_playDisabled p |}.

Definition set_errorLog (v : option JsError) (p : WasmPage) : WasmPage :=
  {| renderObjects := renderObjects p; sceneInfo := sceneInfo p;
     wasm_status := wasm_status p; errorLog := v;
     wasm_playDisabled := wasm_playDisabled p |}.

Definition set_wasm_playDisabled (v : bool) (p : WasmPage) : WasmPage :=
  {| renderObjects := renderObjects p; sceneInfo := sceneInfo p;
     wasm_status := wasm_status p; errorLog := errorLog p;
     wasm_playDisabled := v |}.

(** [renderObjects.get(key)]: the position of the entry *)
Fixpoint map_find (key : JsVal) (l : list (JsVal * SnapshotMesh)) : option nat :=
  match l with
  | [] => None
  | (k, _) :: rest =>
      if same_value_zero k key then Some 0%nat
      else option_map S (map_find key rest)
  end.

Definition on_entry (i : nat) (f : SnapshotMesh -> SnapshotMesh) : M WasmPage unit :=
  modify (fun p =>
    set_renderObjects (update_nth i (fun e => (fst e, f (snd e))) (renderObjects p)) p).

Definition read4 (v : JsVal) : Res (JsVal * JsVal * JsVal * JsVal) :=
  a <~ js_get v "0" ;;
  b <~ js_get v "1" ;;
  c <~ js_get v "2" ;;
  d <~ js_get v "3" ;;
  Ok (a, b, c, d).

(** [JSON.parse(v)], which takes the string of its argument *)
Definition parse_json (v : JsVal) : Res JsVal :=
  text <~ to_string v ;;
  json_parse text.

(** The callback of updateScene's [forEach]: one object of the snapshot *)
Definition update_object (obj : JsVal) : M WasmPage unit :=
  g <- lift (js_get obj "geometry") ;;
  geom <- lift (parse_json g) ;;
  t <- lift (js_get obj "transform") ;;
  transform <- lift (parse_json t) ;;
  id <- lift (js_get obj "id") ;;
  p <- get_state ;;
  i <- (match map_find id (renderObjects p) with
        | Some i => ret i
        | None =>
            mesh <- lift (createMesh geom) ;;
            modify (set_renderObjects (renderObjects p ++ [(id, mesh)])) ;;;
            ret (List.length (renderObjects p))
        end) ;;
  position <- lift (pos <~ js_get transform "position" ;; read3 pos) ;;
  on_entry i (fun m =>
    {| sm_geometry := sm_geometry m; sm_position := position;
       sm_quaternion := sm_quaternion m; sm_scale := sm_scale m;
       sm_visible := sm_visible m |}) ;;;
  quaternion <- lift (rot <~ js_get transform "rotation" ;; read4 rot) ;;
  on_entry i (fun m =>
    {| sm_geometry := sm_geometry m; sm_position := sm_position m;
       sm_quaternion := quaternion; sm_scale := sm_scale m;
       sm_visible := sm_visible m |}) ;;;
  scale <- lift (sc <~ js_get transform "scale" ;; read3 sc) ;;
  on_entry i (fun m =>
    {| sm_geometry := sm_geometry m; sm_position := sm_position m;
       sm_quaternion := sm_quaternion m; sm_scale := scale;
       sm_visible := sm_visible m |}) ;;;
  visible <- lift (js_get obj "visible") ;;
  on_entry i (fun m =>
    {| sm_geometry := sm_geometry m; sm_position := sm_position m;
       sm_quaternion := sm_quaternion m; sm_scale := sm_scale m;
       sm_visible := visible |}).

(** updateScene(), for the outcome [snapshot] of [compiler.get_snapshot()].
    Whatever is thrown is logged and dropped. *)
Definition updateScene (snapshot : Res JsVal) : M WasmPage unit :=
  try_catch
    (snap <- lift snapshot ;;
     objs <- lift (js_get snap "objects") ;;
     len <- lift (js_get objs "length") ;;
     count <- lift (to_string len) ;;
     tick <- lift (js_get snap "tick") ;;
     ticks <- lift (to_string tick) ;;
     modify (set_sceneInfo ("Objects: " ++ count ++ " | Tick: " ++ ticks)) ;;;
     items <- lift (forEach_items "snapshot.objects" objs) ;;
     forEach items update_object)
    (fun _ => ret tt).

(** clearScene() of this page *)
Definition wasm_clearScene : M WasmPage unit :=
  modify (set_renderObjects []).

(** compileAndRender(), for the outcome [compiled] of [compiler.compile] on
    the editor text and the snapshot the compiler then gives *)
Definition compileAndRender (compiled snapshot : Res JsVal) : M WasmPage unit :=
  try_catch
    (modify (set_errorLog None) ;;;
     wasm_clearScene ;;;
     modify (set_wasm_status "Compiling...") ;;;
     result <- lift compiled ;;
     modify (set_wasm_status "Compiled successfully! Rendering...") ;;;
     updateScene snapshot ;;;
     modify (set_wasm_playDisabled false) ;;;
     modify (set_wasm_status "Ready - Scene loaded"))
    (fun error =>
       modify (set_errorLog (Some error)) ;;;
       modify (set_wasm_status "Compilation failed")).

(** ** The IR the viewer is served *)

(** Modelled from the spec: the JSON IR shape of its section 6 (motions and
    timelines), which the lowering pass emits; that pass is not among the
    sources.  [json_of_*] give the parsed form of each node. *)
Inductive IrValue :=
| IrNumber (x : number)
| IrString (s : string)
| IrVector3 (x y z : number)
| IrBoolean (b : bool)
| IrIdentifier (s : string).

Record IrMotion := {
  m_id : string;
  m_motion_type : string;
  m_target_entity : string;
  m_parameters : list (string * IrValue)
}.

Record IrEvent := {
  ev_motion_id : string;
  ev_start_time : number;
  ev_duration : number
}.

Record IrTimeline := {
  tl_id : string;
  tl_events : list IrEvent
}.

Definition json_of_value (v : IrValue) : JsVal :=
  match v with
  | IrNumber x => JObj [("Number", JNum x)]
  | IrString s => JObj [("String", JStr s)]
  | IrVector3 x y z => JObj [("Vector3", JArr [JNum x; JNum y; JNum z])]
  | IrBoolean b => JObj [("Boolean", JBool b)]
  | IrIdentifier s => JObj [("Identifier", JStr s)]
  end.

Definition json_of_motion (m : IrMotion) : JsVal :=
  JObj [ ("id", JStr (m_id m));
         ("motion_type", JStr (m_motion_type m));
         ("target_entity", JStr (m_target_entity m));
         ("parameters",
          JObj (map (fun kv => (fst kv, json_of_value (snd kv))) (m_parameters m))) ].

Definition json_of_event (ev : IrEvent) : JsVal :=
  JObj [ ("motion_id", JStr (ev_motion_id ev));
         ("start_time", JNum (ev_start_time ev));
         ("duration", JNum (ev_duration ev)) ].

Definition json_of_timeline (tl : IrTimeline) : JsVal :=
  JObj [ ("id", JStr (tl_id tl));
         ("events", JArr (map json_of_event (tl_events tl))) ].

(** ** Vocabulary of the properties *)

(** [v?.a?.b?.c], the value found by following a path of property names *)
Definition at_path (v : JsVal) (path : list string) : JsVal :=
  fold_left js_get_opt path v.

(** Property names that mean nothing special on any value: not [length], not
    an index, not a member of [Object.prototype]. *)
Definition plain_key (k : string) : bool :=
  negb (k =? "length") && negb (k =? "__proto__")
  && negb (string_in k object_prototype_functions)
  && match index_of_key k with Some _ => false | None => true end.

(** What extractVector3 accepts: an array, or a wrapper with a usable
    [Vector3] or [Array] member. *)
Definition recognised_vector (v : JsVal) : bool :=
  is_array v || truthy (js_get_opt v "Vector3") || truthy (js_get_opt v "Array").

Definition extracted (v : JsVal) : JsVal :=
  if negb (truthy v) then JNull
  else if is_array v then v
  else if truthy (js_get_opt v "Vector3") then js_get_opt v "Vector3"
  else if truthy (js_get_opt v "Array") then js_get_opt v "Array"
  else JNull.

Definition known_primitive (p : JsVal) : bool :=
  strict_eq p (JStr "cube") || strict_eq p (JStr "sphere")
  || strict_eq p (JStr "cylinder") || strict_eq p (JStr "cone")
  || strict_eq p (JStr "plane").

Definition transform_path (field : string) : list string :=
  ["components"; "transform"; "properties"; field].

Definition primitive_path : list string :=
  ["components"; "geometry"; "properties"; "primitive"].

Definition zero3 : JsVal := vec_literal num_zero num_zero num_zero.

Definition one3 : JsVal := vec_literal num_one num_one num_one.

Definition layout_position (entity : JsVal) : JsVal :=
  js_or (extracted (at_path entity (transform_path "position"))) zero3.

Definition layout_rotation (entity : JsVal) : JsVal :=
  js_or (extracted (at_path entity (transform_path "rotation"))) zero3.

Definition layout_scale (entity : JsVal) : JsVal :=
  js_or (extracted (at_path entity (transform_path "scale"))) one3.

Definition layout_primitive (entity : JsVal) : JsVal :=
  js_or (js_or (js_get_opt (at_path entity primitive_path) "Identifier")
               (at_path entity primitive_path))
        (JStr "cube").

Definition components3 (v : JsVal) : Triple :=
  (js_get_opt v "0", js_get_opt v "1", js_get_opt v "2").

(** The mesh createEntityMesh builds, given the geometry it selected and the
    colour it drew *)
Definition mesh_of (name entity : JsVal) (geom : Geometry) (c : Z) : Mesh :=
  {| mesh_geometry := geom; mesh_color := c;
     mesh_position := components3 (layout_position entity);
     mesh_rotation := components3 (layout_rotation entity);
     mesh_name := name; mesh_userData := entity; mesh_spins := [] |}.

Definition with_mesh (m : Mesh) (r : Renderer) : Renderer :=
  set_objects (objects r ++ [m]) (set_randomCalls (S (randomCalls r)) r).

(** The motion an id denotes in a list of motions: the last one carrying it. *)
Fixpoint find_motion (k : string) (ms : list IrMotion) : option IrMotion :=
  match ms with
  | [] => None
  | m :: rest =>
      match find_motion k rest with
      | Some m' => Some m'
      | None => if m_id m =? k then Some m else None
      end
  end.

(** The table loadMotions fills from IR motions *)
Definition motion_table (ms : list IrMotion) : PlainObject :=
  fold_left (fun o m => object_set o (m_id m) (json_of_motion m)) ms empty_object.

(** [x || 0] for a number [x] *)
Definition or_zero (x : number) : JsVal :=
  if truthy (JNum x) then JNum x else JNum num_zero.

(** What one IR event contributes to [timelineEvents] *)
Definition scheduled (ms : list IrMotion) (ev : IrEvent) : list TimelineEvent :=
  let m := js_or (object_get (motion_table ms) (ev_motion_id ev)) JNull in
  if truthy m
  then [ {| start := or_zero (ev_start_time ev);
            duration := or_zero (ev_duration ev);
            motion := m |} ]
  else [].

(** What the table holds after the motions [pre] have been entered *)
Record table_for (pre : list IrMotion) (o : PlainObject) : Prop := {
  tf_no_own_proto : assoc "__proto__" (own o) = None;
  tf_own : forall k, k <> "__proto__" ->
             assoc k (own o) = option_map json_of_motion (find_motion k pre);
  tf_proto : proto o = match find_motion "__proto__" pre with
                       | Some m => json_of_motion m
                       | None => JBuiltin ObjectPrototype
                       end
}.

(** The closed interval [start, start + duration], in the arithmetic of
    doubles *)
Definition in_closed_interval (s d t : number) : bool :=
  num_leb s t && num_leb t (num_add s d).

(** The entry of [timelineEvents] that runs the motion [m] over the window
    that starts at [s] and lasts [d] *)
Definition rotation_event (m : IrMotion) (s d : number) : TimelineEvent :=
  {| start := JNum s; duration := JNum d; motion := json_of_motion m |}.

(** The renderer with the mesh at position [i] turned once more *)
Definition turn_mesh (i : nat) (sp : Spin) (r : Renderer) : Renderer :=
  set_objects (update_nth i (premultiply sp) (objects r)) r.

(** An id that means nothing on a plain object *)
Definition ordinary_id (k : string) : bool :=
  negb (k =? "__proto__") && negb (string_in k object_prototype_functions).

(** A computation that leaves every state in relation [R] to the state it
    started from, however it ends *)
Definition keeps {S A : Type} (R : S -> S -> Prop) (c : M S A) : Prop :=
  forall s, R s (snd (c s)).

(** [lo <= x <= hi] in the order of doubles *)
Definition within (lo hi x : number) : bool := num_leb lo x && num_leb x hi.

(** A mesh that has been turned some more *)
Definition add_spins (added : list Spin) (o : Mesh) : Mesh :=
  {| mesh_geometry := mesh_geometry o; mesh_color := mesh_color o;
     mesh_position := mesh_position o; mesh_rotation := mesh_rotation o;
     mesh_name := mesh_name o; mesh_userData := mesh_userData o;
     mesh_spins := added ++ mesh_spins o |}.

(** Two renderers that differ at most in how far their meshes are turned *)
Definition only_turned (r r' : Renderer) : Prop :=
  r' = set_objects (objects r') r /\
  Forall2 (fun o o' => exists added, o' = add_spins added o) (objects r) (objects r').

(** The name loadScene gives the mesh of an entity: [entity.id || 'unknown'] *)
Definition entity_name (entity : JsVal) : JsVal :=
  js_or (js_get_opt entity "id") (JStr "unknown").

(** Does the value have a string conversion, so that a template literal can
    show it? *)
Definition loggable (v : JsVal) : bool :=
  match to_string v with Ok _ => true | Throw _ => false end.

(** The entities loadScene gets to: all of them, or those up to and including
    the first whose name createEntityMesh cannot log. *)
Fixpoint reached (es : list JsVal) : list JsVal :=
  match es with
  | [] => []
  | e :: rest => if loggable (entity_name e) then e :: reached rest else [e]
  end.

(** Two renderers with the same playback state: flag, clock and last
    timestamp *)
Definition same_playback (r r' : Renderer) : Prop :=
  isPlaying r' = isPlaying r /\ currentTime r' = currentTime r /\
  lastTimestamp r' = lastTimestamp r.

(** Two renderers with the same meshes *)
Definition same_objects (r r' : Renderer) : Prop := objects r' = objects r.

(** A number that is neither NaN nor infinite *)
Definition is_finite_number (x : number) : bool :=
  match x with
  | S754_zero _ | S754_finite _ _ _ => true
  | _ => false
  end.

(** Does the validate request for [src] come back with a truthy [valid]? *)
Definition validated (src : string) : bool :=
  match server (validate_request src) with
  | Ok resp =>
      match js_get resp "valid" with
      | Ok valid => truthy valid
      | Throw _ => false
      end
  | Throw _ => false
  end.

(** Two pages with the same editor text and the same requests sent *)
Definition same_wire (a a' : App) : Prop :=
  requests a' = requests a /\ dslInput a' = dslInput a.

(** Two pages with the same renderer, application state and buttons *)
Definition same_scene (a a' : App) : Prop :=
  renderer a' = renderer a /\ state a' = state a /\
  playDisabled a' = playDisabled a /\ resetDisabled a' = resetDisabled a /\
  playLabel a' = playLabel a.

(** Two chat pages that agree on what handleServerMessage never touches: the
    input box, what has been sent, the socket and the handlers *)
Definition same_line (a a' : ChatApp) : Prop :=
  userInput a' = userInput a /\ sent a' = sent a /\ ws a' = ws a /\
  messageHandlers a' = messageHandlers a /\ errorHandlers a' = errorHandlers a /\
  awaiting a' = awaiting a /\ reconnects a' = reconnects a.

(** Two chat pages with the same renderer and application state *)
Definition same_stage (a a' : ChatApp) : Prop :=
  chat_renderer a' = chat_renderer a /\ chat_state a' = chat_state a.

(** Two chat pages that show the same: messages, status, overlay, buttons,
    input box, renderer and application state, and have sent the same *)
Definition same_page (a a' : ChatApp) : Prop :=
  userInput a' = userInput a /\ messages a' = messages a /\
  chat_status a' = chat_status a /\ chat_statusColor a' = chat_statusColor a /\
  chat_loadingHidden a' = chat_loadingHidden a /\
  chat_playDisabled a' = chat_playDisabled a /\
  chat_resetDisabled a' = chat_resetDisabled a /\
  sent a' = sent a /\
  chat_renderer a' = chat_renderer a /\ chat_state a' = chat_state a.

(** A bridge without handlers whose first promise has been settled *)
Definition deaf (a : ChatApp) : Prop :=
  awaiting a = false /\ messageHandlers a = 0%nat /\ errorHandlers a = 0%nat.

(** The handlers come in pairs, and there is at most one pair, held only
    once connectWebSocket has stopped waiting *)
Definition paired (a : ChatApp) : Prop :=
  errorHandlers a = messageHandlers a /\
  (messageHandlers a = 0%nat \/ (messageHandlers a = 1%nat /\ awaiting a = false)).

(** A scene as the compile service sends it, with one entity, one motion and
    one timeline of one event *)
Definition small_scene (entity : JsVal) (m : IrMotion) (timeline : string)
    (ev : IrEvent) : JsVal :=
  JObj [ ("entities", JArr [entity]);
         ("motions", JArr (map json_of_motion [m]));
         ("timelines",
          JArr (map json_of_timeline [ {| tl_id := timeline; tl_events := [ev] |} ])) ].

(** [l'] holds the entries of [l], in their places, under their keys and
    with their geometry, and possibly more entries after them *)
Definition pinned (l l' : list (JsVal * SnapshotMesh)) : Prop :=
  exists kept added,
    l' = kept ++ added /\
    Forall2 (fun e e' => fst e' = fst e /\
                         sm_geometry (snd e') = sm_geometry (snd e)) l kept.

(** No key of the map equals the key of a later entry *)
Fixpoint distinct_keys (l : list (JsVal * SnapshotMesh)) : Prop :=
  match l with
  | [] => True
  | e :: rest =>
      Forall (fun e' => same_value_zero (fst e) (fst e') = false) rest /\
      distinct_keys rest
  end.

(** What updateScene keeps of a page *)
Definition pinned_page (p p' : WasmPage) : Prop :=
  pinned (renderObjects p) (renderObjects p') /\
  (distinct_keys (renderObjects p) -> distinct_keys (renderObjects p')) /\
  wasm_status p' = wasm_status p /\ errorLog p' = errorLog p /\
  wasm_playDisabled p' = wasm_playDisabled p.

(** ** Sample inputs *)

(** The runs below convert no number to text and no text to a number, and
    draw the first colour; any functions serve. *)
Definition no_digits : number -> string := fun _ => "".

Definition not_a_number : string -> number := fun _ => S754_nan.

Definition first_colour : nat -> nat := fun _ => 0%nat.

(** [String.prototype.trim] on texts whose code units stay below 256, which
    is where the texts of the runs below live.  The white space and line
    terminators of the language in that range are tab, line feed, vertical
    tab, form feed, carriage return, space and the no-break space. *)
Definition is_space (c : ascii) : bool :=
  let n := nat_of_ascii c in
  ((9 <=? n) && (n <=? 13) || (n =? 32) || (n =? 160))%nat.

Fixpoint trim_start (s : string) : string :=
  match s with
  | EmptyString => EmptyString
  | String c rest => if is_space c then trim_start rest else s
  end.

Definition string_rev (s : string) : string :=
  string_of_list_ascii (rev (list_ascii_of_string s)).

Definition trim_latin1 (s : string) : string :=
  string_rev (trim_start (string_rev (trim_start s))).

(** A text that holds one no-break space and nothing else, and a request
    with no-break spaces around it *)
Definition no_break_space : string := String (ascii_of_nat 160) EmptyString.

Definition padded_request : string :=
  no_break_space ++ "spin the cube" ++ no_break_space.

(** A server whose /scene.dsl is there *)
Definition served_sample : Res (bool * Res string) := Ok (true, Ok "scene { }").

(** A ThreeRenderer as its constructor leaves it *)
Definition new_renderer : Renderer :=
  {| objects := []; motions := JArr []; timelineEvents := [];
     isPlaying := true; currentTime := num_zero; lastTimestamp := None;
     cameraPosition := home_camera; objectCount := 0; randomCalls := 0 |}.

(** An AppState as its constructor leaves it *)
Definition new_state : AppState :=
  {| currentScene := JNull; app_isPlaying := true; app_currentTime := num_zero |}.

(** The page after start-up with [text] in the editor *)
Definition page_with (text : string) : App :=
  {| dslInput := text; statusText := "Compiler Ready"; statusType := "success";
     loadingHidden := true; playDisabled := true; resetDisabled := true;
     playLabel := PauseCaption; requests := [];
     renderer := new_renderer; state := new_state |}.

(** An entity that carries nothing but its id *)
Definition bare_entity : JsVal := JObj [("id", JStr "box")].

(** An entity whose position is written as a bare array, without a tag *)
Definition placed_entity : JsVal :=
  JObj [ ("id", JStr "box");
         ("components",
          JObj [ ("transform",
                  JObj [ ("properties",
                          JObj [ ("position",
                                  JArr [ JNum num_one; JNum (num_of_Z 2);
                                         JNum (num_of_Z 3) ]) ]) ]) ]) ].

(** An entity whose id is an object with a member [toString], which hides
    the method every object inherits *)
Definition unnameable_entity : JsVal :=
  JObj [ ("id", JObj [("toString", JNum num_one)]) ].

(** The motion and the timeline of the shipped scene.dsl, with 1.5 for the
    speed *)
Definition rotate_cube : IrMotion :=
  {| m_id := "rotate_cube"; m_motion_type := "rotation"; m_target_entity := "cube";
     m_parameters :=
       [ ("axis", IrVector3 num_zero num_one num_zero);
         ("speed", IrNumber (binary_normalize prec emax 3 (-1) false)) ] |}.

Definition first_ten_seconds : IrEvent :=
  {| ev_motion_id := "rotate_cube"; ev_start_time := num_zero;
     ev_duration := num_of_Z 10 |}.

Definition main_timeline : IrTimeline :=
  {| tl_id := "main"; tl_events := [first_ten_seconds] |}.

(** A server that finds the source invalid *)
Definition refusing_server (req : Request) : Res JsVal :=
  if url req =? "/api/compile/validate"
  then Ok (JObj [ ("valid", JBool false);
                  ("errors", JArr [ JStr "E101: missing required section";
                                    JStr "E100: unexpected token" ]) ])
  else Throw (RequestError "Failed to fetch").

(** A timeline event naming no motion, only a member of [Object.prototype] *)
Definition stray_event : IrEvent :=
  {| ev_motion_id := "constructor"; ev_start_time := num_zero;
     ev_duration := num_of_Z 10 |}.

(** A rotation that stands still: speed 0, in the tagged form of the IR *)
Definition still_motion : IrMotion :=
  {| m_id := "hold"; m_motion_type := "rotation"; m_target_entity := "cube";
     m_parameters :=
       [ ("axis", IrVector3 num_zero num_one num_zero);
         ("speed", IrNumber num_zero) ] |}.

(** A renderer showing one mesh named [cube] and running [m] from time 0 *)
Definition showing_cube (m : IrMotion) : Renderer :=
  {| objects := [ {| mesh_geometry := BoxGeometry (JNum num_one) (JNum num_one) (JNum num_one);
                     mesh_color := 0xff6b6b; mesh_position := (JNum num_zero, JNum num_zero, JNum num_zero);
                     mesh_rotation := (JNum num_zero, JNum num_zero, JNum num_zero);
                     mesh_name := JStr "cube"; mesh_userData := JObj [("id", JStr "cube")];
                     mesh_spins := [] |} ];
     motions := JArr [json_of_motion m];
     timelineEvents := [ {| start := JNum num_zero; duration := JNum (num_of_Z 10);
                            motion := json_of_motion m |} ];
     isPlaying := true; currentTime := num_one; lastTimestamp := None;
     cameraPosition := home_camera; objectCount := 1; randomCalls := 1 |}.

(** A compile service that accepts every source and answers with the IR of
    the shipped scene.dsl's cube *)
Definition cube_scene : JsVal :=
  JObj [ ("metadata", JObj [ ("name", JStr "Cube Demo") ]);
         ("entities", JArr [ JObj [ ("id", JStr "cube"); ("kind", JStr "solid");
                                    ("components", JObj []) ] ]);
         ("constraints", JArr []);
         ("motions", JArr [json_of_motion rotate_cube]);
         ("timelines", JArr [json_of_timeline main_timeline]) ].

Definition accepting_server (req : Request) : Res JsVal :=
  if url req =? "/api/compile/validate"
  then Ok (JObj [("valid", JBool true); ("errors", JArr [])])
  else Ok (JObj [("success", JBool true); ("ir_scene", cube_scene); ("errors", JNull)]).

(** The cube at time 2, where an event over [0, 2] hands over to an event
    over [2, 3] *)
Definition handing_over : Renderer :=
  {| objects := objects (showing_cube rotate_cube);
     motions := JArr [json_of_motion rotate_cube];
     timelineEvents :=
       [ {| start := JNum num_zero; duration := JNum (num_of_Z 2);
            motion := json_of_motion rotate_cube |};
         {| start := JNum (num_of_Z 2); duration := JNum num_one;
            motion := json_of_motion rotate_cube |} ];
     isPlaying := true; currentTime := num_of_Z 2; lastTimestamp := None;
     cameraPosition := home_camera; objectCount := 1; randomCalls := 1 |}.

(** An event whose motion id is misspelt *)
Definition misspelt_event : IrEvent :=
  {| ev_motion_id := "spiin"; ev_start_time := num_zero;
     ev_duration := num_of_Z 10 |}.

(** A compile service that finds the source valid and then fails to compile
    it *)
Definition failing_server (req : Request) : Res JsVal :=
  if url req =? "/api/compile/validate"
  then Ok (JObj [("valid", JBool true); ("errors", JArr [])])
  else Ok (JObj [ ("success", JBool false); ("ir_scene", JNull);
                  ("errors", JArr [JStr "E301: undefined motion spiin"]) ]).

(** A server that cannot be reached *)
Definition unreachable_server (req : Request) : Res JsVal :=
  Throw (RequestError "Failed to fetch").

(** A clock that always shows noon *)
Definition noon : nat -> string := fun _ => "12:00:00".

(** The chat page once its socket has opened *)
Definition connected_chat : ChatApp :=
  {| userInput := ""; messages := []; clockReads := 0;
     chat_status := "Connected"; chat_statusColor := status_color StatusSuccess;
     chat_loadingHidden := true; chat_playDisabled := true;
     chat_resetDisabled := true;
     ws := Some OPEN; messageHandlers := 1; errorHandlers := 1;
     awaiting := false; reconnects := 0; sent := [];
     chat_renderer := new_renderer; chat_state := new_state |}.

(** A [scene_update] message carrying the cube *)
Definition cube_update : JsVal :=
  JObj [ ("type", JStr "scene_update"); ("ir_scene", cube_scene) ].

(** * Properties *)

(** ** Reading IR values *)

Lemma truthy_not_nullish v : truthy v = true -> is_nullish v = false.
Proof. destruct v; simpl; congruence. Qed.

Lemma js_get_total v k : is_nullish v = false -> js_get v k = Ok (js_get_opt v k).
Proof.
  intros H. unfold js_get_opt.
  destruct (js_get v k) eqn:E; [reflexivity|].
  destruct v; simpl in *; try discriminate.
  - destruct (k =? "length"); [discriminate|]. destruct (index_of_key k); discriminate.
  - destruct (k =? "length"); [discriminate|]. destruct (index_of_key k); discriminate.
  - destruct (assoc k fields); discriminate.
Qed.

Lemma js_get_opt_falsy v k :
  plain_key k = true -> truthy v = false -> js_get_opt v k = JUndefined.
Proof.
  unfold plain_key. intros Hk Hv.
  apply andb_prop in Hk as [Hk Hi]. apply andb_prop in Hk as [Hk Hf].
  apply andb_prop in Hk as [Hl Hp].
  apply negb_true_iff in Hl.
  destruct v; simpl in Hv; try discriminate; try reflexivity.
  unfold js_get_opt; simpl. rewrite Hl.
  destruct (index_of_key k); [discriminate|reflexivity].
Qed.

Lemma js_get_or_empty x k :
  plain_key k = true -> js_get (js_or x (JObj [])) k = Ok (js_get_opt x k).
Proof.
  intros Hk. unfold js_or. destruct (truthy x) eqn:Hx.
  - apply js_get_total, truthy_not_nullish, Hx.
  - rewrite (js_get_opt_falsy _ _ Hk Hx). simpl.
    unfold plain_key in Hk.
    apply andb_prop in Hk as [Hk Hi]. apply andb_prop in Hk as [Hk Hf].
    apply andb_prop in Hk as [Hl Hp].
    apply negb_true_iff in Hp. apply negb_true_iff in Hf.
    unfold object_prototype_get. rewrite Hp, Hf. reflexivity.
Qed.

Lemma js_or_truthy a d : truthy d = true -> truthy (js_or a d) = true.
Proof. intros H. unfold js_or. destruct (truthy a) eqn:E; assumption. Qed.

Lemma extractVector3_extracted v : extractVector3 v = Ok (extracted v).
Proof.
  unfold extractVector3, extracted.
  destruct (truthy v) eqn:Hv; simpl; [|reflexivity].
  destruct (is_array v); [reflexivity|].
  rewrite !(js_get_total v) by (apply truthy_not_nullish, Hv). simpl.
  destruct (truthy (js_get_opt v "Vector3")); [reflexivity|].
  destruct (truthy (js_get_opt v "Array")); reflexivity.
Qed.

Lemma extracted_unrecognised v : recognised_vector v = false -> extracted v = JNull.
Proof.
  unfold recognised_vector, extracted. intros H.
  apply orb_false_iff in H as [H Ha]. apply orb_false_iff in H as [Hi Hv].
  rewrite Hi, Hv, Ha. destruct (truthy v); reflexivity.
Qed.

(** ** createEntityMesh *)

(** The layout in closed form: every read of the chain is an optional read,
    because [(x || {}).k] and [x?.k] agree on the names used here. *)
Lemma entity_layout_closed entity :
  is_nullish entity = false ->
  entity_layout entity =
    Ok (layout_position entity, layout_rotation entity,
        layout_scale entity, layout_primitive entity).
Proof.
  intros H. unfold entity_layout.
  rewrite (js_get_total entity) by assumption. cbn [rbind].
  repeat (first [ rewrite js_get_or_empty by reflexivity
                | rewrite extractVector3_extracted ]; cbn [rbind]).
  reflexivity.
Qed.

Lemma read3_total v : is_nullish v = false -> read3 v = Ok (components3 v).
Proof. intros H. unfold read3. rewrite !js_get_total by assumption. reflexivity. Qed.

Lemma select_geometry_total primitive scale :
  is_nullish scale = false -> exists g, select_geometry primitive scale = Ok g.
Proof.
  intros H. unfold select_geometry.
  rewrite !js_get_total by assumption. cbn [rbind].
  repeat match goal with |- context [if ?b then _ else _] => destruct b end;
    eexists; reflexivity.
Qed.

Lemma select_geometry_unknown primitive scale :
  known_primitive primitive = false ->
  select_geometry primitive scale
    = Ok (BoxGeometry (JNum num_one) (JNum num_one) (JNum num_one)).
Proof.
  unfold known_primitive, select_geometry. intros H.
  repeat (apply orb_false_iff in H as [H ?]).
  repeat match goal with E : strict_eq _ _ = false |- _ => rewrite E; clear E end.
  reflexivity.
Qed.

Lemma select_geometry_cube scale :
  is_nullish scale = false ->
  select_geometry (JStr "cube") scale
    = Ok (BoxGeometry (js_get_opt scale "0") (js_get_opt scale "1") (js_get_opt scale "2")).
Proof.
  intros H. unfold select_geometry. cbn [strict_eq].
  change ("cube" =? "cube") with true. cbv iota.
  rewrite !js_get_total by assumption. reflexivity.
Qed.

Lemma layout_truthy entity :
  truthy (layout_position entity) = true /\
  truthy (layout_rotation entity) = true /\
  truthy (layout_scale entity) = true.
Proof. repeat split; apply js_or_truthy; reflexivity. Qed.

(** createEntityMesh on an entity that is an object, a number, a string, ...:
    anything whose [components] can be read.  The mesh is built and kept; how
    the method ends is decided by the conversion of [name] alone, because a
    [primitive] that cannot be converted is caught and logged under [name]. *)
Lemma createEntityMesh_run name entity r :
  is_nullish entity = false ->
  exists geom,
    select_geometry (layout_primitive entity) (layout_scale entity) = Ok geom /\
    createEntityMesh name entity r =
      (match to_string name with Ok _ => Ok tt | Throw e => Throw e end,
       with_mesh (mesh_of name entity geom
                    (nth (random_index (randomCalls r) mod 8) colors 0%Z)) r).
Proof.
  intros H.
  destruct (layout_truthy entity) as (Hp & Hr & Hs).
  destruct (select_geometry_total (layout_primitive entity) (layout_scale entity)
              (truthy_not_nullish _ Hs)) as [geom Hg].
  exists geom. split; [exact Hg|].
  unfold createEntityMesh, try_catch, bind, lift, getRandomColor, modify.
  rewrite (entity_layout_closed entity H), Hg.
  rewrite !read3_total by (apply truthy_not_nullish; assumption).
  destruct (to_string name) as [shown|e]; [|reflexivity].
  destruct (to_string (layout_primitive entity)); reflexivity.
Qed.

(** The same for a [name] that has a string conversion *)
Lemma createEntityMesh_named name shown entity r :
  is_nullish entity = false -> to_string name = Ok shown ->
  exists geom,
    select_geometry (layout_primitive entity) (layout_scale entity) = Ok geom /\
    createEntityMesh name entity r =
      (Ok tt,
       with_mesh (mesh_of name entity geom
                    (nth (random_index (randomCalls r) mod 8) colors 0%Z)) r).
Proof.
  intros H Hn. destruct (createEntityMesh_run name entity r H) as (geom & Hg & Hrun).
  exists geom. split; [exact Hg|]. rewrite Hrun, Hn. reflexivity.
Qed.

Lemma at_path_absent_transform entity field :
  plain_key field = true ->
  truthy (at_path entity ["components"; "transform"]) = false ->
  at_path entity (transform_path field) = JUndefined.
Proof.
  intros Hk H. unfold at_path, transform_path in *. cbn [fold_left] in *.
  rewrite (js_get_opt_falsy _ "properties" eq_refl H).
  reflexivity.
Qed.

Lemma at_path_absent_geometry entity :
  truthy (at_path entity ["components"; "geometry"]) = false ->
  at_path entity primitive_path = JUndefined.
Proof.
  intros H. unfold at_path, primitive_path in *. cbn [fold_left] in *.
  rewrite (js_get_opt_falsy _ "properties" eq_refl H).
  reflexivity.
Qed.

Lemma unrecognised_default v d :
  recognised_vector v = false -> js_or (extracted v) d = d.
Proof. intros H. rewrite (extracted_unrecognised _ H). reflexivity. Qed.


(** C10.  createEntityMesh, called under a name that has a string conversion
    on any entity whose [id] loadScene could read (anything but [null] and
    [undefined]), returns normally and appends exactly one mesh to [objects].
    Wherever the transform does not supply a recognised vector for position,
    rotation or scale (no transform component, no [properties], a missing
    field, a value that is neither an array nor a [Vector3]/[Array] wrapper)
    the mesh gets position [0,0,0], rotation [0,0,0] and the scale [1,1,1]; a
    bare array is a recognised vector and is used as it is.  Without a
    geometry component the primitive is ['cube'] and the geometry a box of the
    scale's dimensions; a primitive outside the five known names gives the
    unit box. *)
Theorem createEntityMesh_defaults (name entity : JsVal) (shown : string) (r : Renderer) :
  is_nullish entity = false ->
  to_string name = Ok shown ->
  exists mesh position rotation scale primitive,
    entity_layout entity = Ok (position, rotation, scale, primitive) /\
    createEntityMesh name entity r =
      (Ok tt, set_objects (objects r ++ [mesh]) (set_randomCalls (S (randomCalls r)) r)) /\
    mesh_name mesh = name /\ mesh_userData mesh = entity /\
    read3 position = Ok (mesh_position mesh) /\
    read3 rotation = Ok (mesh_rotation mesh) /\
    select_geometry primitive scale = Ok (mesh_geometry mesh) /\
    (recognised_vector (at_path entity (transform_path "position")) = false ->
       position = zero3 /\
       mesh_position mesh = (JNum num_zero, JNum num_zero, JNum num_zero)) /\
    (recognised_vector (at_path entity (transform_path "rotation")) = false ->
       rotation = zero3 /\
       mesh_rotation mesh = (JNum num_zero, JNum num_zero, JNum num_zero)) /\
    (recognised_vector (at_path entity (transform_path "scale")) = false ->
       scale = one3) /\
    (forall items, at_path entity (transform_path "position") = JArr items ->
       position = JArr items) /\
    (forall items, at_path entity (transform_path "rotation") = JArr items ->
       rotation = JArr items) /\
    (forall items, at_path entity (transform_path "scale") = JArr items ->
       scale = JArr items) /\
    (truthy (at_path entity ["components"; "transform"]) = false ->
       position = zero3 /\ rotation = zero3 /\ scale = one3) /\
    (truthy (at_path entity ["components"; "geometry"]) = false ->
       primitive = JStr "cube" /\
       mesh_geometry mesh =
         BoxGeometry (js_get_opt scale "0") (js_get_opt scale "1") (js_get_opt scale "2")) /\
    (known_primitive primitive = false ->
       mesh_geometry mesh = BoxGeometry (JNum num_one) (JNum num_one) (JNum num_one)).
Proof.
  intros H Hname.
  destruct (createEntityMesh_named name shown entity r H Hname) as (geom & Hg & Hrun).
  destruct (layout_truthy entity) as (Hp & Hr & Hs).
  exists (mesh_of name entity geom (nth (random_index (randomCalls r) mod 8) colors 0%Z)),
    (layout_position entity), (layout_rotation entity),
    (layout_scale entity), (layout_primitive entity).
  split; [apply entity_layout_closed, H|]. split; [exact Hrun|].
  split; [reflexivity|]. split; [reflexivity|].
  split; [apply read3_total, truthy_not_nullish, Hp|].
  split; [apply read3_total, truthy_not_nullish, Hr|].
  split; [exact Hg|].
  cbn [mesh_of mesh_position mesh_rotation mesh_geometry].
  split.
  { intros Hu. unfold layout_position. rewrite (unrecognised_default _ _ Hu).
    split; reflexivity. }
  split.
  { intros Hu. unfold layout_rotation. rewrite (unrecognised_default _ _ Hu).
    split; reflexivity. }
  split.
  { intros Hu. unfold layout_scale. apply (unrecognised_default _ _ Hu). }
  split.
  { intros items Ha. unfold layout_position. rewrite Ha. reflexivity. }
  split.
  { intros items Ha. unfold layout_rotation. rewrite Ha. reflexivity. }
  split.
  { intros items Ha. unfold layout_scale. rewrite Ha. reflexivity. }
  split.
  { intros Ha. unfold layout_position, layout_rotation, layout_scale.
    rewrite (at_path_absent_transform entity "position" eq_refl Ha),
            (at_path_absent_transform entity "rotation" eq_refl Ha),
            (at_path_absent_transform entity "scale" eq_refl Ha).
    repeat split. }
  split.
  { intros Ha. unfold layout_primitive in *.
    rewrite (at_path_absent_geometry entity Ha) in *.
    split; [reflexivity|].
    change (js_or (js_or (js_get_opt JUndefined "Identifier") JUndefined) (JStr "cube"))
      with (JStr "cube") in Hg.
    rewrite (select_geometry_cube _ (truthy_not_nullish _ Hs)) in Hg.
    injection Hg as <-. reflexivity. }
  intros Hk. rewrite (select_geometry_unknown _ _ Hk) in Hg.
  injection Hg as <-. reflexivity.
Qed.


(** ** loadMotions *)

Lemma build_motionMap_ir ms o :
  build_motionMap (map json_of_motion ms) o
  = Ok (fold_left (fun o m => object_set o (m_id m) (json_of_motion m)) ms o).
Proof.
  revert o. induction ms as [|m ms IH]; intros o; [reflexivity|].
  cbn [map build_motionMap fold_left]. 
  change (js_get (json_of_motion m) "id") with (Ok (JStr (m_id m))).
  cbn [rbind to_property_key to_string]. apply IH.
Qed.

Lemma find_motion_app k pre m :
  find_motion k (pre ++ [m])
  = if m_id m =? k then Some m else find_motion k pre.
Proof.
  induction pre as [|x pre IH]; cbn [app find_motion].
  - reflexivity.
  - rewrite IH. destruct (m_id m =? k); [reflexivity|].
    destruct (find_motion k pre); reflexivity.
Qed.

Lemma assoc_app_miss {A} k (l : list (string * A)) k' v :
  assoc k (l ++ [(k', v)])
  = match assoc k l with Some x => Some x | None => if k =? k' then Some v else None end.
Proof.
  induction l as [|[k0 x] l IH]; cbn [app assoc]; [reflexivity|].
  destruct (k =? k0); [reflexivity|apply IH].
Qed.

Lemma assoc_update_same {A} k (v : A) l x :
  assoc k l = Some x -> assoc k (assoc_update k v l) = Some v.
Proof.
  induction l as [|[k0 y] l IH]; cbn [assoc assoc_update]; [discriminate|].
  destruct (k =? k0) eqn:E; cbn [assoc]; rewrite E; [reflexivity|exact IH].
Qed.

Lemma assoc_update_other {A} k k' (v : A) l :
  k' <> k -> assoc k' (assoc_update k v l) = assoc k' l.
Proof.
  intros Hne. induction l as [|[k0 y] l IH]; cbn [assoc assoc_update]; [reflexivity|].
  destruct (String.eqb_spec k k0) as [<-|E]; cbn [assoc].
  - destruct (String.eqb_spec k' k); [congruence|reflexivity].
  - destruct (k' =? k0); [reflexivity|exact IH].
Qed.

Lemma table_for_step pre o m :
  table_for pre o ->
  table_for (pre ++ [m]) (object_set o (m_id m) (json_of_motion m)).
Proof.
  intros [Ha Hb Hc]. unfold object_set.
  destruct (String.eqb_spec (m_id m) "__proto__") as [E|NE].
  - rewrite E, Ha. cbn [andb].
    assert (Hs : proto_shadows_accessor (proto o) = false).
    { rewrite Hc. destruct (find_motion "__proto__" pre); reflexivity. }
    rewrite Hs. cbn [negb is_object json_of_motion orb].
    constructor; cbn [own proto].
    + exact Ha.
    + intros k Hk. rewrite (Hb k Hk), find_motion_app, E.
      destruct (String.eqb_spec "__proto__" k); [congruence|reflexivity].
    + rewrite find_motion_app, E. reflexivity.
  - destruct (assoc (m_id m) (own o)) eqn:Ho.
    + constructor; cbn [own proto].
      * rewrite assoc_update_other by (intro; congruence). exact Ha.
      * intros k Hk. rewrite find_motion_app.
        destruct (String.eqb_spec (m_id m) k) as [<-|Hne].
        -- rewrite (assoc_update_same _ _ _ _ Ho). reflexivity.
        -- rewrite assoc_update_other by congruence. apply Hb, Hk.
      * rewrite find_motion_app.
        destruct (String.eqb_spec (m_id m) "__proto__"); [congruence|exact Hc].
    + cbn [andb]. constructor; cbn [own proto].
      * rewrite assoc_app_miss, Ha.
        destruct (String.eqb_spec "__proto__" (m_id m)); [congruence|reflexivity].
      * intros k Hk. rewrite assoc_app_miss, find_motion_app, (Hb k Hk).
        rewrite (String.eqb_sym k (m_id m)).
        destruct (String.eqb_spec (m_id m) k) as [<-|Hne].
        -- rewrite (Hb _ NE) in Ho.
           destruct (find_motion (m_id m) pre); [discriminate|reflexivity].
        -- destruct (find_motion k pre); reflexivity.
      * rewrite find_motion_app.
        destruct (String.eqb_spec (m_id m) "__proto__"); [congruence|exact Hc].
Qed.

Lemma table_for_fold ms : forall pre o,
  table_for pre o ->
  table_for (pre ++ ms)
    (fold_left (fun o m => object_set o (m_id m) (json_of_motion m)) ms o).
Proof.
  induction ms as [|m ms IH]; intros pre o H; cbn [fold_left].
  - rewrite app_nil_r. exact H.
  - replace (pre ++ m :: ms) with ((pre ++ [m]) ++ ms)
      by (rewrite <- app_assoc; reflexivity).
    apply IH, table_for_step, H.
Qed.

Lemma motion_table_for ms : table_for ms (motion_table ms).
Proof.
  apply (table_for_fold ms [] empty_object).
  constructor; [reflexivity| intros; reflexivity | reflexivity].
Qed.

(** A lookup by the id of a listed motion answers with that motion. *)
Lemma motion_table_hit ms k m :
  find_motion k ms = Some m ->
  object_get (motion_table ms) k = json_of_motion m.
Proof.
  intros Hf. destruct (motion_table_for ms) as [Ha Hb Hc]. unfold object_get.
  destruct (String.eqb_spec k "__proto__") as [->|NE].
  - rewrite Ha, Hc, Hf. reflexivity.
  - rewrite (Hb k NE), Hf. reflexivity.
Qed.

Lemma event_entries_ir ms ev :
  event_entries (motion_table ms) (json_of_event ev) = Ok (scheduled ms ev).
Proof.
  unfold event_entries, scheduled.
  change (js_get (json_of_event ev) "motion_id") with (Ok (JStr (ev_motion_id ev))).
  cbn [rbind to_property_key to_string].
  destruct (truthy (js_or (object_get (motion_table ms) (ev_motion_id ev)) JNull));
    [|reflexivity].
  cbn [negb].
  change (js_get (json_of_event ev) "start_time") with (Ok (JNum (ev_start_time ev))).
  change (js_get (json_of_event ev) "duration") with (Ok (JNum (ev_duration ev))).
  change (js_get (json_of_event ev) "start") with (Ok JUndefined).
  cbn [rbind]. unfold or_zero, js_or.
  destruct (truthy (JNum (ev_start_time ev))); reflexivity.
Qed.

Lemma forEach_push {A : Type} (f : A -> Res (list TimelineEvent))
      (g : A -> list TimelineEvent) (l : list A) (r : Renderer) :
  (forall x, In x l -> f x = Ok (g x)) ->
  forEach l (fun x => entries <- lift (f x) ;; modify (push_events entries)) r
  = (Ok tt, push_events (flat_map g l) r).
Proof.
  revert r. induction l as [|x l IH]; intros r H; cbn [forEach flat_map].
  - unfold ret, push_events. rewrite app_nil_r. destruct r; reflexivity.
  - unfold bind at 1. unfold bind at 1. unfold lift at 1.
    rewrite (H x) by (left; reflexivity). unfold modify at 1.
    rewrite IH by (intros y Hy; apply H; right; exact Hy).
    unfold push_events. cbn [timelineEvents set_timelineEvents].
    rewrite <- app_assoc. reflexivity.
Qed.

Lemma forEach_timelines ms (tls : list IrTimeline) (r : Renderer) :
  forEach (map json_of_timeline tls) (fun tl =>
    evs0 <- lift (js_get tl "events") ;;
    evs <- lift (forEach_items "(tl.events || [])" (js_or evs0 (JArr []))) ;;
    forEach evs (fun ev =>
      entries <- lift (event_entries (motion_table ms) ev) ;;
      modify (push_events entries))) r
  = (Ok tt, push_events (flat_map (fun tl => flat_map (scheduled ms) (tl_events tl)) tls) r).
Proof.
  revert r. induction tls as [|tl tls IH]; intros r; cbn [map forEach flat_map].
  - unfold ret, push_events. rewrite app_nil_r. destruct r; reflexivity.
  - unfold bind at 1.
    change (js_get (json_of_timeline tl) "events")
      with (Ok (JArr (map json_of_event (tl_events tl)))).
    unfold bind at 1. unfold lift at 1.
    unfold bind at 1. unfold lift at 1. cbn [js_or truthy forEach_items].
    rewrite (forEach_push (event_entries (motion_table ms))
               (fun j => match event_entries (motion_table ms) j with
                         | Ok l => l | Throw _ => [] end)).
    2:{ intros x Hx. apply in_map_iff in Hx as (ev & <- & _).
        rewrite event_entries_ir. reflexivity. }
    rewrite IH. f_equal.
    replace (flat_map (fun j => match event_entries (motion_table ms) j with
                                | Ok l => l | Throw _ => [] end)
               (map json_of_event (tl_events tl)))
      with (flat_map (scheduled ms) (tl_events tl)).
    2:{ rewrite (flat_map_concat_map _ (map _ _)), map_map, <- flat_map_concat_map.
        apply flat_map_ext. intros ev. rewrite event_entries_ir. reflexivity. }
    destruct r. unfold push_events, set_timelineEvents. cbn.
    rewrite <- app_assoc. reflexivity.
Qed.

(** loadMotions on IR: it returns normally, keeps the motions, and the
    timeline events are the contributions of the IR events in document order. *)
Lemma loadMotions_ir ms tls r :
  loadMotions (JArr (map json_of_motion ms)) (JArr (map json_of_timeline tls)) r
  = (Ok tt,
     set_timelineEvents
       (flat_map (fun tl => flat_map (scheduled ms) (tl_events tl)) tls)
       (set_motions (JArr (map json_of_motion ms)) r)).
Proof.
  unfold loadMotions.
  unfold bind at 1. unfold modify at 1.
  unfold bind at 1. unfold modify at 1.
  unfold bind at 1. unfold get_state at 1.
  cbn [js_or truthy motions set_motions set_timelineEvents].
  unfold bind at 1. unfold lift at 1. cbn [forEach_items].
  unfold bind at 1. unfold lift at 1. rewrite build_motionMap_ir.
  unfold bind at 1. unfold lift at 1.
  fold (motion_table ms). rewrite forEach_timelines.
  reflexivity.
Qed.

(** *** The order of doubles *)

Lemma pos_compare_cont_refl m : Pos.compare_cont Eq m m = Eq.
Proof. exact (Pos.compare_refl m). Qed.

Lemma num_eqb_refl x : is_nan x = false -> num_eqb x x = true.
Proof.
  unfold num_eqb, SFeqb. destruct x as [s|s| |s m e]; cbn; try discriminate; intros _.
  - reflexivity.
  - destruct s; reflexivity.
  - rewrite Z.compare_refl, pos_compare_cont_refl. destruct s; reflexivity.
Qed.

Lemma positive_truthy d : num_ltb num_zero d = true -> truthy (JNum d) = true.
Proof. destruct d as [s|s| |s m e]; cbn; try discriminate; reflexivity. Qed.

Lemma nonneg_or_zero s :
  num_leb num_zero s = true ->
  strict_eq (or_zero s) (JNum s) = true /\
  (s <> S754_zero true -> or_zero s = JNum s).
Proof.
  unfold or_zero.
  destruct s as [b|b| |b m e]; cbn; try discriminate; intros H.
  - split; [reflexivity|]. destruct b; [congruence|reflexivity].
  - split; [|reflexivity]. destruct b; [discriminate|reflexivity].
  - split; [|reflexivity]. apply (num_eqb_refl (S754_finite b m e)). reflexivity.
Qed.

Lemma find_motion_some k ms m :
  In m ms -> m_id m = k -> exists m', find_motion k ms = Some m'.
Proof.
  induction ms as [|x ms IH]; [contradiction|]. intros [->|Hin] Hid; cbn [find_motion].
  - destruct (find_motion k ms); [eexists; reflexivity|].
    rewrite Hid, String.eqb_refl. eexists; reflexivity.
  - destruct (IH Hin Hid) as [m' ->]. eexists; reflexivity.
Qed.

Lemma find_motion_sound k ms m :
  find_motion k ms = Some m -> In m ms /\ m_id m = k.
Proof.
  induction ms as [|x ms IH]; cbn [find_motion]; [discriminate|].
  destruct (find_motion k ms) as [m'|].
  - intros [= <-]. destruct (IH eq_refl). split; [right|]; assumption.
  - destruct (String.eqb_spec (m_id x) k); [|discriminate].
    intros [= <-]. split; [left; reflexivity|assumption].
Qed.

Lemma unique_id ms m m' :
  NoDup (map m_id ms) -> In m ms -> In m' ms -> m_id m = m_id m' -> m = m'.
Proof.
  induction ms as [|x ms IH]; [contradiction|].
  cbn [map]. intros Hnd. inversion Hnd as [|? ? Hx Hnd']; subst.
  intros [->|H1] [->|H2] E.
  - reflexivity.
  - exfalso. apply Hx. rewrite E. apply in_map, H2.
  - exfalso. apply Hx. rewrite <- E. apply in_map, H1.
  - apply IH; assumption.
Qed.

(** C4.  loadMotions, given the motions and timelines of an IR scene, returns
    normally and fills [timelineEvents] with the contributions of the events
    in document order.  An event with start_time >= 0 and duration > 0 whose
    motion_id is the id of a listed motion contributes exactly one entry: its
    start equals the start_time (the same number, up to the sign of zero), its
    duration is the event's duration, and its motion is a listed motion with
    that id, the one with that id when ids are unique. *)
Theorem loadMotions_schedules_event
    (ms : list IrMotion) (tls : list IrTimeline) (r : Renderer)
    (tl : IrTimeline) (ev : IrEvent) (m : IrMotion) :
  In tl tls -> In ev (tl_events tl) ->
  num_leb num_zero (ev_start_time ev) = true ->
  num_ltb num_zero (ev_duration ev) = true ->
  In m ms -> m_id m = ev_motion_id ev ->
  loadMotions (JArr (map json_of_motion ms)) (JArr (map json_of_timeline tls)) r
    = (Ok tt,
       set_timelineEvents
         (flat_map (fun tl => flat_map (scheduled ms) (tl_events tl)) tls)
         (set_motions (JArr (map json_of_motion ms)) r)) /\
  exists te m',
    scheduled ms ev = [te] /\
    In te (flat_map (fun tl => flat_map (scheduled ms) (tl_events tl)) tls) /\
    strict_eq (start te) (JNum (ev_start_time ev)) = true /\
    (ev_start_time ev <> S754_zero true -> start te = JNum (ev_start_time ev)) /\
    duration te = JNum (ev_duration ev) /\
    motion te = json_of_motion m' /\
    In m' ms /\ m_id m' = ev_motion_id ev /\
    (NoDup (map m_id ms) -> m' = m).
Proof.
  intros Htl Hev Hs Hd Hm Hid.
  split; [apply loadMotions_ir|].
  destruct (find_motion_some _ _ _ Hm Hid) as [m' Hf].
  destruct (find_motion_sound _ _ _ Hf) as [Hin' Hid'].
  unfold scheduled. rewrite (motion_table_hit _ _ _ Hf).
  cbn [json_of_motion js_or truthy].
  eexists _, m'. split; [reflexivity|].
  split.
  { apply in_flat_map. exists tl. split; [exact Htl|].
    apply in_flat_map. exists ev. split; [exact Hev|].
    unfold scheduled. rewrite (motion_table_hit _ _ _ Hf).
    cbn [json_of_motion js_or truthy]. left. reflexivity. }
  cbn [start duration motion].
  destruct (nonneg_or_zero _ Hs) as [He Hz].
  split; [exact He|]. split; [exact Hz|].
  split; [unfold or_zero; rewrite (positive_truthy _ Hd); reflexivity|].
  split; [reflexivity|]. split; [exact Hin'|]. split; [exact Hid'|].
  intros Hnd. apply (unique_id ms); try assumption. congruence.
Qed.

(** ** updateAnimations *)

Lemma SFcompare_antisym x y :
  SFcompare y x = option_map CompOpp (SFcompare x y).
Proof.
  destruct x as [sx|sx| |sx mx ex], y as [sy|sy| |sy my ey]; cbn;
    try reflexivity;
    try (destruct sx; reflexivity); try (destruct sy; reflexivity);
    try (destruct sx, sy; reflexivity).
  destruct sx, sy; cbn; try reflexivity;
    rewrite (Z.compare_antisym ex ey); destruct (ex ?= ey)%Z; cbn; try reflexivity;
    pose proof (Pos.compare_cont_antisym mx my Eq) as P; cbn [CompOpp] in P;
    rewrite <- P; destruct (Pos.compare_cont Eq mx my); reflexivity.
Qed.

Lemma SFcompare_total x y :
  is_nan x = false -> is_nan y = false -> exists c, SFcompare x y = Some c.
Proof.
  destruct x, y; cbn; try discriminate; intros _ _; eexists; reflexivity.
Qed.

Lemma num_ltb_negb_leb x y :
  is_nan x = false -> is_nan y = false -> num_ltb x y = negb (num_leb y x).
Proof.
  intros Hx Hy. unfold num_ltb, num_leb, SFltb, SFleb.
  rewrite (SFcompare_antisym x y).
  destruct (SFcompare_total x y Hx Hy) as [c ->]. destruct c; reflexivity.
Qed.

Lemma num_leb_refl x : is_nan x = false -> num_leb x x = true.
Proof.
  intros H. pose proof (num_eqb_refl x H) as E.
  unfold num_eqb, SFeqb, num_leb, SFleb in *.
  destruct (SFcompare x x) as [[]|]; try discriminate; reflexivity.
Qed.

Lemma outside_window_numeric t evt s d :
  start evt = JNum s -> duration evt = JNum d ->
  outside_window t evt = Ok (num_ltb t s || num_ltb (num_add s d) t).
Proof.
  intros Hs Hd. unfold outside_window. rewrite Hs, Hd.
  cbn [js_lt to_primitive rbind js_add is_string orb prim_to_number js_gt].
  destruct (num_ltb t s); reflexivity.
Qed.

Lemma outside_window_closed t evt s d :
  start evt = JNum s -> duration evt = JNum d ->
  is_nan t = false -> is_nan s = false -> is_nan (num_add s d) = false ->
  outside_window t evt = Ok (negb (in_closed_interval s d t)).
Proof.
  intros Hs Hd Ht Hns Hne.
  rewrite (outside_window_numeric t evt s d Hs Hd). unfold in_closed_interval.
  rewrite (num_ltb_negb_leb t s Ht Hns), (num_ltb_negb_leb _ t Hne Ht).
  rewrite negb_andb. reflexivity.
Qed.

Lemma animate_event_closed delta evt r s d :
  start evt = JNum s -> duration evt = JNum d ->
  is_nan (currentTime r) = false -> is_nan s = false -> is_nan (num_add s d) = false ->
  animate_event delta evt r
  = if in_closed_interval s d (currentTime r)
    then apply_motion delta (motion evt) r
    else (Ok tt, r).
Proof.
  intros Hs Hd Ht Hns Hne. unfold animate_event.
  unfold bind at 1. unfold get_state at 1.
  unfold bind at 1. unfold lift at 1.
  rewrite (outside_window_closed _ evt s d Hs Hd Ht Hns Hne).
  destruct (in_closed_interval s d (currentTime r)); reflexivity.
Qed.

Lemma updateAnimations_forEach delta r :
  updateAnimations delta r = forEach (timelineEvents r) (animate_event delta) r.
Proof.
  unfold updateAnimations, bind, get_state.
  destruct (timelineEvents r); reflexivity.
Qed.

(** ** loadScene and handleCompile *)

Lemma bind_throws {S A B : Type} (c : M S A) (k : A -> M S B) (s : S) :
  (forall a s', exists e s'', k a s' = (Throw e, s'')) ->
  exists e s'', bind c k s = (Throw e, s'').
Proof.
  intros H. unfold bind. destruct (c s) as [[a|e] s']; [apply H|eauto].
Qed.

(** No call of loadScene with a scene gets past fitCameraToScene. *)
Lemma loadScene_throws scene r :
  truthy scene = true -> exists e r', loadScene scene r = (Throw e, r').
Proof.
  intros H. unfold loadScene. rewrite H. cbn [negb].
  unfold bind at 1. destruct (clearScene r) as [[[]|e] r1]; [|eauto].
  unfold try_catch.
  match goal with |- context [bind ?c ?k r1] =>
    destruct (bind_throws c k r1) as (e & r2 & ->) end; [|unfold throw; eauto].
  intros entities s1. apply bind_throws. intros _ s2.
  apply bind_throws. intros _ s3. apply bind_throws. intros _ s4.
  unfold bind, fitCameraToScene, throw. eauto.
Qed.

Lemma join_of_strings callee sep errs :
  js_join callee (JArr (map JStr errs)) sep = Ok (join_strings sep errs).
Proof.
  unfold js_join.
  assert (E : res_map (fun x => if is_nullish x then Ok "" else to_string x)
                (map JStr errs) = Ok errs).
  { induction errs as [|x errs IH]; [reflexivity|].
    cbn [map res_map is_nullish to_string]. rewrite IH. reflexivity. }
  rewrite E. reflexivity.
Qed.

(** What a run of handleCompile leaves when the validate response says
    [valid: false] *)
Lemma handleCompile_invalid a resp :
  trim (dslInput a) <> "" ->
  server (validate_request (trim (dslInput a))) = Ok resp ->
  js_get resp "valid" = Ok (JBool false) ->
  handleCompile a =
    (Ok tt,
     match js_get resp "errors" with
     | Throw e => set_loadingHidden true (set_status ("Error: " ++ message e) "error"
                    (set_requests (requests a ++ [validate_request (trim (dslInput a))])
                       (set_loadingHidden false (set_status "Compiling..." "loading" a))))
     | Ok errs =>
         match js_join "validateResult.errors" errs "; " with
         | Throw e => set_loadingHidden true (set_status ("Error: " ++ message e) "error"
                    (set_requests (requests a ++ [validate_request (trim (dslInput a))])
                       (set_loadingHidden false (set_status "Compiling..." "loading" a))))
         | Ok errors =>
             set_loadingHidden true (set_loadingHidden true
               (set_status ("Validation failed: " ++ errors) "error"
                 (set_requests (requests a ++ [validate_request (trim (dslInput a))])
                   (set_loadingHidden false (set_status "Compiling..." "loading" a)))))
         end
     end).
Proof.
  intros Hsrc Hserver Hvalid.
  unfold handleCompile. unfold bind at 1. unfold get_state at 1.
  apply String.eqb_neq in Hsrc. rewrite Hsrc.
  unfold bind at 1. unfold updateStatus at 1. unfold modify at 1.
  unfold bind at 1. unfold showLoading at 1. unfold modify at 1.
  unfold try_finally, try_catch.
  unfold bind at 1. unfold fetch_json at 1.
  cbn [dslInput set_status set_loadingHidden requests negb].
  rewrite Hserver.
  unfold bind at 1. unfold lift at 1. rewrite Hvalid. cbn [truthy negb].
  unfold bind at 1. unfold lift at 1.
  destruct (js_get resp "errors") as [errs|e]; [|reflexivity].
  unfold bind at 1. unfold lift at 1.
  destruct (js_join "validateResult.errors" errs "; ") as [errors|e]; [|reflexivity].
  reflexivity.
Qed.

(** C2.  In a run of handleCompile that gets [valid: false] from
    /api/compile/validate, the only request sent is the validation request
    (none goes to /api/compile/), the renderer and the application state are
    left exactly as they were, the overlay is hidden again and the status line
    reports an error; when [errors] is a list of strings, as the interface
    says, the status line reads "Validation failed: " followed by the errors
    joined with "; ". *)
Theorem handleCompile_validation_failure (a : App) (resp : JsVal) :
  trim (dslInput a) <> "" ->
  server (validate_request (trim (dslInput a))) = Ok resp ->
  js_get resp "valid" = Ok (JBool false) ->
  exists a',
    handleCompile a = (Ok tt, a') /\
    requests a' = requests a ++ [validate_request (trim (dslInput a))] /\
    url (validate_request (trim (dslInput a))) <> url (compile_request (trim (dslInput a))) /\
    renderer a' = renderer a /\
    state a' = state a /\
    statusType a' = "error" /\
    loadingHidden a' = true /\
    (forall errs : list string,
       js_get resp "errors" = Ok (JArr (map JStr errs)) ->
       statusText a' = ("Validation failed: " ++ join_strings "; " errs)%string).
Proof.
  intros Hsrc Hserver Hvalid.
  eexists. split; [apply (handleCompile_invalid a resp Hsrc Hserver Hvalid)|].
  destruct (js_get resp "errors") as [errs0|e] eqn:He.
  - destruct (js_join "validateResult.errors" errs0 "; ") as [errors|e] eqn:Hj; cbn;
      (repeat split; try reflexivity; try discriminate).
    + intros errs [= ->]. rewrite join_of_strings in Hj. injection Hj as <-. reflexivity.
    + intros errs [= ->]. rewrite join_of_strings in Hj. discriminate.
  - cbn. repeat split; try reflexivity; try discriminate.
Qed.

(** X5.  A run that validates and then receives a compiled scene: loadScene
    throws, so the run ends in the [catch]; setScene and enableControls are
    never reached. *)
Lemma handleCompile_scene_not_stored (a : App) (vresp cresp valid scene : JsVal) :
  trim (dslInput a) <> "" ->
  server (validate_request (trim (dslInput a))) = Ok vresp ->
  js_get vresp "valid" = Ok valid -> truthy valid = true ->
  server (compile_request (trim (dslInput a))) = Ok cresp ->
  js_get cresp "success" = Ok (JBool true) ->
  js_get cresp "ir_scene" = Ok scene -> truthy scene = true ->
  exists e a',
    handleCompile a = (Ok tt, a') /\
    loadScene scene (renderer a) = (Throw e, renderer a') /\
    state a' = state a /\
    playDisabled a' = playDisabled a /\ resetDisabled a' = resetDisabled a /\
    statusText a' = ("Error: " ++ message e)%string /\ statusType a' = "error".
Proof.
  intros Hsrc Hv Hvalid Htv Hc Hsucc Hscene Hts.
  destruct (loadScene_throws scene (renderer a) Hts) as (e & r' & Hload).
  exists e. eexists.
  unfold handleCompile. unfold bind at 1. unfold get_state at 1.
  apply String.eqb_neq in Hsrc. rewrite Hsrc.
  unfold bind at 1. unfold updateStatus at 1. unfold modify at 1.
  unfold bind at 1. unfold showLoading at 1. unfold modify at 1.
  unfold try_finally, try_catch.
  unfold bind at 1. unfold fetch_json at 1.
  cbn [dslInput set_status set_loadingHidden requests negb].
  rewrite Hv.
  unfold bind at 1. unfold lift at 1. rewrite Hvalid, Htv. cbn [negb].
  unfold bind at 1. unfold fetch_json at 1.
  cbn [dslInput set_status set_loadingHidden set_requests requests negb].
  rewrite Hc.
  unfold bind at 1. unfold lift at 1. rewrite Hsucc.
  unfold bind at 1. unfold lift at 1. cbn [truthy]. rewrite Hscene, Hts. cbn [andb].
  unfold show_scene. unfold bind at 1. unfold on_renderer at 1.
  cbn [renderer set_requests set_loadingHidden set_status].
  rewrite Hload. cbn [updateStatus modify].
  split; [reflexivity|]. cbn. repeat split; reflexivity || exact Hload.
Qed.
(** ** Further properties *)

Lemma motion_table_miss ms k :
  find_motion k ms = None ->
  find_motion "__proto__" ms = None ->
  ordinary_id k = true ->
  object_get (motion_table ms) k = JUndefined.
Proof.
  intros Hk Hp Ho. destruct (motion_table_for ms) as [Ha Hb Hc].
  unfold ordinary_id in Ho. apply andb_prop in Ho as [H1 H2].
  apply negb_true_iff in H1. apply negb_true_iff in H2.
  unfold object_get. rewrite (Hb k) by (apply String.eqb_neq, H1).
  rewrite Hk, Hc, Hp. cbn [option_map proto_get].
  unfold object_prototype_get. rewrite H1, H2. reflexivity.
Qed.

Lemma motion_table_inherited ms k :
  find_motion k ms = None ->
  find_motion "__proto__" ms = None ->
  string_in k object_prototype_functions = true ->
  object_get (motion_table ms) k = JBuiltin (BuiltinFunction k).
Proof.
  intros Hk Hp Hin. destruct (motion_table_for ms) as [Ha Hb Hc].
  assert (H1 : k <> "__proto__") by (intros ->; discriminate Hin).
  unfold object_get. rewrite (Hb k H1), Hk, Hc, Hp. cbn [option_map proto_get].
  unfold object_prototype_get. apply String.eqb_neq in H1. rewrite H1, Hin.
  reflexivity.
Qed.

(** X1.  loadMotions fills [timelineEvents] with the contributions of the
    events.  When no motion is named [__proto__], an event whose motion_id is
    carried by no motion and is not a member of [Object.prototype]
    contributes nothing, and every entry contributed by an event with an
    ordinary id holds one of the supplied motions. *)
Theorem loadMotions_discards_ordinary_unmatched
    (ms : list IrMotion) (tls : list IrTimeline) (r : Renderer) (ev : IrEvent) :
  find_motion "__proto__" ms = None ->
  ordinary_id (ev_motion_id ev) = true ->
  loadMotions (JArr (map json_of_motion ms)) (JArr (map json_of_timeline tls)) r
    = (Ok tt,
       set_timelineEvents
         (flat_map (fun tl => flat_map (scheduled ms) (tl_events tl)) tls)
         (set_motions (JArr (map json_of_motion ms)) r)) /\
  (find_motion (ev_motion_id ev) ms = None -> scheduled ms ev = []) /\
  (forall te, In te (scheduled ms ev) ->
     exists m, In m ms /\ m_id m = ev_motion_id ev /\ motion te = json_of_motion m).
Proof.
  intros Hp Ho. split; [apply loadMotions_ir|]. split.
  - intros Hk. unfold scheduled. rewrite (motion_table_miss _ _ Hk Hp Ho). reflexivity.
  - intros te Hin. unfold scheduled in Hin.
    destruct (find_motion (ev_motion_id ev) ms) as [m|] eqn:Hk.
    + rewrite (motion_table_hit _ _ _ Hk) in Hin.
      cbn [json_of_motion js_or truthy] in Hin. destruct Hin as [<-|[]].
      destruct (find_motion_sound _ _ _ Hk) as [Hm Hid].
      exists m. repeat split; assumption.
    + rewrite (motion_table_miss _ _ Hk Hp Ho) in Hin. destruct Hin.
Qed.

Lemma assoc_map_values {A B} (f : A -> B) k (l : list (string * A)) :
  assoc k (map (fun kv => (fst kv, f (snd kv))) l) = option_map f (assoc k l).
Proof.
  induction l as [|[k0 x] l IH]; cbn [map assoc fst snd option_map]; [reflexivity|].
  destruct (k =? k0); [reflexivity|exact IH].
Qed.

Lemma ir_parameter (m : IrMotion) k v :
  assoc k (m_parameters m) = Some v ->
  js_get_opt (JObj (map (fun kv => (fst kv, json_of_value (snd kv))) (m_parameters m))) k
  = json_of_value v.
Proof.
  intros H. unfold js_get_opt. cbn [js_get]. rewrite assoc_map_values, H. reflexivity.
Qed.

(** X2.  The axis and the speed of a rotation are read from
    [motion.parameters] and from nowhere else: two motions with the same
    [parameters] get the same axis and speed, and a motion that carries [axis]
    and [speed] beside [target_entity] instead of inside [parameters] gets the
    defaults [0,1,0] and 0.  From the IR, a [Vector3] axis is unwrapped to its
    array and a [Number] speed other than zero to its number; bare arrays and
    bare numbers other than zero are taken as they are. *)
Theorem rotation_reads_parameters :
  (forall m m' : JsVal,
     js_get m "parameters" = js_get m' "parameters" ->
     rotation_axis m = rotation_axis m' /\ rotation_speed m = rotation_speed m') /\
  (forall fields : list (string * JsVal),
     assoc "parameters" fields = None ->
     rotation_axis (JObj fields) = Ok (vec_literal num_zero num_one num_zero) /\
     rotation_speed (JObj fields) = Ok (JNum num_zero)) /\
  (forall (m : IrMotion) (x y z v : number),
     assoc "axis" (m_parameters m) = Some (IrVector3 x y z) ->
     assoc "speed" (m_parameters m) = Some (IrNumber v) ->
     truthy (JNum v) = true ->
     rotation_axis (json_of_motion m) = Ok (JArr [JNum x; JNum y; JNum z]) /\
     rotation_speed (json_of_motion m) = Ok (JNum v)) /\
  (forall (fields params : list (string * JsVal)) (items : list JsVal) (v : number),
     assoc "parameters" fields = Some (JObj params) ->
     assoc "axis" params = Some (JArr items) ->
     assoc "speed" params = Some (JNum v) ->
     truthy (JNum v) = true ->
     rotation_axis (JObj fields) = Ok (JArr items) /\
     rotation_speed (JObj fields) = Ok (JNum v)).
Proof.
  split; [|split; [|split]].
  - intros m m' H. unfold rotation_axis, rotation_speed. rewrite H. split; reflexivity.
  - intros fields H. unfold rotation_axis, rotation_speed. cbn [js_get]. rewrite H.
    split; reflexivity.
  - intros m x y z v Ha Hs Hv. unfold rotation_axis, rotation_speed.
    change (js_get (json_of_motion m) "parameters")
      with (Ok (JObj (map (fun kv => (fst kv, json_of_value (snd kv))) (m_parameters m)))).
    cbn [rbind].
    rewrite (ir_parameter m "axis" _ Ha), (ir_parameter m "speed" _ Hs).
    split; [reflexivity|].
    change (js_get_opt (json_of_value (IrNumber v)) "Number") with (JNum v).
    unfold js_or. rewrite Hv. cbv iota. rewrite Hv. reflexivity.
  - intros fields params items v Hp Ha Hs Hv. unfold rotation_axis, rotation_speed.
    cbn [js_get]. rewrite Hp. cbn [rbind].
    assert (Ea : js_get_opt (JObj params) "axis" = JArr items)
      by (unfold js_get_opt; cbn [js_get]; rewrite Ha; reflexivity).
    assert (Es : js_get_opt (JObj params) "speed" = JNum v)
      by (unfold js_get_opt; cbn [js_get]; rewrite Hs; reflexivity).
    rewrite Ea, Es. split; [reflexivity|].
    change (js_get_opt (JNum v) "Number") with JUndefined.
    unfold js_or. change (truthy JUndefined) with false. cbv iota.
    rewrite Hv. reflexivity.
Qed.

(** X3.  loadScene never completes on a scene: whatever the scene holds, the
    call ends with an exception (at the latest the one of fitCameraToScene),
    after the previous scene has been cleared.  Without a scene it only
    clears. *)
Theorem loadScene_never_completes (scene : JsVal) (r : Renderer) :
  (truthy scene = true -> exists e r', loadScene scene r = (Throw e, r')) /\
  (truthy scene = false ->
   loadScene scene r
   = (Ok tt, set_cameraPosition home_camera
               (set_timelineEvents [] (set_motions (JArr []) (set_objects [] r))))).
Proof.
  split.
  - apply loadScene_throws.
  - intros H. unfold loadScene. rewrite H. reflexivity.
Qed.

(** X4.  A run of handleCompile that validates and then gets [success: false]
    leaves the renderer and the application state as they were and reports
    "Compilation failed: " followed by the joined errors, or by "Unknown
    error" when the response has no [errors] or the joined text is empty. *)
Theorem handleCompile_compile_failure (a : App) (vresp cresp valid : JsVal) :
  trim (dslInput a) <> "" ->
  server (validate_request (trim (dslInput a))) = Ok vresp ->
  js_get vresp "valid" = Ok valid -> truthy valid = true ->
  server (compile_request (trim (dslInput a))) = Ok cresp ->
  js_get cresp "success" = Ok (JBool false) ->
  (js_get cresp "errors" = Ok JUndefined ->
   exists a',
     handleCompile a = (Ok tt, a') /\
     renderer a' = renderer a /\ state a' = state a /\
     statusText a' = "Compilation failed: Unknown error" /\ statusType a' = "error") /\
  (forall errs : list string,
     js_get cresp "errors" = Ok (JArr (map JStr errs)) ->
     exists a',
       handleCompile a = (Ok tt, a') /\
       renderer a' = renderer a /\ state a' = state a /\
       statusText a'
       = ("Compilation failed: "
          ++ (if join_strings "; " errs =? "" then "Unknown error"
              else join_strings "; " errs))%string /\
       statusType a' = "error").
Proof.
  intros Hsrc Hv Hvalid Htv Hc Hsucc.
  apply String.eqb_neq in Hsrc.
  assert (Run : forall errs0,
    js_get cresp "errors" = Ok errs0 ->
    forall joined text,
    (if is_nullish errs0 then Ok JUndefined
     else s <~ js_join "compileResult.errors?" errs0 "; " ;; Ok (JStr s)) = Ok joined ->
    to_string (js_or joined (JStr "Unknown error")) = Ok text ->
    exists a',
      handleCompile a = (Ok tt, a') /\
      renderer a' = renderer a /\ state a' = state a /\
      statusText a' = ("Compilation failed: " ++ text)%string /\ statusType a' = "error").
  { intros errs0 He joined text Hj Ht. eexists.
    unfold handleCompile. unfold bind at 1. unfold get_state at 1.
    rewrite Hsrc.
    unfold bind at 1. unfold updateStatus at 1. unfold modify at 1.
    unfold bind at 1. unfold showLoading at 1. unfold modify at 1.
    unfold try_finally, try_catch.
    unfold bind at 1. unfold fetch_json at 1.
    cbn [dslInput set_status set_loadingHidden requests negb].
    rewrite Hv.
    unfold bind at 1. unfold lift at 1. rewrite Hvalid, Htv. cbn [negb].
    unfold bind at 1. unfold fetch_json at 1.
    cbn [dslInput set_status set_loadingHidden set_requests requests negb].
    rewrite Hc.
    unfold bind at 1. unfold lift at 1. rewrite Hsucc.
    unfold bind at 1. unfold lift at 1. cbn [truthy andb].
    unfold show_failure.
    unfold bind at 1. unfold lift at 1. rewrite He.
    unfold bind at 1. unfold lift at 1. rewrite Hj.
    unfold bind at 1. unfold lift at 1. rewrite Ht.
    cbn. repeat split; reflexivity. }
  split.
  - intros He. apply (Run JUndefined He JUndefined); reflexivity.
  - intros errs He.
    apply (Run _ He (JStr (join_strings "; " errs))).
    + cbn [is_nullish]. rewrite join_of_strings. reflexivity.
    + unfold js_or. cbn [truthy]. destruct (join_strings "; " errs =? ""); reflexivity.
Qed.

(** ** Minimum, maximum and clamping of doubles *)

Lemma num_ltb_leb x y : num_ltb x y = true -> num_leb x y = true.
Proof.
  unfold num_ltb, num_leb, SFltb, SFleb.
  destruct (SFcompare x y) as [[]|]; congruence.
Qed.

Lemma num_leb_not_nan x y : num_leb x y = true -> is_nan x = false /\ is_nan y = false.
Proof.
  unfold num_leb, SFleb. destruct x, y; cbn; try discriminate; auto.
Qed.

Lemma num_leb_of_not_ltb x y :
  is_nan x = false -> is_nan y = false -> num_ltb y x = false -> num_leb x y = true.
Proof.
  intros Hx Hy H. rewrite (num_ltb_negb_leb y x Hy Hx) in H.
  destruct (num_leb x y); [reflexivity|discriminate].
Qed.

Lemma math_min_spec a b :
  is_nan a = false -> is_nan b = false ->
  (math_min a b = a \/ math_min a b = b) /\
  num_leb (math_min a b) a = true /\ num_leb (math_min a b) b = true.
Proof.
  intros Ha Hb. unfold math_min. rewrite Ha, Hb. cbn [orb].
  destruct (num_ltb a b) eqn:Hab.
  { split; [left; reflexivity|].
    split; [apply num_leb_refl, Ha|apply num_ltb_leb, Hab]. }
  destruct (num_ltb b a) eqn:Hba.
  { split; [right; reflexivity|].
    split; [apply num_ltb_leb, Hba|apply num_leb_refl, Hb]. }
  pose proof (num_leb_of_not_ltb a b Ha Hb Hba) as L1.
  pose proof (num_leb_of_not_ltb b a Hb Ha Hab) as L2.
  destruct a as [[]|sa| |sa ma ea];
    (split; [auto|split; first [apply num_leb_refl; assumption | assumption]]).
Qed.

Lemma math_max_spec a b :
  is_nan a = false -> is_nan b = false ->
  (math_max a b = a \/ math_max a b = b) /\
  num_leb a (math_max a b) = true /\ num_leb b (math_max a b) = true.
Proof.
  intros Ha Hb. unfold math_max. rewrite Ha, Hb. cbn [orb].
  destruct (num_ltb b a) eqn:Hba.
  { split; [left; reflexivity|].
    split; [apply num_leb_refl, Ha|apply num_ltb_leb, Hba]. }
  destruct (num_ltb a b) eqn:Hab.
  { split; [right; reflexivity|].
    split; [apply num_ltb_leb, Hab|apply num_leb_refl, Hb]. }
  pose proof (num_leb_of_not_ltb a b Ha Hb Hba) as L1.
  pose proof (num_leb_of_not_ltb b a Hb Ha Hab) as L2.
  destruct a as [[]|sa| |sa ma ea];
    (split; [auto|split; first [apply num_leb_refl; assumption | assumption]]).
Qed.

Lemma math_min_nan a b : is_nan (math_min a b) = is_nan a || is_nan b.
Proof.
  unfold math_min. destruct (is_nan a) eqn:Ha; [reflexivity|].
  destruct (is_nan b) eqn:Hb; [reflexivity|]. cbn [orb].
  destruct (num_ltb a b); [exact Ha|]. destruct (num_ltb b a); [exact Hb|].
  destruct a as [[]| | |]; assumption.
Qed.

Lemma math_max_nan a b : is_nan (math_max a b) = is_nan a || is_nan b.
Proof.
  unfold math_max. destruct (is_nan a) eqn:Ha; [reflexivity|].
  destruct (is_nan b) eqn:Hb; [reflexivity|]. cbn [orb].
  destruct (num_ltb b a); [exact Ha|]. destruct (num_ltb a b); [exact Hb|].
  destruct a as [[]| | |]; assumption.
Qed.

(** [Math.max(lo, Math.min(hi, x))] lies between [lo] and [hi] unless [x] is
    NaN, which it hands through. *)
Lemma clamp_within lo hi x :
  num_leb lo hi = true ->
  is_nan (math_max lo (math_min hi x)) = is_nan x /\
  (is_nan x = false -> within lo hi (math_max lo (math_min hi x)) = true).
Proof.
  intros Hle. destruct (num_leb_not_nan _ _ Hle) as [Hlo Hhi].
  split; [rewrite math_max_nan, math_min_nan, Hlo, Hhi; reflexivity|].
  intros Hx.
  destruct (math_min_spec hi x Hhi Hx) as (_ & Hm1 & _).
  assert (Hm : is_nan (math_min hi x) = false)
    by (rewrite math_min_nan, Hhi, Hx; reflexivity).
  destruct (math_max_spec lo (math_min hi x) Hlo Hm) as ([E|E] & Ha & _).
  - unfold within. rewrite Ha. rewrite E. exact Hle.
  - unfold within. rewrite Ha. rewrite E. exact Hm1.
Qed.

(** ** What a computation leaves alone *)

Lemma keeps_ret {S A} (R : S -> S -> Prop) (a : A) :
  (forall s, R s s) -> keeps R (ret a).
Proof. intros Hr s. apply Hr. Qed.

Lemma keeps_lift {S A} (R : S -> S -> Prop) (x : Res A) :
  (forall s, R s s) -> keeps R (lift x).
Proof. intros Hr s. apply Hr. Qed.

Lemma keeps_throw {S A} (R : S -> S -> Prop) (e : JsError) :
  (forall s, R s s) -> keeps R (@throw S A e).
Proof. intros Hr s. apply Hr. Qed.

Lemma keeps_get_state {S} (R : S -> S -> Prop) :
  (forall s, R s s) -> keeps R (@get_state S).
Proof. intros Hr s. apply Hr. Qed.

Lemma keeps_modify {S} (R : S -> S -> Prop) (f : S -> S) :
  (forall s, R s (f s)) -> keeps R (modify f).
Proof. intros H s. apply H. Qed.

Lemma keeps_bind {S A B} (R : S -> S -> Prop) (c : M S A) (k : A -> M S B) :
  (forall x y z, R x y -> R y z -> R x z) ->
  keeps R c -> (forall a, keeps R (k a)) -> keeps R (bind c k).
Proof.
  intros Ht Hc Hk s. unfold bind. specialize (Hc s).
  destruct (c s) as [[a|e] s1]; cbn [snd] in *; [|exact Hc].
  apply (Ht _ s1); [exact Hc|apply Hk].
Qed.

Lemma keeps_forEach {S A} (R : S -> S -> Prop) (l : list A) (body : A -> M S unit) :
  (forall s, R s s) -> (forall x y z, R x y -> R y z -> R x z) ->
  (forall x, keeps R (body x)) -> keeps R (forEach l body).
Proof.
  intros Hr Ht Hb. induction l as [|x l IH]; cbn [forEach].
  - apply keeps_ret, Hr.
  - apply keeps_bind; [exact Ht|apply Hb|intros _; exact IH].
Qed.

Lemma keeps_try_catch {S A} (R : S -> S -> Prop) (c : M S A) (h : JsError -> M S A) :
  (forall x y z, R x y -> R y z -> R x z) ->
  keeps R c -> (forall e, keeps R (h e)) -> keeps R (try_catch c h).
Proof.
  intros Ht Hc Hh s. unfold try_catch. specialize (Hc s).
  destruct (c s) as [[a|e] s1]; cbn [snd] in *; [exact Hc|].
  apply (Ht _ s1); [exact Hc|apply Hh].
Qed.

Lemma keeps_if {S A} (R : S -> S -> Prop) (b : bool) (c d : M S A) :
  keeps R c -> keeps R d -> keeps R (if b then c else d).
Proof. destruct b; auto. Qed.

(** ** updateAnimations only turns meshes *)

Lemma add_spins_nil o : add_spins [] o = o.
Proof. destruct o; reflexivity. Qed.

Lemma add_spins_app a b o : add_spins a (add_spins b o) = add_spins (a ++ b) o.
Proof. unfold add_spins; cbn. rewrite app_assoc. reflexivity. Qed.

Lemma turned_refl (l : list Mesh) :
  Forall2 (fun o o' => exists added, o' = add_spins added o) l l.
Proof.
  induction l as [|o l IH]; constructor; [|exact IH].
  exists []. symmetry. apply add_spins_nil.
Qed.

Lemma turned_trans (l1 l2 l3 : list Mesh) :
  Forall2 (fun o o' => exists added, o' = add_spins added o) l1 l2 ->
  Forall2 (fun o o' => exists added, o' = add_spins added o) l2 l3 ->
  Forall2 (fun o o' => exists added, o' = add_spins added o) l1 l3.
Proof.
  intros H12. revert l3. induction H12 as [|a b l1 l2 [x ->] _ IH]; intros l3 H23.
  - inversion H23. constructor.
  - inversion H23 as [|b' c l2' l3' [y ->] Hrest]; subst. constructor.
    + exists (y ++ x). apply add_spins_app.
    + apply IH, Hrest.
Qed.

Lemma only_turned_refl r : only_turned r r.
Proof. split; [destruct r; reflexivity|apply turned_refl]. Qed.

Lemma only_turned_trans r1 r2 r3 :
  only_turned r1 r2 -> only_turned r2 r3 -> only_turned r1 r3.
Proof.
  intros [E1 F1] [E2 F2]. split.
  - rewrite E2 at 1. rewrite E1 at 1. reflexivity.
  - exact (turned_trans _ _ _ F1 F2).
Qed.

Lemma update_nth_turned i sp (l : list Mesh) :
  Forall2 (fun o o' => exists added, o' = add_spins added o) l
          (update_nth i (premultiply sp) l).
Proof.
  revert i. induction l as [|o l IH]; intros i; [destruct i; constructor|].
  destruct i as [|i]; cbn [update_nth]; constructor.
  - exists [sp]. reflexivity.
  - apply turned_refl.
  - exists []. symmetry. apply add_spins_nil.
  - apply IH.
Qed.

Lemma apply_motion_only_turns delta m : keeps only_turned (apply_motion delta m).
Proof.
  unfold apply_motion.
  pose proof only_turned_refl as Hr. pose proof only_turned_trans as Ht.
  apply keeps_if; [apply keeps_ret, Hr|].
  apply keeps_bind; [exact Ht|apply keeps_lift, Hr|intros ty].
  apply keeps_if; [|apply keeps_ret, Hr].
  apply keeps_bind; [exact Ht|apply keeps_lift, Hr|intros targetName].
  apply keeps_bind; [exact Ht|apply keeps_lift, Hr|intros axis].
  apply keeps_bind; [exact Ht|apply keeps_lift, Hr|intros speed].
  apply keeps_bind; [exact Ht|apply keeps_get_state, Hr|intros r].
  apply keeps_bind; [exact Ht|apply keeps_lift, Hr|intros [i|]];
    [|apply keeps_ret, Hr].
  apply keeps_bind; [exact Ht|apply keeps_lift, Hr|intros ax].
  apply keeps_bind; [exact Ht|apply keeps_lift, Hr|intros angle].
  apply keeps_modify. intros s. split.
  - destruct s; reflexivity.
  - apply update_nth_turned.
Qed.

Lemma updateAnimations_keeps delta : keeps only_turned (updateAnimations delta).
Proof.
  intros r. rewrite updateAnimations_forEach.
  apply keeps_forEach;
    [apply only_turned_refl|apply only_turned_trans|intros evt].
  unfold animate_event.
  apply keeps_bind; [apply only_turned_trans|apply keeps_get_state, only_turned_refl|].
  intros r0.
  apply keeps_bind; [apply only_turned_trans|apply keeps_lift, only_turned_refl|].
  intros out. apply keeps_if; [apply keeps_ret, only_turned_refl|].
  apply apply_motion_only_turns.
Qed.

(** X6.  However a call of updateAnimations ends, normally or in an exception
    of a conversion, it has changed nothing of the renderer but the
    orientation of meshes: the meshes are the same ones in the same order,
    each turned by the rotations it had and possibly more, and the motions,
    the timeline events, the clock and the camera are as they were.  With no
    timeline event nothing changes at all. *)
Theorem updateAnimations_only_turns (delta : number) (r : Renderer) :
  only_turned r (snd (updateAnimations delta r)) /\
  List.length (objects (snd (updateAnimations delta r))) = List.length (objects r) /\
  map mesh_name (objects (snd (updateAnimations delta r))) = map mesh_name (objects r) /\
  timelineEvents (snd (updateAnimations delta r)) = timelineEvents r /\
  currentTime (snd (updateAnimations delta r)) = currentTime r /\
  (timelineEvents r = [] -> updateAnimations delta r = (Ok tt, r)).
Proof.
  pose proof (updateAnimations_keeps delta r) as [E F].
  split; [split; assumption|].
  split; [symmetry; exact (Forall2_length F)|].
  split.
  { clear E. induction F as [|o o' l l' [added ->] _ IH]; [reflexivity|].
    cbn [map]. rewrite IH. reflexivity. }
  split; [rewrite E; reflexivity|]. split; [rewrite E; reflexivity|].
  intros H. unfold updateAnimations, bind, get_state. rewrite H. reflexivity.
Qed.

(** ** One frame *)

Lemma num_sub_self x : is_finite_number x = true -> num_sub x x = num_zero.
Proof.
  destruct x as [[]| | |s m e]; cbn; try discriminate; intros _; try reflexivity.
  unfold num_sub, SFsub. rewrite Z.sub_diag. reflexivity.
Qed.

Lemma frame_delta_bounded timestamp r :
  is_nan (frame_delta timestamp r) = false ->
  num_leb (frame_delta timestamp r) num_tenth = true.
Proof.
  unfold frame_delta. intros H. rewrite math_min_nan in H.
  apply orb_false_elim in H as [Hx Ht].
  apply (math_min_spec _ _ Hx Ht).
Qed.

(** X7.  One frame of the loop.  It always stores its timestamp.  While the
    renderer is paused it changes nothing else: neither the clock nor any
    mesh.  While it plays, the clock advances by the frame's delta, which is
    the time since the last frame in seconds but never more than 0.1, and
    which is 0 for the first frame; the meshes are at most turned.  When
    updateAnimations throws, the counters of the page keep their text. *)
Theorem animate_frame (timestamp : number) (r : Renderer) (hud : Hud) :
  lastTimestamp (fst (snd (animate timestamp (r, hud)))) = Some timestamp /\
  (isPlaying r = false ->
     fst (animate timestamp (r, hud)) = Ok tt /\
     fst (snd (animate timestamp (r, hud))) = set_lastTimestamp (Some timestamp) r) /\
  (isPlaying r = true ->
     currentTime (fst (snd (animate timestamp (r, hud))))
       = num_add (currentTime r) (frame_delta timestamp r) /\
     only_turned
       (set_currentTime (num_add (currentTime r) (frame_delta timestamp r))
          (set_lastTimestamp (Some timestamp) r))
       (fst (snd (animate timestamp (r, hud))))) /\
  (is_nan (frame_delta timestamp r) = false ->
     num_leb (frame_delta timestamp r) num_tenth = true) /\
  (lastTimestamp r = None -> is_finite_number timestamp = true ->
     frame_delta timestamp r = num_zero) /\
  (forall e, fst (animate timestamp (r, hud)) = Throw e ->
     snd (snd (animate timestamp (r, hud))) = hud).
Proof.
  unfold animate. cbn [fst snd isPlaying set_lastTimestamp currentTime].
  pose proof (updateAnimations_keeps (frame_delta timestamp r)
                (set_currentTime (num_add (currentTime r) (frame_delta timestamp r))
                   (set_lastTimestamp (Some timestamp) r))) as K.
  destruct (isPlaying r) eqn:Hp.
  - destruct (updateAnimations _ _) as [[[]|e] r2]; cbn [fst snd] in *;
      destruct K as [E F];
      (split; [rewrite E; reflexivity|]);
      (split; [discriminate|]);
      (split; [intros _; split; [rewrite E; reflexivity|split; assumption]|]);
      (split; [apply frame_delta_bounded|]);
      (split; [|first [discriminate | reflexivity]]);
      intros Hl Hf; unfold frame_delta; rewrite Hl, (num_sub_self _ Hf); reflexivity.
  - cbn [fst snd].
    split; [reflexivity|]. split; [intros _; split; reflexivity|].
    split; [discriminate|]. split; [apply frame_delta_bounded|].
    split; [|discriminate].
    intros Hl Hf. unfold frame_delta. rewrite Hl, (num_sub_self _ Hf). reflexivity.
Qed.

(** ** The orbit controls *)

(** X8.  Dragging keeps the inclination of the camera between 0.01 and pi -
    0.01 and the wheel keeps its distance between 0.5 and 200, unless the
    value is NaN to begin with, which the clamps let through.  A pointer that
    moves while no button is down changes nothing.  Where the camera is put
    depends on the controls alone, so a resetCamera or a clearScene in between
    is undone by the next drag or wheel event. *)
Theorem orbit_stays_in_bounds :
  (forall w h e c r,
     isDragging c = true ->
     let c' := fst (on_pointermove w h e (c, r)) in
     radius (cameraSpherical c') = radius (cameraSpherical c) /\
     (is_nan (phi (cameraSpherical c')) = false ->
      within num_hundredth (num_sub math_pi num_hundredth)
             (phi (cameraSpherical c')) = true)) /\
  (forall w h e c r, isDragging c = false -> on_pointermove w h e (c, r) = (c, r)) /\
  (forall deltaY c r,
     let c' := fst (on_wheel deltaY (c, r)) in
     theta (cameraSpherical c') = theta (cameraSpherical c) /\
     phi (cameraSpherical c') = phi (cameraSpherical c) /\
     (is_nan (radius (cameraSpherical c')) = false ->
      within num_half (num_of_Z 200) (radius (cameraSpherical c')) = true)) /\
  (forall w h e deltaY c r r0,
     isDragging c = true ->
     cameraPosition (snd (on_pointermove w h e (c, r)))
       = cameraPosition (snd (on_pointermove w h e (c, r0))) /\
     cameraPosition (snd (on_wheel deltaY (c, r)))
       = cameraPosition (snd (on_wheel deltaY (c, r0)))).
Proof.
  split; [|split; [|split]].
  - intros w h e c r Hd. unfold on_pointermove. cbn [fst]. rewrite Hd. cbn [negb fst].
    cbn [set_cameraSpherical cameraSpherical radius phi].
    split; [reflexivity|]. intros Hn.
    destruct (clamp_within num_hundredth (num_sub math_pi num_hundredth)
                (num_sub (phi (sphericalStart c))
                   (num_mul (num_div (num_sub (clientY e) (snd (dragStart c)))
                               (math_max num_one h))
                            (num_mul math_pi num_six_fifths)))
                eq_refl) as [En Hw].
    apply Hw. rewrite <- En. exact Hn.
  - intros w h e c r Hd. unfold on_pointermove. cbn [fst]. rewrite Hd. reflexivity.
  - intros deltaY c r. unfold on_wheel. cbn [fst set_cameraSpherical cameraSpherical
                                              radius theta phi].
    split; [reflexivity|]. split; [reflexivity|]. intros Hn.
    destruct (clamp_within num_half (num_of_Z 200)
                (num_mul (radius (cameraSpherical c))
                         (num_add num_one (num_mul deltaY num_hundredth)))
                eq_refl) as [En Hw].
    apply Hw. rewrite <- En. exact Hn.
  - intros w h e deltaY c r r0 Hd. unfold on_pointermove, on_wheel. cbn [fst snd].
    rewrite Hd. cbn [negb snd]. unfold updateCameraFromSpherical.
    split.
    + destruct (cameraTarget _) as [[tx ty] tz]. reflexivity.
    + destruct (cameraTarget _) as [[tx ty] tz]. reflexivity.
Qed.

(** ** findObjectByName *)

Lemma object_matches_string s o : exists b, object_matches (JStr s) o = Ok b.
Proof.
  unfold object_matches.
  destruct (strict_eq (mesh_name o) (JStr s)); [eauto|].
  destruct (strict_eq (js_get_opt (mesh_userData o) "id") (JStr s)); [eauto|].
  cbn [to_string rbind]. eauto.
Qed.

Lemma findObjectByName_string s l : exists found, findObjectByName (JStr s) l = Ok found.
Proof.
  induction l as [|o l [found IH]]; cbn [findObjectByName]; [eauto|].
  destruct (object_matches_string s o) as [b ->]. cbn [rbind].
  destruct b; [eauto|]. rewrite IH. cbn [rbind]. eauto.
Qed.

(** X9.  findObjectByName answers with the first mesh that matches the name:
    the mesh at the position it returns matches and none before it does; when
    it finds nothing, no mesh matches; and it throws only the exception of a
    comparison it made.  For a name that is a string it always answers. *)
Theorem findObjectByName_first_match (name : JsVal) (l : list Mesh) :
  (forall i, findObjectByName name l = Ok (Some i) ->
     exists o, nth_error l i = Some o /\ object_matches name o = Ok true /\
       forall j o', (j < i)%nat -> nth_error l j = Some o' ->
         object_matches name o' = Ok false) /\
  (findObjectByName name l = Ok None ->
     forall o, In o l -> object_matches name o = Ok false) /\
  (forall e, findObjectByName name l = Throw e ->
     exists o, In o l /\ object_matches name o = Throw e) /\
  (forall s, name = JStr s -> exists found, findObjectByName name l = Ok found).
Proof.
  induction l as [|o l (IH1 & IH2 & IH3 & IH4)].
  - cbn [findObjectByName]. split; [discriminate|]. split; [intros _ o []|].
    split; [discriminate|]. eauto.
  - cbn [findObjectByName]. unfold rbind.
    destruct (object_matches name o) as [[|]|e0] eqn:Hm.
    + split.
      { intros i [= <-]. exists o. split; [reflexivity|]. split; [exact Hm|].
        intros j o' Hj. inversion Hj. }
      split; [discriminate|]. split; [discriminate|]. eauto.
    + destruct (findObjectByName name l) as [[k|]|e1] eqn:Hf; cbn [option_map].
      * split.
        { intros i [= <-]. destruct (IH1 k eq_refl) as (o1 & Hn & Hm1 & Hb).
          exists o1. split; [exact Hn|]. split; [exact Hm1|].
          intros [|j] o' Hj Hn'; cbn [nth_error] in Hn'.
          - injection Hn' as <-. exact Hm.
          - apply (Hb j); [apply PeanoNat.lt_S_n, Hj|exact Hn']. }
        split; [discriminate|]. split; [discriminate|]. eauto.
      * split; [discriminate|].
        split.
        { intros _ o' [<-|Hin]; [exact Hm|apply IH2; [reflexivity|exact Hin]]. }
        split; [discriminate|]. eauto.
      * split; [discriminate|]. split; [discriminate|].
        split.
        { intros e [= <-]. destruct (IH3 e1 eq_refl) as (o1 & Hin & Hm1).
          exists o1. split; [right; exact Hin|exact Hm1]. }
        intros s Hs. destruct (IH4 s Hs) as [found Hfound]. discriminate.
    + split; [discriminate|]. split; [discriminate|].
      split.
      { intros e [= <-]. exists o. split; [left; reflexivity|exact Hm]. }
      intros s ->. destruct (object_matches_string s o) as [b Hb]. congruence.
Qed.

Lemma findObjectByName_app_hit name l o :
  object_matches name o = Ok true ->
  (forall e, findObjectByName name l <> Throw e) ->
  exists i, findObjectByName name (l ++ [o]) = Ok (Some i) /\
            (i <= List.length l)%nat /\
            (findObjectByName name l = Ok None -> i = List.length l).
Proof.
  intros Hm. induction l as [|x l IH]; intros Hne.
  - cbn [app findObjectByName rbind]. rewrite Hm. cbn [rbind].
    exists 0%nat. split; [reflexivity|]. split; [apply le_n|reflexivity].
  - cbn [app findObjectByName] in *. unfold rbind in *.
    destruct (object_matches name x) as [[|]|e0].
    + exists 0%nat. split; [reflexivity|]. split; [apply Nat.le_0_l|discriminate].
    + destruct IH as (i & Hi & Hle & Hnone).
      { intros e He. apply (Hne e). rewrite He. reflexivity. }
      rewrite Hi. cbn [option_map]. exists (S i). split; [reflexivity|].
      split; [cbn [List.length]; apply le_n_S, Hle|].
      destruct (findObjectByName name l) as [[k|]|e1]; cbn [option_map];
        try discriminate.
      intros _. cbn [List.length]. f_equal. apply Hnone. reflexivity.
    + exfalso. apply (Hne e0). reflexivity.
Qed.

(** X10.  A mesh that createEntityMesh has made under a name that is a string
    is found under that name afterwards.  What is found is that mesh when no
    earlier mesh answers to the name, and an earlier one otherwise: of two
    meshes of one name only the first is ever found. *)
Theorem created_mesh_is_found (s : string) (entity : JsVal) (r : Renderer) :
  is_nullish entity = false ->
  exists r' i,
    createEntityMesh (JStr s) entity r = (Ok tt, r') /\
    List.length (objects r') = S (List.length (objects r)) /\
    findObjectByName (JStr s) (objects r') = Ok (Some i) /\
    (i <= List.length (objects r))%nat /\
    (findObjectByName (JStr s) (objects r) = Ok None -> i = List.length (objects r)).
Proof.
  intros H. destruct (createEntityMesh_run (JStr s) entity r H) as (geom & _ & Hrun).
  rewrite Hrun. eexists. 
  destruct (findObjectByName_app_hit (JStr s) (objects r)
              (mesh_of (JStr s) entity geom
                 (nth (random_index (randomCalls r) mod 8) colors 0%Z)))
    as (i & Hi & Hle & Hnone).
  { unfold object_matches. cbn [mesh_of mesh_name strict_eq].
    rewrite String.eqb_refl. reflexivity. }
  { intros e He. destruct (findObjectByName_string s (objects r)) as [found Hf].
    congruence. }
  exists i. split; [reflexivity|].
  unfold with_mesh. cbn [objects set_objects set_randomCalls].
  split; [rewrite length_app, Nat.add_comm; reflexivity|].
  split; [exact Hi|]. split; assumption.
Qed.

(** ** Loading a scene *)

Lemma same_playback_refl r : same_playback r r.
Proof. repeat split. Qed.

Lemma same_playback_trans r1 r2 r3 :
  same_playback r1 r2 -> same_playback r2 r3 -> same_playback r1 r3.
Proof.
  intros (A1 & B1 & C1) (A2 & B2 & C2). repeat split; congruence.
Qed.

Lemma same_objects_refl r : same_objects r r.
Proof. reflexivity. Qed.

Lemma same_objects_trans r1 r2 r3 :
  same_objects r1 r2 -> same_objects r2 r3 -> same_objects r1 r3.
Proof. unfold same_objects. congruence. Qed.

Lemma loadMotions_keeps (R : Renderer -> Renderer -> Prop) ms tls :
  (forall r, R r r) -> (forall x y z, R x y -> R y z -> R x z) ->
  (forall v r, R r (set_motions v r)) ->
  (forall v r, R r (set_timelineEvents v r)) ->
  keeps R (loadMotions ms tls).
Proof.
  intros Hr Ht Hm He. unfold loadMotions.
  apply keeps_bind; [exact Ht|apply keeps_modify, Hm|intros _].
  apply keeps_bind; [exact Ht|apply keeps_modify, He|intros _].
  apply keeps_bind; [exact Ht|apply keeps_get_state, Hr|intros r].
  apply keeps_bind; [exact Ht|apply keeps_lift, Hr|intros items].
  apply keeps_bind; [exact Ht|apply keeps_lift, Hr|intros motionMap].
  apply keeps_bind; [exact Ht|apply keeps_lift, Hr|intros tls'].
  apply keeps_forEach; [exact Hr|exact Ht|intros tl].
  apply keeps_bind; [exact Ht|apply keeps_lift, Hr|intros evs0].
  apply keeps_bind; [exact Ht|apply keeps_lift, Hr|intros evs].
  apply keeps_forEach; [exact Hr|exact Ht|intros ev].
  apply keeps_bind; [exact Ht|apply keeps_lift, Hr|intros entries].
  apply keeps_modify. intros s. apply He.
Qed.

Lemma createEntityMesh_keeps_playback name entity :
  keeps same_playback (createEntityMesh name entity).
Proof.
  pose proof same_playback_refl as Hr. pose proof same_playback_trans as Ht.
  unfold createEntityMesh.
  apply keeps_try_catch; [exact Ht| |].
  2:{ intros e. apply keeps_bind; [exact Ht|apply keeps_lift, Hr|intros shown].
      apply keeps_ret, Hr. }
  apply keeps_bind; [exact Ht|apply keeps_lift, Hr|intros [[[position rotation] scale] primitive]].
  apply keeps_bind; [exact Ht|apply keeps_lift, Hr|intros geom].
  apply keeps_bind; [exact Ht|intros s; repeat split|intros c].
  apply keeps_bind; [exact Ht|apply keeps_lift, Hr|intros pos].
  apply keeps_bind; [exact Ht|apply keeps_lift, Hr|intros rot].
  apply keeps_bind; [exact Ht|apply keeps_modify; intros s; repeat split|intros _].
  apply keeps_bind; [exact Ht|apply keeps_lift, Hr|intros shown].
  apply keeps_bind; [exact Ht|apply keeps_lift, Hr|intros kind].
  apply keeps_ret, Hr.
Qed.

Lemma clearScene_keeps_playback : keeps same_playback clearScene.
Proof. intros r. repeat split. Qed.

Lemma load_motions_if_any_keeps (R : Renderer -> Renderer -> Prop) scene :
  (forall r, R r r) -> (forall x y z, R x y -> R y z -> R x z) ->
  (forall v r, R r (set_motions v r)) ->
  (forall v r, R r (set_timelineEvents v r)) ->
  keeps R (load_motions_if_any scene).
Proof.
  intros Hr Ht Hm He. unfold load_motions_if_any.
  apply keeps_bind; [exact Ht|apply keeps_lift, Hr|intros ms].
  apply keeps_bind; [exact Ht|apply keeps_lift, Hr|intros tls].
  apply keeps_if; [apply loadMotions_keeps; assumption|apply keeps_ret, Hr].
Qed.

(** What loadScene runs after the meshes are made: it stops in
    fitCameraToScene. *)
Lemma loadScene_tail_keeps (R : Renderer -> Renderer -> Prop) scene :
  (forall r, R r r) -> (forall x y z, R x y -> R y z -> R x z) ->
  (forall v r, R r (set_motions v r)) ->
  (forall v r, R r (set_timelineEvents v r)) ->
  (forall v r, R r (set_objectCount v r)) ->
  keeps R (load_motions_if_any scene ;;;
           modify (fun r => set_objectCount (List.length (objects r)) r) ;;;
           fitCameraToScene ;;;
           modify (set_currentTime num_zero) ;;;
           modify (set_lastTimestamp None)).
Proof.
  intros Hr Ht Hm He Hc.
  apply keeps_bind; [exact Ht|apply load_motions_if_any_keeps; assumption|intros _].
  apply keeps_bind; [exact Ht|apply keeps_modify; intros s; apply Hc|intros _].
  intros s. apply Hr.
Qed.

(** X11.  loadScene never rewinds: whatever it is given, the play flag, the
    clock and the last timestamp of the renderer are afterwards what they were
    before.  The two assignments that would reset the clock come after
    fitCameraToScene, which does not return. *)
Theorem loadScene_keeps_playback (scene : JsVal) (r : Renderer) :
  same_playback r (snd (loadScene scene r)).
Proof.
  pose proof same_playback_refl as Hr. pose proof same_playback_trans as Ht.
  revert r. change (keeps same_playback (loadScene scene)). unfold loadScene.
  apply keeps_bind; [exact Ht|apply clearScene_keeps_playback|intros _].
  apply keeps_if; [apply keeps_ret, Hr|].
  apply keeps_try_catch; [exact Ht| |intros e; apply keeps_throw, Hr].
  apply keeps_bind; [exact Ht|apply keeps_lift, Hr|intros entities].
  apply keeps_bind; [exact Ht| |intros _].
  - apply keeps_if; [|apply keeps_ret, Hr].
    apply keeps_forEach; [exact Hr|exact Ht|intros entity].
    apply keeps_bind; [exact Ht|apply keeps_lift, Hr|intros id].
    apply createEntityMesh_keeps_playback.
  - apply loadScene_tail_keeps; try assumption; intros; repeat split.
Qed.

Lemma palette_colour k : In (nth (k mod 8) colors 0%Z) colors.
Proof.
  apply nth_In. change (List.length colors) with 8%nat.
  apply Nat.mod_upper_bound. discriminate.
Qed.

Lemma reached_all (es : list JsVal) :
  Forall (fun e => loggable (entity_name e) = true) es -> reached es = es.
Proof.
  induction 1 as [|e es He _ IH]; [reflexivity|].
  cbn [reached]. rewrite He, IH. reflexivity.
Qed.

(** The loop of loadScene over the entities *)
Lemma create_all (es : list JsVal) (r : Renderer) :
  Forall (fun e => is_nullish e = false) es ->
  exists res r' meshes,
    forEach es (fun entity =>
      id <- lift (js_get entity "id") ;;
      createEntityMesh (js_or id (JStr "unknown")) entity) r = (res, r') /\
    objects r' = objects r ++ meshes /\
    map mesh_name meshes = map entity_name (reached es) /\
    map mesh_userData meshes = reached es /\
    Forall (fun o => In (mesh_color o) colors /\ mesh_spins o = []) meshes /\
    (Forall (fun e => loggable (entity_name e) = true) es -> res = Ok tt).
Proof.
  intros H. revert r. induction H as [|e es He _ IH]; intros r.
  - exists (Ok tt), r, []. cbn [forEach]. split; [reflexivity|].
    split; [symmetry; apply app_nil_r|]. repeat split. constructor.
  - cbn [forEach]. unfold bind at 1. unfold bind at 1. unfold lift at 1.
    rewrite (js_get_total e "id" He).
    destruct (createEntityMesh_run (js_or (js_get_opt e "id") (JStr "unknown")) e r He)
      as (geom & _ & ->).
    fold (entity_name e). cbn [reached]. cbv [loggable].
    destruct (to_string (entity_name e)) as [shown|e0] eqn:Hshown.
    + destruct (IH (with_mesh
                      (mesh_of (entity_name e) e geom
                         (nth (random_index (randomCalls r) mod 8) colors 0%Z)) r))
        as (res & r' & meshes & Hrun & Hobj & Hn & Hu & Hc & Hok).
      exists res, r'. eexists (_ :: meshes). split; [exact Hrun|].
      split.
      { rewrite Hobj. unfold with_mesh. cbn [objects set_objects set_randomCalls].
        rewrite <- app_assoc. reflexivity. }
      cbn [map mesh_of mesh_name mesh_userData]. rewrite Hn, Hu.
      split; [reflexivity|]. split; [reflexivity|].
      split; [constructor; [split; [apply palette_colour|reflexivity]|exact Hc]|].
      intros Hall. apply Hok. exact (Forall_inv_tail Hall).
    + eexists (Throw e0), _, [_]. split; [reflexivity|].
      split; [reflexivity|].
      cbn [map mesh_of mesh_name mesh_userData].
      split; [reflexivity|]. split; [reflexivity|].
      split; [constructor; [split; [apply palette_colour|reflexivity]|constructor]|].
      intros Hall. pose proof (Forall_inv Hall) as Hl. cbv [loggable] in Hl.
      rewrite Hshown in Hl. discriminate Hl.
Qed.

(** X12.  loadScene on a scene with entities, none of them [null] or
    [undefined] (an array of them, or an object with them as its values):
    although the call ends with an exception, the renderer then holds exactly
    one mesh for each entity it got to, in the order of the entities, each
    named by its entity's [id] (or [unknown] when that is missing or falsy),
    carrying its entity as [userData] and coloured from the palette.  It gets
    to every entity when every name has a string conversion, and otherwise
    stops behind the first entity whose name has none.  The meshes of the
    previous scene are gone. *)
Theorem loadScene_builds_meshes (scene ents : JsVal) (r : Renderer) :
  truthy scene = true ->
  js_get scene "entities" = Ok ents -> truthy ents = true ->
  Forall (fun e => is_nullish e = false) (entities_list ents) ->
  (exists e, fst (loadScene scene r) = Throw e) /\
  map mesh_userData (objects (snd (loadScene scene r))) = reached (entities_list ents) /\
  map mesh_name (objects (snd (loadScene scene r)))
    = map entity_name (reached (entities_list ents)) /\
  Forall (fun o => In (mesh_color o) colors) (objects (snd (loadScene scene r))) /\
  (Forall (fun e => loggable (entity_name e) = true) (entities_list ents) ->
   reached (entities_list ents) = entities_list ents).
Proof.
  intros Hs He Ht Hall.
  split.
  { destruct (loadScene_throws scene r Hs) as (e & r' & ->). exists e. reflexivity. }
  assert (E : exists meshes,
            objects (snd (loadScene scene r)) = meshes /\
            map mesh_userData meshes = reached (entities_list ents) /\
            map mesh_name meshes = map entity_name (reached (entities_list ents)) /\
            Forall (fun o => In (mesh_color o) colors) meshes).
  2:{ destruct E as (meshes & -> & Hu & Hn & Hc).
      split; [exact Hu|]. split; [exact Hn|]. split; [exact Hc|]. apply reached_all. }
  unfold loadScene. rewrite Hs. cbn [negb].
  unfold bind at 1. unfold clearScene at 1. unfold bind at 1, modify at 1.
  unfold bind at 1, modify at 1. unfold bind at 1, modify at 1. unfold modify at 1.
  set (r0 := set_cameraPosition home_camera
               (set_timelineEvents [] (set_motions (JArr []) (set_objects [] r)))).
  unfold try_catch. unfold bind at 1. unfold lift at 1. rewrite He, Ht.
  unfold bind at 1.
  destruct (create_all (entities_list ents) r0 Hall)
    as (res & r1 & meshes & -> & Hobj & Hn & Hu & Hc & _).
  change (objects r0) with (@nil Mesh) in Hobj. cbn [app] in Hobj.
  exists meshes.
  split; [|split; [exact Hu|split; [exact Hn|apply (Forall_impl _ (fun o H => proj1 H) Hc)]]].
  destruct res as [[]|e0]; [|exact Hobj].
  match goal with
  | |- context [bind ?c ?k r1] =>
      pose proof (loadScene_tail_keeps same_objects scene same_objects_refl
                    same_objects_trans (fun _ _ => eq_refl) (fun _ _ => eq_refl)
                    (fun _ _ => eq_refl) r1) as K
  end.
  match type of K with
  | same_objects r1 (snd (?c r1)) => destruct (c r1) as [[[]|e] r2]
  end; cbn [snd throw] in *; unfold same_objects in K; rewrite K; exact Hobj.
Qed.

(** ** app.js: what every run of handleCompile does *)

Lemma same_wire_refl a : same_wire a a.
Proof. split; reflexivity. Qed.

Lemma same_wire_trans a1 a2 a3 : same_wire a1 a2 -> same_wire a2 a3 -> same_wire a1 a3.
Proof. intros [A1 B1] [A2 B2]. split; congruence. Qed.

Lemma keeps_on_renderer {A} (R : App -> App -> Prop) (c : M Renderer A) :
  (forall a r', R a (set_renderer r' a)) -> keeps R (on_renderer c).
Proof.
  intros H a. unfold on_renderer. destruct (c (renderer a)) as [res r']. apply H.
Qed.

Lemma show_scene_keeps_wire ir_scene : keeps same_wire (show_scene ir_scene).
Proof.
  pose proof same_wire_refl as Hr. pose proof same_wire_trans as Ht.
  unfold show_scene.
  apply keeps_bind; [exact Ht|apply keeps_on_renderer; intros; split; reflexivity|intros _].
  apply keeps_bind; [exact Ht|apply keeps_modify; intros; split; reflexivity|intros _].
  apply keeps_bind; [exact Ht|apply keeps_get_state, Hr|intros a].
  apply keeps_bind; [exact Ht|apply keeps_on_renderer; intros; split; reflexivity|intros _].
  apply keeps_bind; [exact Ht|apply keeps_modify; intros; split; reflexivity|intros _].
  apply keeps_bind; [exact Ht|apply keeps_lift, Hr|intros entities].
  apply keeps_modify; intros; split; reflexivity.
Qed.

Lemma show_failure_keeps (R : App -> App -> Prop) compileResult :
  (forall a, R a a) -> (forall x y z, R x y -> R y z -> R x z) ->
  (forall t ty a, R a (set_status t ty a)) ->
  keeps R (show_failure compileResult).
Proof.
  intros Hr Ht Hs. unfold show_failure.
  apply keeps_bind; [exact Ht|apply keeps_lift, Hr|intros errs].
  apply keeps_bind; [exact Ht|apply keeps_lift, Hr|intros joined].
  apply keeps_bind; [exact Ht|apply keeps_lift, Hr|intros errors].
  apply keeps_modify; intros; apply Hs.
Qed.

(** What follows the validate response in handleCompile's [try] block *)
Lemma after_validate_wire (src : string) (validateResult : JsVal) (a : App) res a' :
  (valid <- lift (js_get validateResult "valid") ;;
   if negb (truthy valid) then
     errs <- lift (js_get validateResult "errors") ;;
     errors <- lift (js_join "validateResult.errors" errs "; ") ;;
     updateStatus ("Validation failed: " ++ errors) "error" ;;;
     showLoading false
   else
     compileResult <- fetch_json (compile_request src) ;;
     success <- lift (js_get compileResult "success") ;;
     ir_scene <- lift (if truthy success then js_get compileResult "ir_scene"
                       else Ok success) ;;
     if truthy success && truthy ir_scene
     then show_scene ir_scene
     else show_failure compileResult) a = (res, a') ->
  dslInput a' = dslInput a /\
  requests a'
  = requests a ++
    (if match js_get validateResult "valid" with
        | Ok valid => truthy valid
        | Throw _ => false
        end
     then [compile_request src] else []).
Proof.
  pose proof same_wire_refl as Hr. pose proof same_wire_trans as Ht.
  unfold bind at 1. unfold lift at 1.
  destruct (js_get validateResult "valid") as [valid|e];
    [|intros [= _ <-]; rewrite app_nil_r; split; reflexivity].
  destruct (truthy valid); cbn [negb].
  - unfold bind at 1. unfold fetch_json at 1.
    destruct (server (compile_request src)) as [compileResult|e];
      [|intros [= _ <-]; split; reflexivity].
    intros E.
    assert (K : keeps same_wire
                  (success <- lift (js_get compileResult "success") ;;
                   ir_scene <- lift (if truthy success
                                     then js_get compileResult "ir_scene"
                                     else Ok success) ;;
                   if truthy success && truthy ir_scene
                   then show_scene ir_scene
                   else show_failure compileResult)).
    { apply keeps_bind; [exact Ht|apply keeps_lift, Hr|intros success].
      apply keeps_bind; [exact Ht|apply keeps_lift, Hr|intros ir_scene].
      apply keeps_if; [apply show_scene_keeps_wire|].
      apply show_failure_keeps; [exact Hr|exact Ht|intros; split; reflexivity]. }
    specialize (K (set_requests (requests a ++ [compile_request src]) a)).
    rewrite E in K. cbn [snd] in K. destruct K as [A B].
    split; [rewrite B|rewrite A]; reflexivity.
  - intros E.
    assert (K : keeps same_wire
                  (errs <- lift (js_get validateResult "errors") ;;
                   errors <- lift (js_join "validateResult.errors" errs "; ") ;;
                   updateStatus ("Validation failed: " ++ errors) "error" ;;;
                   showLoading false)).
    { apply keeps_bind; [exact Ht|apply keeps_lift, Hr|intros errs].
      apply keeps_bind; [exact Ht|apply keeps_lift, Hr|intros errors].
      apply keeps_bind; [exact Ht|apply keeps_modify; intros; split; reflexivity|intros _].
      apply keeps_modify; intros; split; reflexivity. }
    specialize (K a). rewrite E in K. cbn [snd] in K. destruct K as [A B].
    rewrite app_nil_r. split; assumption.
Qed.

(** X14.  Every run of handleCompile returns normally: no exception of a
    request, of a malformed response or of the renderer leaves it.  It never
    changes the editor text.  With a blank editor it only sets the status and
    sends nothing.  Otherwise it ends with the loading overlay hidden, and it
    has sent the validate request and, after it and only when that came back
    with a truthy [valid], the compile request, and nothing else. *)
Theorem handleCompile_settles (a : App) :
  fst (handleCompile a) = Ok tt /\
  dslInput (snd (handleCompile a)) = dslInput a /\
  (trim (dslInput a) = "" ->
     snd (handleCompile a) = set_status "Please enter DSL code" "error" a) /\
  (trim (dslInput a) <> "" ->
     loadingHidden (snd (handleCompile a)) = true /\
     requests (snd (handleCompile a))
     = requests a ++
       validate_request (trim (dslInput a)) ::
       (if validated (trim (dslInput a))
        then [compile_request (trim (dslInput a))] else [])).
Proof.
  destruct (handleCompile a) as [res a'] eqn:E. cbn [fst snd].
  revert E. unfold handleCompile. unfold bind at 1. unfold get_state at 1.
  destruct (trim (dslInput a) =? "") eqn:Hsrc.
  { apply String.eqb_eq in Hsrc. intros [= <- <-].
    split; [reflexivity|]. split; [reflexivity|]. split; [reflexivity|].
    intros Hb. contradiction. }
  apply String.eqb_neq in Hsrc.
  unfold bind at 1. unfold updateStatus at 1. unfold modify at 1.
  unfold bind at 1. unfold showLoading at 1. unfold modify at 1.
  cbn [negb].
  set (a1 := set_loadingHidden false (set_status "Compiling..." "loading" a)).
  set (src := trim (dslInput a)) in *.
  unfold try_finally, try_catch.
  unfold bind at 1. unfold fetch_json at 1.
  set (a2 := set_requests (requests a1 ++ [validate_request src]) a1).
  unfold validated.
  destruct (server (validate_request src)) as [validateResult|e].
  2:{ intros [= <- <-]. split; [reflexivity|]. split; [reflexivity|].
      split; [intros Hb; contradiction|]. intros _. split; reflexivity. }
  match goal with
  | |- (let (_, _) := match ?c a2 with _ => _ end in _) = _ -> _ =>
      pose proof (after_validate_wire src validateResult a2) as W;
      destruct (c a2) as [[[]|e] a3]
  end;
    destruct (W _ _ eq_refl) as [Wd Wr]; clear W;
    intros [= <- <-];
    cbn [updateStatus modify set_status set_loadingHidden dslInput loadingHidden
         requests fst snd];
    (split; [reflexivity|]);
    (split; [rewrite Wd; reflexivity|]);
    (split; [intros Hb; contradiction|]);
    intros _; (split; [reflexivity|]);
    rewrite Wr; cbn [a2 requests set_requests a1 set_loadingHidden set_status];
    rewrite <- app_assoc; reflexivity.
Qed.

(** X15.  The exceptions handleCompile catches.  When the validate request
    fails, when the compile request fails, or when the validate response is
    not valid and its [errors] cannot be joined (the field is missing, or is
    not an array), the run reports "Error: " followed by the message of the
    exception, and the renderer, the application state and the buttons are
    what they were.  In the last case the user is not told that validation
    failed. *)
Theorem handleCompile_reports_exceptions (a : App) :
  trim (dslInput a) <> "" ->
  (forall e,
     server (validate_request (trim (dslInput a))) = Throw e ->
     statusText (snd (handleCompile a)) = ("Error: " ++ message e)%string /\
     statusType (snd (handleCompile a)) = "error" /\
     same_scene a (snd (handleCompile a))) /\
  (forall resp valid e,
     server (validate_request (trim (dslInput a))) = Ok resp ->
     js_get resp "valid" = Ok valid -> truthy valid = true ->
     server (compile_request (trim (dslInput a))) = Throw e ->
     statusText (snd (handleCompile a)) = ("Error: " ++ message e)%string /\
     statusType (snd (handleCompile a)) = "error" /\
     same_scene a (snd (handleCompile a))) /\
  (forall resp valid errs e,
     server (validate_request (trim (dslInput a))) = Ok resp ->
     js_get resp "valid" = Ok valid -> truthy valid = false ->
     js_get resp "errors" = Ok errs ->
     js_join "validateResult.errors" errs "; " = Throw e ->
     statusText (snd (handleCompile a)) = ("Error: " ++ message e)%string /\
     statusType (snd (handleCompile a)) = "error" /\
     same_scene a (snd (handleCompile a))).
Proof.
  intros Hsrc. apply String.eqb_neq in Hsrc.
  assert (Start : forall res a',
            handleCompile a = (res, a') ->
            try_finally
              (try_catch
                 (validateResult <- fetch_json (validate_request (trim (dslInput a))) ;;
                  valid <- lift (js_get validateResult "valid") ;;
                  if negb (truthy valid) then
                    errs <- lift (js_get validateResult "errors") ;;
                    errors <- lift (js_join "validateResult.errors" errs "; ") ;;
                    updateStatus ("Validation failed: " ++ errors) "error" ;;;
                    showLoading false
                  else
                    compileResult <- fetch_json (compile_request (trim (dslInput a))) ;;
                    success <- lift (js_get compileResult "success") ;;
                    ir_scene <- lift (if truthy success
                                      then js_get compileResult "ir_scene"
                                      else Ok success) ;;
                    if truthy success && truthy ir_scene
                    then show_scene ir_scene
                    else show_failure compileResult)
                 (fun error => updateStatus ("Error: " ++ message error) "error"))
              (set_loadingHidden true)
              (set_loadingHidden false (set_status "Compiling..." "loading" a))
            = (res, a')).
  { intros res a'. unfold handleCompile. unfold bind at 1. unfold get_state at 1.
    rewrite Hsrc.
    unfold bind at 1. unfold updateStatus at 1. unfold modify at 1.
    unfold bind at 1. unfold showLoading at 1. unfold modify at 1.
    intros H. exact H. }
  destruct (handleCompile a) as [res a'] eqn:E. cbn [snd].
  specialize (Start _ _ eq_refl). unfold try_finally, try_catch in Start.
  unfold bind at 1 in Start. unfold fetch_json at 1 in Start.
  split; [|split].
  - intros e He. rewrite He in Start. injection Start as _ <-.
    repeat split.
  - intros resp valid e Hv Hvalid Ht Hc. rewrite Hv in Start.
    unfold bind at 1 in Start. unfold lift at 1 in Start. rewrite Hvalid, Ht in Start.
    cbn [negb] in Start.
    unfold bind at 1 in Start. unfold fetch_json at 1 in Start. rewrite Hc in Start.
    injection Start as _ <-. repeat split.
  - intros resp valid errs e Hv Hvalid Ht He Hj. rewrite Hv in Start.
    unfold bind at 1 in Start. unfold lift at 1 in Start. rewrite Hvalid, Ht in Start.
    cbn [negb] in Start.
    unfold bind at 1 in Start. unfold lift at 1 in Start. rewrite He in Start.
    unfold bind at 1 in Start. unfold lift at 1 in Start. rewrite Hj in Start.
    injection Start as _ <-. repeat split.
Qed.

(** ** Play, pause and reset *)

(** X16.  togglePlayback of the application keeps the three places that know
    about playback in step: after it the flag of the application state is the
    opposite of what it was, the flag of the renderer equals it whatever it
    was before, and the button shows Pause exactly while playing.  Nothing
    else changes, and a second toggle restores the application state. *)
Theorem togglePlayback_keeps_in_step (a : App) :
  fst (App_togglePlayback a) = Ok tt /\
  app_isPlaying (state (snd (App_togglePlayback a))) = negb (app_isPlaying (state a)) /\
  isPlaying (renderer (snd (App_togglePlayback a)))
    = app_isPlaying (state (snd (App_togglePlayback a))) /\
  playLabel (snd (App_togglePlayback a))
    = (if app_isPlaying (state (snd (App_togglePlayback a)))
       then PauseCaption else PlayCaption) /\
  same_wire a (snd (App_togglePlayback a)) /\
  objects (renderer (snd (App_togglePlayback a))) = objects (renderer a) /\
  currentTime (renderer (snd (App_togglePlayback a))) = currentTime (renderer a) /\
  currentScene (state (snd (App_togglePlayback a))) = currentScene (state a) /\
  playDisabled (snd (App_togglePlayback a)) = playDisabled a /\
  state (snd (App_togglePlayback (snd (App_togglePlayback a)))) = state a.
Proof.
  destruct a as [inp st ty lh pd rd pl reqs r [sc pf ct]].
  cbn. destruct pf; cbn; repeat split.
Qed.

(** X17.  resetScene empties the renderer, disables the buttons and reports
    "Scene reset", but it forgets less than that suggests: the application
    state keeps its scene, and the renderer keeps its clock and its play flag.
    So a reset while paused leaves the application state saying that playback
    runs and the renderer paused. *)
Theorem resetScene_leaves (a : App) :
  fst (resetScene a) = Ok tt /\
  objects (renderer (snd (resetScene a))) = [] /\
  timelineEvents (renderer (snd (resetScene a))) = [] /\
  cameraPosition (renderer (snd (resetScene a))) = home_camera /\
  same_playback (renderer a) (renderer (snd (resetScene a))) /\
  currentScene (state (snd (resetScene a))) = currentScene (state a) /\
  app_isPlaying (state (snd (resetScene a))) = true /\
  app_currentTime (state (snd (resetScene a))) = num_zero /\
  playDisabled (snd (resetScene a)) = true /\
  resetDisabled (snd (resetScene a)) = true /\
  playLabel (snd (resetScene a)) = PauseCaption /\
  statusText (snd (resetScene a)) = "Scene reset" /\
  (app_isPlaying (state a) = true ->
   isPlaying (renderer (snd (resetScene (snd (App_togglePlayback a))))) = false /\
   app_isPlaying (state (snd (resetScene (snd (App_togglePlayback a))))) = true).
Proof.
  destruct a as [inp st ty lh pd rd pl reqs r [sc pf ct]].
  cbn. repeat split. all: cbn in *; subst; reflexivity.
Qed.

(** ** The sample scene in the editor *)

Lemma prefillSample_run (a : App) :
  prefillSample a
  = (Ok tt,
     match scene_file with
     | Ok (true, Ok text) =>
         if trim (dslInput a) =? ""
         then set_dslInput text
                (set_requests (requests a ++ [get_request "/scene.dsl"]) a)
         else set_requests (requests a ++ [get_request "/scene.dsl"]) a
     | _ => set_requests (requests a ++ [get_request "/scene.dsl"]) a
     end).
Proof.
  unfold prefillSample, try_catch, bind, modify, lift, get_state, ret.
  destruct scene_file as [[[|] [text|e]]|e]; cbn [fst snd negb]; try reflexivity.
  change (dslInput (set_requests (requests a ++ [get_request "/scene.dsl"]) a))
    with (dslInput a).
  destruct (trim (dslInput a) =? ""); reflexivity.
Qed.

(** X18.  prefillSample never fails and never replaces text the user has: it
    fetches /scene.dsl once, and only when that succeeds, the response is
    [ok], its text arrives and the editor is blank at that moment does the
    text go into the editor.  In every other case, a failed request
    included, the page is as before but for the request sent. *)
Theorem prefillSample_spares_the_editor (a : App) :
  fst (prefillSample a) = Ok tt /\
  requests (snd (prefillSample a)) = requests a ++ [get_request "/scene.dsl"] /\
  (trim (dslInput a) <> "" -> dslInput (snd (prefillSample a)) = dslInput a) /\
  (forall text,
     trim (dslInput a) = "" -> scene_file = Ok (true, Ok text) ->
     dslInput (snd (prefillSample a)) = text) /\
  ((forall text, scene_file <> Ok (true, Ok text)) ->
     dslInput (snd (prefillSample a)) = dslInput a) /\
  statusText (snd (prefillSample a)) = statusText a /\
  same_scene a (snd (prefillSample a)).
Proof.
  rewrite prefillSample_run. cbn [fst snd].
  destruct scene_file as [[[|] [text|e]]|e];
    try (repeat split; intros t _ H; discriminate H).
  destruct (trim (dslInput a) =? "") eqn:Hb.
  - apply String.eqb_eq in Hb.
    split; [reflexivity|]. split; [reflexivity|].
    split; [intros Hn; contradiction|].
    split; [intros t _ [= <-]; reflexivity|].
    split; [intros Hno; exfalso; apply (Hno text); reflexivity|].
    repeat split.
  - apply String.eqb_neq in Hb.
    split; [reflexivity|]. split; [reflexivity|].
    split; [reflexivity|].
    split; [intros t Ht; contradiction|].
    repeat split.
Qed.

(** ** The chat page *)

(** X19.  handleUserInput never fails.  Blank input changes nothing.  Other
    input is taken out of the box and shown in the chat; with an open socket
    it is sent, trimmed and together with the current scene, and with no open
    socket nothing is sent, the chat shows the failure and the status reads
    "Error": the text is gone from the input box without having been sent. *)
Theorem handleUserInput_outcomes (a : ChatApp) :
  fst (handleUserInput a) = Ok tt /\
  (trim (userInput a) = "" -> snd (handleUserInput a) = a) /\
  (trim (userInput a) <> "" -> ws a = Some OPEN ->
     userInput (snd (handleUserInput a)) = "" /\
     sent (snd (handleUserInput a))
       = sent a ++ [JObj [ ("message", JStr (trim (userInput a)));
                           ("scene_context", currentScene (chat_state a)) ]] /\
     map msg_content (messages (snd (handleUserInput a)))
       = map msg_content (messages a) ++ [trim (userInput a)] /\
     chat_status (snd (handleUserInput a)) = "Processing...") /\
  (trim (userInput a) <> "" -> ws a <> Some OPEN ->
     userInput (snd (handleUserInput a)) = "" /\
     sent (snd (handleUserInput a)) = sent a /\
     map (fun m => (msg_role m, msg_content m)) (messages (snd (handleUserInput a)))
       = map (fun m => (msg_role m, msg_content m)) (messages a)
         ++ [ ("user", trim (userInput a));
              ("error", "Failed to send message: WebSocket not connected") ] /\
     chat_status (snd (handleUserInput a)) = "Error").
Proof.
  unfold handleUserInput, bind, get_state, try_catch, addMessage, modify, ret,
    sendMessage, getCurrentScene, lift, text_content.
  unfold bind, modify. cbn [is_nullish truthy to_string rbind].
  destruct (trim (userInput a) =? "") eqn:Hb.
  { apply String.eqb_eq in Hb. cbn [fst snd].
    split; [reflexivity|]. split; [reflexivity|].
    split; intros Hn; contradiction. }
  apply String.eqb_neq in Hb.
  cbn [ws set_chat_status push_message set_userInput sent chat_state].
  destruct (ws a) as [[| | |]|]; cbn [fst snd userInput sent messages chat_status
      set_sent set_chat_status push_message set_userInput message];
    (split; [reflexivity|]); (split; [intros Hn; contradiction|]);
    split; intros _ Hw; try discriminate Hw; try (exfalso; apply Hw; reflexivity);
    rewrite ?map_app, <- ?app_assoc; repeat split.
Qed.

Lemma show_update_run (scene : JsVal) (a : ChatApp) :
  (truthy scene = true ->
   exists r',
     show_update scene a
     = (Ok tt, set_chat_status "Scene load failed" StatusError
                 (set_chat_loadingHidden true (set_chat_renderer r' a))) /\
     snd (loadScene scene (chat_renderer a)) = r') /\
  (truthy scene = false ->
   show_update scene a
   = (Ok tt,
      set_chat_status "Scene loaded" StatusSuccess
        (set_chat_loadingHidden true
           (set_chat_controls false
              (set_chat_state (setScene scene (chat_state a))
                 (set_chat_renderer
                    (set_cameraPosition home_camera
                       (set_timelineEvents []
                          (set_motions (JArr []) (set_objects [] (chat_renderer a)))))
                    a)))))).
Proof.
  split; intros H; unfold show_update.
  - destruct (loadScene_throws scene (chat_renderer a) H) as (e & r' & ->).
    exists r'. split; reflexivity.
  - unfold loadScene. rewrite H. reflexivity.
Qed.

(** X20.  A [scene_update] message.  When it carries a scene, the renderer is
    given the scene but the page reports "Scene load failed": the scene is
    not stored in the application state and the buttons stay as they were.
    When it carries none ([ir_scene] missing, [null] or otherwise falsy), the
    renderer is emptied and the page reports "Scene loaded", stores the
    missing scene and enables the buttons.  Either way the loading overlay
    ends hidden. *)
Theorem scene_update_outcomes (data scene : JsVal) (a : ChatApp) :
  js_get data "type" = Ok (JStr "scene_update") ->
  js_get data "ir_scene" = Ok scene ->
  fst (handleServerMessage data a) = Ok tt /\
  chat_loadingHidden (snd (handleServerMessage data a)) = true /\
  messages (snd (handleServerMessage data a)) = messages a /\
  (truthy scene = true ->
     chat_status (snd (handleServerMessage data a)) = "Scene load failed" /\
     chat_state (snd (handleServerMessage data a)) = chat_state a /\
     chat_playDisabled (snd (handleServerMessage data a)) = chat_playDisabled a /\
     chat_resetDisabled (snd (handleServerMessage data a)) = chat_resetDisabled a /\
     chat_renderer (snd (handleServerMessage data a))
       = snd (loadScene scene (chat_renderer a))) /\
  (truthy scene = false ->
     chat_status (snd (handleServerMessage data a)) = "Scene loaded" /\
     currentScene (chat_state (snd (handleServerMessage data a))) = scene /\
     chat_playDisabled (snd (handleServerMessage data a)) = false /\
     chat_resetDisabled (snd (handleServerMessage data a)) = false /\
     objects (chat_renderer (snd (handleServerMessage data a))) = []).
Proof.
  intros Hty Hsc.
  assert (E : handleServerMessage data a
              = show_update scene (set_chat_loadingHidden false a)).
  { unfold handleServerMessage, bind, lift, modify. rewrite Hty, Hsc. reflexivity. }
  rewrite E.
  destruct (show_update_run scene (set_chat_loadingHidden false a)) as [Ht Hf].
  destruct (truthy scene) eqn:Hs.
  - destruct (Ht eq_refl) as (r' & -> & Hr). cbn [fst snd].
    split; [reflexivity|]. split; [reflexivity|]. split; [reflexivity|].
    split; [|discriminate]. intros _. repeat split. symmetry. exact Hr.
  - rewrite (Hf eq_refl). cbn [fst snd].
    split; [reflexivity|]. split; [reflexivity|]. split; [reflexivity|].
    split; [discriminate|]. intros _. repeat split.
Qed.

Lemma show_update_ok scene a : fst (show_update scene a) = Ok tt.
Proof.
  unfold show_update. destruct (loadScene scene (chat_renderer a)) as [[[]|e] r'];
    reflexivity.
Qed.

Lemma same_line_refl a : same_line a a.
Proof. repeat split. Qed.

Lemma same_line_trans a1 a2 a3 : same_line a1 a2 -> same_line a2 a3 -> same_line a1 a3.
Proof.
  intros (A1 & B1 & C1 & D1 & E1 & F1 & G1) (A2 & B2 & C2 & D2 & E2 & F2 & G2).
  repeat split; congruence.
Qed.

Lemma same_stage_refl a : same_stage a a.
Proof. repeat split. Qed.

Lemma same_stage_trans a1 a2 a3 :
  same_stage a1 a2 -> same_stage a2 a3 -> same_stage a1 a3.
Proof. intros (A1 & B1) (A2 & B2). split; congruence. Qed.

Lemma addMessage_keeps (R : ChatApp -> ChatApp -> Prop) role content dsl :
  (forall a, R a a) -> (forall x y z, R x y -> R y z -> R x z) ->
  (forall m a, R a (push_message m a)) ->
  keeps R (addMessage role content dsl).
Proof.
  intros Hr Ht Hp. unfold addMessage.
  apply keeps_bind; [exact Ht|apply keeps_lift, Hr|intros shown].
  apply keeps_bind; [exact Ht|apply keeps_lift, Hr|intros code].
  apply keeps_modify. intros a. apply Hp.
Qed.

Lemma show_update_keeps_line scene : keeps same_line (show_update scene).
Proof.
  intros a. unfold show_update.
  destruct (loadScene scene (chat_renderer a)) as [[[]|e] r']; repeat split.
Qed.

Lemma handleServerMessage_keeps_line data : keeps same_line (handleServerMessage data).
Proof.
  pose proof same_line_refl as Hr. pose proof same_line_trans as Ht.
  unfold handleServerMessage.
  apply keeps_bind; [exact Ht|apply keeps_lift, Hr|intros type].
  apply keeps_if.
  { apply keeps_bind; [exact Ht|apply keeps_lift, Hr|intros content].
    apply keeps_bind; [exact Ht|apply keeps_lift, Hr|intros dsl].
    apply keeps_bind;
      [exact Ht|apply addMessage_keeps; try assumption; intros; repeat split|intros _].
    apply keeps_modify; intros; repeat split. }
  apply keeps_if.
  { apply keeps_bind; [exact Ht|apply keeps_modify; intros; repeat split|intros _].
    apply keeps_bind; [exact Ht|apply keeps_lift, Hr|intros ir_scene].
    apply show_update_keeps_line. }
  apply keeps_if; [|apply keeps_ret, Hr].
  apply keeps_bind; [exact Ht|apply keeps_lift, Hr|intros msg].
  apply keeps_bind;
    [exact Ht|apply addMessage_keeps; try assumption; intros; repeat split|intros _].
  apply keeps_modify; intros; repeat split.
Qed.

(** A message that is not a [scene_update] *)
Lemma handleServerMessage_keeps_stage data :
  (forall type, js_get data "type" = Ok type ->
     strict_eq type (JStr "scene_update") = false) ->
  keeps same_stage (handleServerMessage data).
Proof.
  intros H. pose proof same_stage_refl as Hr. pose proof same_stage_trans as Ht.
  unfold handleServerMessage.
  intros a. unfold bind at 1. unfold lift at 1.
  destruct (js_get data "type") as [type|e] eqn:Hty; [|repeat split].
  rewrite (H type eq_refl). revert a.
  apply keeps_if.
  { apply keeps_bind; [exact Ht|apply keeps_lift, Hr|intros content].
    apply keeps_bind; [exact Ht|apply keeps_lift, Hr|intros dsl].
    apply keeps_bind;
      [exact Ht|apply addMessage_keeps; try assumption; intros; repeat split|intros _].
    apply keeps_modify; intros; repeat split. }
  apply keeps_if; [|apply keeps_ret, Hr].
  apply keeps_bind; [exact Ht|apply keeps_lift, Hr|intros msg].
  apply keeps_bind;
    [exact Ht|apply addMessage_keeps; try assumption; intros; repeat split|intros _].
  apply keeps_modify; intros; repeat split.
Qed.

(** A payload without a [type] that the switch knows *)
Lemma handleServerMessage_idle data :
  (forall type, js_get data "type" = Ok type ->
     strict_eq type (JStr "response") = false /\
     strict_eq type (JStr "scene_update") = false /\
     strict_eq type (JStr "error") = false) ->
  keeps (fun a a' : ChatApp => a' = a) (handleServerMessage data).
Proof.
  intros H a. unfold handleServerMessage. unfold bind at 1. unfold lift at 1.
  destruct (js_get data "type") as [type|e] eqn:Hty; [|reflexivity].
  destruct (H type eq_refl) as (-> & -> & ->). reflexivity.
Qed.

Lemma ws_onmessage_keeps (R : ChatApp -> ChatApp -> Prop) parsed :
  (forall a, R a a) -> (forall x y z, R x y -> R y z -> R x z) ->
  (forall data, parsed = Ok data -> keeps R (handleServerMessage data)) ->
  keeps R (ws_onmessage parsed).
Proof.
  intros Hr Ht H. unfold ws_onmessage.
  apply keeps_try_catch; [exact Ht| |intros e; apply keeps_ret, Hr].
  destruct parsed as [data|e]; [|intros a; apply Hr].
  assert (K : keeps R (a0 <- get_state ;;
                       forEach (seq 0 (messageHandlers a0))
                         (fun _ => handleServerMessage data))).
  { apply keeps_bind; [exact Ht|apply keeps_get_state, Hr|intros a0].
    apply keeps_forEach; [exact Hr|exact Ht|intros _]. apply H. reflexivity. }
  intros a. exact (K a).
Qed.

Lemma ws_onmessage_ok parsed a : fst (ws_onmessage parsed a) = Ok tt.
Proof.
  unfold ws_onmessage, try_catch.
  match goal with |- context [match ?c a with _ => _ end] =>
    destruct (c a) as [[[]|e] a'] end; reflexivity.
Qed.

Lemma ws_onmessage_unheard parsed a :
  messageHandlers a = 0%nat -> snd (ws_onmessage parsed a) = a.
Proof.
  intros H0. unfold ws_onmessage, try_catch, bind, lift, get_state.
  destruct parsed as [data|e]; [|reflexivity]. rewrite H0. reflexivity.
Qed.

(** X21.  No frame that arrives on the socket makes the listener fail, and
    none changes the input box, what has been sent, or the bridge.  A frame
    that is not JSON, a payload that is [null], a message whose [type] is none
    of [response], [scene_update] and [error], and any frame that arrives
    while no handler is registered change nothing at all; the renderer and the
    application state are touched by [scene_update] messages only. *)
Theorem ws_onmessage_is_guarded (parsed : Res JsVal) (a : ChatApp) :
  fst (ws_onmessage parsed a) = Ok tt /\
  same_line a (snd (ws_onmessage parsed a)) /\
  (forall e, parsed = Throw e -> snd (ws_onmessage parsed a) = a) /\
  (forall data, parsed = Ok data -> is_nullish data = true ->
     snd (ws_onmessage parsed a) = a) /\
  (messageHandlers a = 0%nat -> snd (ws_onmessage parsed a) = a) /\
  (forall data type, parsed = Ok data -> js_get data "type" = Ok type ->
     strict_eq type (JStr "scene_update") = false ->
     same_stage a (snd (ws_onmessage parsed a)) /\
     (strict_eq type (JStr "response") = false ->
      strict_eq type (JStr "error") = false ->
      snd (ws_onmessage parsed a) = a)).
Proof.
  split; [apply ws_onmessage_ok|].
  split.
  { apply ws_onmessage_keeps;
      [apply same_line_refl|apply same_line_trans|].
    intros data _. apply handleServerMessage_keeps_line. }
  split.
  { intros e ->. reflexivity. }
  split.
  { intros data -> Hn.
    apply (ws_onmessage_keeps (fun a a' => a' = a)); [reflexivity|congruence|].
    intros d [= <-]. apply handleServerMessage_idle.
    intros type Hty. destruct data; try discriminate Hn; discriminate Hty. }
  split.
  { apply ws_onmessage_unheard. }
  intros data type -> Hty H2. split.
  { apply ws_onmessage_keeps; [apply same_stage_refl|apply same_stage_trans|].
    intros d [= <-]. apply handleServerMessage_keeps_stage.
    intros t Ht. congruence. }
  intros H1 H3.
  apply (ws_onmessage_keeps (fun a a' => a' = a)); [reflexivity|congruence|].
  intros d [= <-]. apply handleServerMessage_idle.
  intros t Ht. assert (t = type) by congruence. subst t. repeat split; assumption.
Qed.

(** ** The bridge *)

Lemma deaf_event ev a : deaf a -> deaf (snd (on_socket ev a)) /\ same_page a (snd (on_socket ev a)).
Proof.
  intros (Ha & Hm & He). destruct ev as [| |parsed| |s]; cbn [on_socket].
  - unfold ws_onopen, bind, get_state, awaited. rewrite Ha. cbn [andb snd ret].
    split; [repeat split; assumption|repeat split].
  - unfold ws_onerror, bind, get_state, awaited. rewrite He, Ha.
    cbn [seq forEach andb snd ret].
    split; [repeat split; assumption|repeat split].
  - rewrite (ws_onmessage_unheard parsed a Hm).
    split; [repeat split; assumption|repeat split].
  - unfold reconnect, modify. cbn [snd].
    split; [repeat split; assumption|repeat split].
  - unfold modify. cbn [snd]. destruct (ws a);
      (split; [repeat split; assumption|repeat split]).
Qed.

Lemma same_page_refl a : same_page a a.
Proof. repeat split. Qed.

Lemma same_page_trans a1 a2 a3 : same_page a1 a2 -> same_page a2 a3 -> same_page a1 a3.
Proof.
  intros (A1 & B1 & C1 & D1 & E1 & F1 & G1 & H1 & I1 & J1)
         (A2 & B2 & C2 & D2 & E2 & F2 & G2 & H2 & I2 & J2).
  repeat split; congruence.
Qed.

Lemma deaf_events evs a :
  deaf a -> deaf (snd (forEach evs on_socket a)) /\
            same_page a (snd (forEach evs on_socket a)).
Proof.
  revert a. induction evs as [|ev evs IH]; intros a Hd; cbn [forEach].
  - split; [exact Hd|apply same_page_refl].
  - unfold bind. destruct (deaf_event ev a Hd) as [Hd1 Hp1].
    destruct (on_socket ev a) as [[[]|e] a1]; cbn [snd] in *.
    + destruct (IH a1 Hd1) as [Hd2 Hp2].
      split; [exact Hd2|exact (same_page_trans _ _ _ Hp1 Hp2)].
    + split; assumption.
Qed.

Lemma paired_event ev a : paired a -> paired (snd (on_socket ev a)).
Proof.
  intros [He Hm]. destruct ev as [| |parsed| |s]; cbn [on_socket].
  - unfold ws_onopen, bind, get_state, awaited, modify.
    destruct (awaiting a) eqn:Ha; cbn [andb].
    + destruct Hm as [H0|[_ Hf]]; [|discriminate Hf].
      destruct (reconnects a =? 0)%nat; cbn [snd ret].
      * split; cbn; [congruence|]. right. split; [congruence|reflexivity].
      * split; [exact He|left; exact H0].
    + cbn [snd ret]. split; [exact He|].
      destruct Hm as [H0|[H1 _]]; [left; exact H0|right; split; [exact H1|exact Ha]].
  - unfold ws_onerror. 
    assert (K : keeps (fun x y : ChatApp =>
                         messageHandlers y = messageHandlers x /\
                         errorHandlers y = errorHandlers x /\
                         (awaiting x = false -> awaiting y = false))
                  (a0 <- get_state ;;
                   forEach (seq 0 (errorHandlers a0))
                     (fun _ => modify (set_chat_status "Connection error" StatusError)) ;;;
                   (if awaited a0
                    then modify (set_awaiting false) ;;;
                         modify (set_chat_status "Failed to connect" StatusError)
                    else ret tt))).
    { assert (Hr : forall x : ChatApp,
                messageHandlers x = messageHandlers x /\
                errorHandlers x = errorHandlers x /\
                (awaiting x = false -> awaiting x = false)) by (intros; repeat split; auto).
      assert (Ht : forall x y z : ChatApp,
                (messageHandlers y = messageHandlers x /\
                 errorHandlers y = errorHandlers x /\
                 (awaiting x = false -> awaiting y = false)) ->
                (messageHandlers z = messageHandlers y /\
                 errorHandlers z = errorHandlers y /\
                 (awaiting y = false -> awaiting z = false)) ->
                messageHandlers z = messageHandlers x /\
                errorHandlers z = errorHandlers x /\
                (awaiting x = false -> awaiting z = false)).
      { intros x y z (A1 & B1 & C1) (A2 & B2 & C2).
        repeat split; [congruence|congruence|auto]. }
      apply keeps_bind; [exact Ht|apply keeps_get_state, Hr|intros a0].
      apply keeps_bind; [exact Ht| |intros _].
      - apply keeps_forEach; [exact Hr|exact Ht|intros _].
        apply keeps_modify. intros x. repeat split; auto.
      - apply keeps_if; [|apply keeps_ret, Hr].
        apply keeps_bind; [exact Ht|apply keeps_modify; intros x; repeat split; auto|].
        intros _. apply keeps_modify. intros x. repeat split; auto. }
    destruct (K a) as (A & B & C).
    split; [congruence|].
    destruct Hm as [H0|[H1 Hf]]; [left; congruence|right; split; [congruence|auto]].
  - assert (K := ws_onmessage_keeps same_line parsed same_line_refl same_line_trans
                   (fun data _ => handleServerMessage_keeps_line data) a).
    destruct K as (_ & _ & _ & A & B & C & _).
    split; [congruence|].
    destruct Hm as [H0|[H1 Hf]]; [left; congruence|right; split; congruence].
  - unfold reconnect, modify. cbn [snd]. split; assumption.
  - unfold modify. cbn [snd]. destruct (ws a); split; assumption.
Qed.

Lemma paired_events evs a : paired a -> paired (snd (forEach evs on_socket a)).
Proof.
  revert a. induction evs as [|ev evs IH]; intros a Hp; cbn [forEach]; [exact Hp|].
  unfold bind. pose proof (paired_event ev a Hp) as H1.
  destruct (on_socket ev a) as [[[]|e] a1]; cbn [snd] in *; [apply IH, H1|exact H1].
Qed.

(** X22.  Whatever happens on the socket, in whatever order, the bridge never
    holds more than one message handler and one error handler of the
    application, so no frame is handled twice.  It holds them only if the
    socket that connectWebSocket waited for has opened.  When instead that
    socket fails, the page reports "Failed to connect" and is deaf from then
    on: the bridge goes on reconnecting, but no opening of a later socket, no
    frame and no error changes anything the page shows, its renderer or its
    application state. *)
Theorem bridge_registers_once (a : ChatApp) (evs : list SocketEvent) :
  (messageHandlers a = 0%nat -> errorHandlers a = 0%nat ->
     (messageHandlers (snd (forEach evs on_socket a)) <= 1)%nat /\
     errorHandlers (snd (forEach evs on_socket a))
       = messageHandlers (snd (forEach evs on_socket a))) /\
  (messageHandlers a = 0%nat -> errorHandlers a = 0%nat -> awaited a = true ->
     chat_status (snd (ws_onerror a)) = "Failed to connect" /\
     messageHandlers (snd (forEach evs on_socket (snd (ws_onerror a)))) = 0%nat /\
     same_page (snd (ws_onerror a))
               (snd (forEach evs on_socket (snd (ws_onerror a))))) /\
  (messageHandlers a = 0%nat -> errorHandlers a = 0%nat -> awaited a = true ->
     messageHandlers (snd (ws_onopen a)) = 1%nat /\
     chat_status (snd (ws_onopen a)) = "Connected").
Proof.
  split; [|split].
  - intros Hm He.
    destruct (paired_events evs a) as [E [H0|[H1 _]]].
    { split; [congruence|left; exact Hm]. }
    + rewrite H0. split; [apply Nat.le_0_l|congruence].
    + rewrite H1. split; [apply le_n|congruence].
  - intros Hm He Hw.
    assert (Run : snd (ws_onerror a)
                  = set_chat_status "Failed to connect" StatusError
                      (set_awaiting false a)).
    { unfold ws_onerror, bind, get_state, modify. rewrite He, Hw. reflexivity. }
    rewrite Run. split; [reflexivity|].
    destruct (deaf_events evs (set_chat_status "Failed to connect" StatusError
                                 (set_awaiting false a))) as [(_ & H0 & _) Hp].
    { repeat split; assumption. }
    split; assumption.
  - intros Hm He Hw. unfold ws_onopen, bind, get_state, modify. rewrite Hw.
    cbn [snd]. split; [cbn; congruence|reflexivity].
Qed.

(** ** From the scene to the turning mesh *)

(** The renderer that loadScene leaves for a scene in the shape of the IR *)
Lemma loadScene_ir fields es ms tls r :
  assoc "entities" fields = Some (JArr es) ->
  assoc "motions" fields = Some (JArr (map json_of_motion ms)) ->
  assoc "timelines" fields = Some (JArr (map json_of_timeline tls)) ->
  Forall (fun e => is_nullish e = false) es ->
  Forall (fun e => loggable (entity_name e) = true) es ->
  exists r1 meshes,
    objects r1 = meshes /\
    map mesh_name meshes = map entity_name es /\
    Forall (fun o => In (mesh_color o) colors /\ mesh_spins o = []) meshes /\
    same_playback r r1 /\
    snd (loadScene (JObj fields) r)
    = set_objectCount (List.length meshes)
        (set_timelineEvents
           (flat_map (fun tl => flat_map (scheduled ms) (tl_events tl)) tls)
           (set_motions (JArr (map json_of_motion ms)) r1)).
Proof.
  intros He Hm Ht Hall Hlog.
  unfold loadScene. cbn [truthy negb].
  unfold bind at 1. unfold clearScene at 1. unfold bind at 1, modify at 1.
  unfold bind at 1, modify at 1. unfold bind at 1, modify at 1. unfold modify at 1.
  set (r0 := set_cameraPosition home_camera
               (set_timelineEvents [] (set_motions (JArr []) (set_objects [] r)))).
  unfold try_catch. unfold bind at 1. unfold lift at 1.
  cbn [js_get]. rewrite He. cbn [truthy entities_list].
  unfold bind at 1.
  destruct (create_all es r0 Hall)
    as (res & r1 & meshes & Hrun & Hobj & Hn & _ & Hc & Hok).
  rewrite (Hok Hlog) in Hrun. rewrite (reached_all es Hlog) in Hn.
  rewrite Hrun.
  assert (Hp : same_playback r r1).
  { pose proof (keeps_forEach same_playback es
                  (fun entity =>
                     id <- lift (js_get entity "id") ;;
                     createEntityMesh (js_or id (JStr "unknown")) entity)
                  same_playback_refl same_playback_trans) as K.
    specialize (K (fun entity =>
                     keeps_bind same_playback _ _ same_playback_trans
                       (keeps_lift same_playback _ same_playback_refl)
                       (fun id => createEntityMesh_keeps_playback _ entity)) r0).
    rewrite Hrun in K. cbn [snd] in K.
    destruct K as (A & B & C). repeat split; assumption. }
  exists r1, meshes. change (objects r0) with (@nil Mesh) in Hobj. cbn [app] in Hobj.
  split; [exact Hobj|]. split; [exact Hn|]. split; [exact Hc|]. split; [exact Hp|].
  unfold bind at 1. unfold load_motions_if_any at 1.
  unfold bind at 1. unfold lift at 1. cbn [js_get]. rewrite Hm.
  unfold bind at 1. unfold lift at 1. rewrite Ht.
  cbn [truthy orb js_or]. rewrite loadMotions_ir.
  unfold bind at 1. unfold modify at 1.
  unfold bind at 1. unfold fitCameraToScene at 1. unfold throw.
  cbn [snd objects set_timelineEvents set_motions]. rewrite Hobj. reflexivity.
Qed.

Lemma ir_rotation (m : IrMotion) (x y z v : number) :
  assoc "axis" (m_parameters m) = Some (IrVector3 x y z) ->
  assoc "speed" (m_parameters m) = Some (IrNumber v) ->
  truthy (JNum v) = true ->
  rotation_axis (json_of_motion m) = Ok (JArr [JNum x; JNum y; JNum z]) /\
  rotation_speed (json_of_motion m) = Ok (JNum v).
Proof.
  intros Ha Hs Hv. unfold rotation_axis, rotation_speed.
  change (js_get (json_of_motion m) "parameters")
    with (Ok (JObj (map (fun kv => (fst kv, json_of_value (snd kv))) (m_parameters m)))).
  cbn [rbind].
  rewrite (ir_parameter m "axis" _ Ha), (ir_parameter m "speed" _ Hs).
  split; [reflexivity|].
  change (js_get_opt (json_of_value (IrNumber v)) "Number") with (JNum v).
  unfold js_or. rewrite Hv. cbv iota. rewrite Hv. reflexivity.
Qed.

(** ** The window of an event *)

Lemma num_add_not_nan s d : is_nan (num_add s d) = false -> is_nan s = false.
Proof. destruct s; try reflexivity. destruct d; cbn; discriminate. Qed.

Lemma findObjectByName_turned name i sp (l : list Mesh) :
  findObjectByName name (update_nth i (premultiply sp) l) = findObjectByName name l.
Proof.
  revert i. induction l as [|o l IH]; intros [|i]; try reflexivity.
  cbn [update_nth findObjectByName]. rewrite IH. reflexivity.
Qed.

Lemma findObjectByName_bound name (l : list Mesh) i :
  findObjectByName name l = Ok (Some i) -> (i < List.length l)%nat.
Proof.
  revert i. induction l as [|o l IH]; intros i; cbn [findObjectByName List.length].
  - discriminate.
  - unfold rbind. destruct (object_matches name o) as [[|]|e]; try discriminate.
    + intros [= <-]. apply Nat.lt_0_succ.
    + destruct (findObjectByName name l) as [[k|]|e]; cbn [option_map]; try discriminate.
      intros [= <-]. apply -> Nat.succ_lt_mono. apply IH. reflexivity.
Qed.

Lemma update_nth_turns i sp (l : list Mesh) :
  (i < List.length l)%nat -> update_nth i (premultiply sp) l <> l.
Proof.
  revert i. induction l as [|o l IH]; intros i Hi; cbn [List.length] in Hi.
  - inversion Hi.
  - destruct i as [|i]; cbn [update_nth]; intros E; injection E as E.
    + apply (f_equal (fun o' => List.length (mesh_spins o'))) in E.
      cbn [premultiply mesh_spins List.length] in E.
      exact (Nat.neq_succ_diag_l _ E).
    + apply (IH i); [apply Nat.succ_lt_mono, Hi|exact E].
Qed.

Lemma turn_mesh_turns i sp r :
  (i < List.length (objects r))%nat -> turn_mesh i sp r <> r.
Proof.
  intros Hi E. apply (update_nth_turns i sp (objects r) Hi).
  apply (f_equal objects) in E. exact E.
Qed.

(** What updateAnimations does with a rotation in the shape of the IR whose
    target is on the scene *)
Lemma apply_rotation delta (m : IrMotion) (x y z v : number) i r :
  m_motion_type m = "rotation" ->
  assoc "axis" (m_parameters m) = Some (IrVector3 x y z) ->
  assoc "speed" (m_parameters m) = Some (IrNumber v) ->
  truthy (JNum v) = true ->
  findObjectByName (JStr (m_target_entity m)) (objects r) = Ok (Some i) ->
  apply_motion delta (json_of_motion m) r
  = (Ok tt,
     turn_mesh i {| spin_axis := (JNum x, JNum y, JNum z);
                    spin_angle := num_mul v delta |} r).
Proof.
  intros Hty Hax Hsp Hv Hfind.
  destruct (ir_rotation m x y z v Hax Hsp Hv) as [Eaxis Espeed].
  unfold apply_motion. cbn [json_of_motion truthy negb].
  unfold bind at 1. unfold lift at 1.
  change (js_get (json_of_motion m) "motion_type") with (Ok (JStr (m_motion_type m))).
  cbn [strict_eq]. rewrite Hty. cbn [String.eqb Ascii.eqb Bool.eqb].
  unfold bind at 1. unfold lift at 1.
  change (js_get (json_of_motion m) "target_entity")
    with (Ok (JStr (m_target_entity m))).
  unfold bind at 1. unfold lift at 1. rewrite Eaxis.
  unfold bind at 1. unfold lift at 1. rewrite Espeed.
  unfold bind at 1. unfold get_state at 1.
  unfold bind at 1. unfold lift at 1. rewrite Hfind.
  unfold bind at 1. unfold lift at 1.
  change (read3 (JArr [JNum x; JNum y; JNum z])) with (Ok (JNum x, JNum y, JNum z)).
  unfold bind at 1. unfold lift at 1.
  change (js_mul (JNum v) (JNum delta)) with (Ok (num_mul v delta)).
  reflexivity.
Qed.

Lemma animate_rotation delta (m : IrMotion) (x y z v : number) i r s d :
  m_motion_type m = "rotation" ->
  assoc "axis" (m_parameters m) = Some (IrVector3 x y z) ->
  assoc "speed" (m_parameters m) = Some (IrNumber v) ->
  truthy (JNum v) = true ->
  findObjectByName (JStr (m_target_entity m)) (objects r) = Ok (Some i) ->
  is_nan (currentTime r) = false -> is_nan (num_add s d) = false ->
  animate_event delta (rotation_event m s d) r
  = (Ok tt,
     if in_closed_interval s d (currentTime r)
     then turn_mesh i {| spin_axis := (JNum x, JNum y, JNum z);
                         spin_angle := num_mul v delta |} r
     else r).
Proof.
  intros Hty Hax Hsp Hv Hfind Ht Hne.
  rewrite (animate_event_closed delta (rotation_event m s d) r s d eq_refl eq_refl Ht
             (num_add_not_nan s d Hne) Hne).
  destruct (in_closed_interval s d (currentTime r)); [|reflexivity].
  apply apply_rotation; assumption.
Qed.

(** The events of a timeline, one after the other *)
Lemma animate_windows delta (m : IrMotion) (x y z v : number) i t
    (windows : list (number * number)) :
  m_motion_type m = "rotation" ->
  assoc "axis" (m_parameters m) = Some (IrVector3 x y z) ->
  assoc "speed" (m_parameters m) = Some (IrNumber v) ->
  truthy (JNum v) = true ->
  is_nan t = false ->
  Forall (fun w => is_nan (num_add (fst w) (snd w)) = false) windows ->
  forall r,
    currentTime r = t ->
    findObjectByName (JStr (m_target_entity m)) (objects r) = Ok (Some i) ->
    forEach (map (fun w => rotation_event m (fst w) (snd w)) windows)
            (animate_event delta) r
    = (Ok tt,
       fold_left
         (fun r' w =>
            if in_closed_interval (fst w) (snd w) t
            then turn_mesh i {| spin_axis := (JNum x, JNum y, JNum z);
                                spin_angle := num_mul v delta |} r'
            else r')
         windows r).
Proof.
  intros Hty Hax Hsp Hv Ht Hall.
  induction Hall as [|w windows Hw _ IH]; intros r Hclock Hfind; [reflexivity|].
  cbn [map forEach fold_left]. unfold bind at 1.
  rewrite (animate_rotation delta m x y z v i r (fst w) (snd w) Hty Hax Hsp Hv Hfind);
    [|rewrite Hclock; exact Ht|exact Hw].
  rewrite Hclock.
  destruct (in_closed_interval (fst w) (snd w) t).
  - apply IH; [exact Hclock|].
    unfold turn_mesh. cbn [objects set_objects].
    rewrite findObjectByName_turned. exact Hfind.
  - apply IH; assumption.
Qed.

(** C9.  The window of a timeline event is the closed interval [start,
    start + duration].  For an event with numeric start and duration the
    callback of updateAnimations applies the event's motion exactly when
    start <= t <= start + duration holds for the current time t, and leaves
    the renderer alone otherwise.  For a rotation in the shape of the IR whose
    target is on the scene this shows on the mesh: the callback turns it, once
    and by speed * delta about the axis, when t is in the window, and changes
    nothing when it is not; over a whole timeline of such events
    updateAnimations turns the mesh once for every event whose window holds
    t.  The right end belongs to the window: at t = start + duration the mesh
    is turned, and of two events that meet at an instant (the second starts
    where the first ends) both turn it at that instant. *)
Theorem updateAnimations_closed_interval
    (delta : number) (m : IrMotion) (x y z v : number) :
  m_motion_type m = "rotation" ->
  assoc "axis" (m_parameters m) = Some (IrVector3 x y z) ->
  assoc "speed" (m_parameters m) = Some (IrNumber v) ->
  truthy (JNum v) = true ->
  let turn := {| spin_axis := (JNum x, JNum y, JNum z);
                 spin_angle := num_mul v delta |} in
  (forall mo r s d,
     is_nan (currentTime r) = false -> is_nan (num_add s d) = false ->
     animate_event delta {| start := JNum s; duration := JNum d; motion := mo |} r
     = if in_closed_interval s d (currentTime r)
       then apply_motion delta mo r
       else (Ok tt, r)) /\
  (forall r i s d,
     findObjectByName (JStr (m_target_entity m)) (objects r) = Ok (Some i) ->
     is_nan (currentTime r) = false -> is_nan (num_add s d) = false ->
     animate_event delta (rotation_event m s d) r
     = (Ok tt, if in_closed_interval s d (currentTime r) then turn_mesh i turn r else r) /\
     (snd (animate_event delta (rotation_event m s d) r) <> r
      <-> in_closed_interval s d (currentTime r) = true)) /\
  (forall r i windows,
     findObjectByName (JStr (m_target_entity m)) (objects r) = Ok (Some i) ->
     timelineEvents r = map (fun w => rotation_event m (fst w) (snd w)) windows ->
     is_nan (currentTime r) = false ->
     Forall (fun w => is_nan (num_add (fst w) (snd w)) = false) windows ->
     updateAnimations delta r
     = (Ok tt,
        fold_left
          (fun r' w =>
             if in_closed_interval (fst w) (snd w) (currentTime r)
             then turn_mesh i turn r' else r')
          windows r)) /\
  (forall r i s d,
     findObjectByName (JStr (m_target_entity m)) (objects r) = Ok (Some i) ->
     timelineEvents r = [rotation_event m s d] ->
     currentTime r = num_add s d ->
     num_leb s (num_add s d) = true ->
     updateAnimations delta r = (Ok tt, turn_mesh i turn r)) /\
  (forall r i s1 d1 d2,
     findObjectByName (JStr (m_target_entity m)) (objects r) = Ok (Some i) ->
     timelineEvents r
       = [rotation_event m s1 d1; rotation_event m (num_add s1 d1) d2] ->
     currentTime r = num_add s1 d1 ->
     num_leb s1 (num_add s1 d1) = true ->
     num_leb (num_add s1 d1) (num_add (num_add s1 d1) d2) = true ->
     updateAnimations delta r = (Ok tt, turn_mesh i turn (turn_mesh i turn r))).
Proof.
  intros Hty Hax Hsp Hv turn.
  assert (W : forall r i windows,
     findObjectByName (JStr (m_target_entity m)) (objects r) = Ok (Some i) ->
     timelineEvents r = map (fun w => rotation_event m (fst w) (snd w)) windows ->
     is_nan (currentTime r) = false ->
     Forall (fun w => is_nan (num_add (fst w) (snd w)) = false) windows ->
     updateAnimations delta r
     = (Ok tt,
        fold_left
          (fun r' w =>
             if in_closed_interval (fst w) (snd w) (currentTime r)
             then turn_mesh i turn r' else r')
          windows r)).
  { intros r i windows Hfind Hev Ht Hall.
    rewrite updateAnimations_forEach, Hev.
    apply (animate_windows delta m x y z v i (currentTime r) windows); auto. }
  split.
  { intros mo r s d Ht Hne.
    apply (animate_event_closed delta
             {| start := JNum s; duration := JNum d; motion := mo |} r s d
             eq_refl eq_refl Ht (num_add_not_nan s d Hne) Hne). }
  split.
  { intros r i s d Hfind Ht Hne.
    rewrite (animate_rotation delta m x y z v i r s d Hty Hax Hsp Hv Hfind Ht Hne).
    split; [reflexivity|]. cbn [snd]. fold turn.
    destruct (in_closed_interval s d (currentTime r)).
    - split; [reflexivity|]. intros _.
      apply turn_mesh_turns, (findObjectByName_bound _ _ _ Hfind).
    - split; [intros H; exfalso; apply H; reflexivity|discriminate]. }
  split; [exact W|].
  split.
  { intros r i s d Hfind Hev Ht Hle.
    destruct (num_leb_not_nan _ _ Hle) as [_ Hne].
    rewrite (W r i [(s, d)] Hfind Hev); [|rewrite Ht; exact Hne|repeat constructor; exact Hne].
    cbn [fold_left fst snd]. rewrite Ht. unfold in_closed_interval.
    rewrite Hle, (num_leb_refl _ Hne). reflexivity. }
  intros r i s1 d1 d2 Hfind Hev Ht H1 H2.
  destruct (num_leb_not_nan _ _ H1) as [_ Hnb].
  destruct (num_leb_not_nan _ _ H2) as [_ Hne].
  rewrite (W r i [(s1, d1); (num_add s1 d1, d2)] Hfind Hev);
    [|rewrite Ht; exact Hnb|repeat constructor; assumption].
  cbn [fold_left fst snd]. rewrite Ht. unfold in_closed_interval.
  rewrite H1, H2, (num_leb_refl _ Hnb). reflexivity.
Qed.

(** X13.  From the scene to the turning mesh.  Take a scene in the shape of
    the IR with an entity [e], a rotation of [e] about [x, y, z] at speed [v]
    (not zero) and a timeline event for that rotation whose window, with a
    start that is not negative and a positive duration, holds the renderer's
    clock.  Although loadScene ends with an exception, the renderer then holds
    the one mesh of [e], not yet turned, and the next updateAnimations(delta)
    returns normally and turns exactly that mesh, once, about [x, y, z] by [v
    * delta]. *)
Theorem loaded_rotation_turns_its_target
    (entity : JsVal) (e timeline : string) (m : IrMotion) (ev : IrEvent)
    (x y z v delta : number) (r : Renderer) :
  js_get entity "id" = Ok (JStr e) -> e <> "" ->
  m_motion_type m = "rotation" -> m_target_entity m = e ->
  assoc "axis" (m_parameters m) = Some (IrVector3 x y z) ->
  assoc "speed" (m_parameters m) = Some (IrNumber v) ->
  truthy (JNum v) = true ->
  ev_motion_id ev = m_id m ->
  num_leb num_zero (ev_start_time ev) = true ->
  ev_start_time ev <> S754_zero true ->
  num_ltb num_zero (ev_duration ev) = true ->
  in_closed_interval (ev_start_time ev) (ev_duration ev) (currentTime r) = true ->
  exists mesh,
    objects (snd (loadScene (small_scene entity m timeline ev) r)) = [mesh] /\
    mesh_name mesh = JStr e /\ mesh_spins mesh = [] /\
    updateAnimations delta (snd (loadScene (small_scene entity m timeline ev) r))
    = (Ok tt,
       set_objects
         [ add_spins [ {| spin_axis := (JNum x, JNum y, JNum z);
                          spin_angle := num_mul v delta |} ] mesh ]
         (snd (loadScene (small_scene entity m timeline ev) r))).
Proof.
  intros Hid He Hty Htg Hax Hsp Hv Hmid Hs Hnz Hd Hin.
  assert (Hnn : is_nullish entity = false)
    by (destruct entity; try reflexivity; discriminate Hid).
  assert (Hlog : loggable (entity_name entity) = true).
  { unfold entity_name, js_get_opt. rewrite Hid. unfold js_or. cbn [truthy].
    apply String.eqb_neq in He. rewrite He. reflexivity. }
  destruct (loadScene_ir
              [ ("entities", JArr [entity]);
                ("motions", JArr (map json_of_motion [m]));
                ("timelines",
                 JArr (map json_of_timeline
                         [ {| tl_id := timeline; tl_events := [ev] |} ])) ]
              [entity] [m] [ {| tl_id := timeline; tl_events := [ev] |} ] r
              eq_refl eq_refl eq_refl (Forall_cons _ Hnn (Forall_nil _))
              (Forall_cons _ Hlog (Forall_nil _)))
    as (r1 & meshes & Hobj & Hn & Hc & (_ & Hclock & _) & Hload).
  fold (small_scene entity m timeline ev) in Hload. rewrite Hload. clear Hload.
  destruct meshes as [|mesh [|mesh' rest]]; try discriminate Hn.
  cbn [map] in Hn. injection Hn as Hname.
  assert (Hname' : mesh_name mesh = JStr e).
  { rewrite Hname. unfold entity_name, js_get_opt. rewrite Hid. unfold js_or.
    cbn [truthy]. apply String.eqb_neq in He. rewrite He. reflexivity. }
  pose proof (Forall_inv Hc) as [_ Hspins].
  exists mesh. cbn [objects set_objectCount set_timelineEvents set_motions].
  split; [exact Hobj|]. split; [exact Hname'|]. split; [exact Hspins|].
  (* the one event *)
  assert (Hsched : scheduled [m] ev
                   = [ {| start := JNum (ev_start_time ev);
                          duration := JNum (ev_duration ev);
                          motion := json_of_motion m |} ]).
  { unfold scheduled. rewrite (motion_table_hit [m] (ev_motion_id ev) m).
    2:{ cbn [find_motion]. rewrite Hmid, String.eqb_refl. reflexivity. }
    cbn [json_of_motion js_or truthy].
    destruct (nonneg_or_zero _ Hs) as [_ Hz]. rewrite (Hz Hnz).
    unfold or_zero. rewrite (positive_truthy _ Hd). reflexivity. }
  cbn [flat_map tl_events app List.length]. rewrite Hsched. cbn [app].
  rewrite updateAnimations_forEach.
  cbn [timelineEvents set_objectCount set_timelineEvents forEach].
  unfold in_closed_interval in Hin. apply andb_prop in Hin as [Hlo Hhi].
  destruct (num_leb_not_nan _ _ Hlo) as [Hns Hnt].
  destruct (num_leb_not_nan _ _ Hhi) as [_ Hne].
  unfold bind at 1.
  match goal with
  | |- context [animate_event delta ?evt ?st] =>
      rewrite (animate_event_closed delta evt st (ev_start_time ev) (ev_duration ev)
                 eq_refl eq_refl)
  end;
    cbn [currentTime set_objectCount set_timelineEvents set_motions];
    try (rewrite Hclock; assumption); try assumption.
  unfold in_closed_interval. rewrite Hclock, Hlo, Hhi. cbn [andb motion].
  (* the motion *)
  destruct (ir_rotation m x y z v Hax Hsp Hv) as [Eaxis Espeed].
  unfold apply_motion. cbn [json_of_motion truthy negb].
  unfold bind at 1. unfold lift at 1.
  change (js_get (json_of_motion m) "motion_type") with (Ok (JStr (m_motion_type m))).
  cbn [strict_eq]. rewrite Hty. cbn [String.eqb Ascii.eqb Bool.eqb].
  unfold bind at 1. unfold lift at 1.
  change (js_get (json_of_motion m) "target_entity")
    with (Ok (JStr (m_target_entity m))).
  rewrite Htg.
  unfold bind at 1. unfold lift at 1. rewrite Eaxis.
  unfold bind at 1. unfold lift at 1. rewrite Espeed.
  unfold bind at 1. unfold get_state at 1.
  unfold bind at 1. unfold lift at 1.
  cbn [objects set_objectCount set_timelineEvents set_motions].
  rewrite Hobj. cbn [findObjectByName]. unfold object_matches.
  rewrite Hname'. cbn [strict_eq]. rewrite String.eqb_refl. cbn [rbind].
  unfold bind at 1. unfold lift at 1.
  change (read3 (JArr [JNum x; JNum y; JNum z])) with (Ok (JNum x, JNum y, JNum z)).
  unfold bind at 1. unfold lift at 1.
  change (js_mul (JNum v) (JNum delta)) with (Ok (num_mul v delta)).
  unfold modify, ret.
  cbn [objects set_objectCount set_timelineEvents set_motions set_objects].
  rewrite Hobj. reflexivity.
Qed.

(** ** The page that runs the compiler in the browser *)

Lemma pinned_refl l : pinned l l.
Proof.
  exists l, []. split; [symmetry; apply app_nil_r|].
  induction l; constructor; auto.
Qed.

Lemma pinned_trans l1 l2 l3 : pinned l1 l2 -> pinned l2 l3 -> pinned l1 l3.
Proof.
  intros (k1 & a1 & -> & F1) (k2 & a2 & -> & F2).
  apply Forall2_app_inv_l in F2 as (k2a & k2b & Fa & Fb & ->).
  exists k2a, (k2b ++ a2). split; [symmetry; apply app_assoc|].
  clear Fb. revert k2a Fa. induction F1 as [|x y l k [Hx Hy] _ IH]; intros k2a Fa.
  - inversion Fa. constructor.
  - inversion Fa as [|y' z k' k2' [Hy1 Hy2] Hrest]; subst. constructor.
    + split; congruence.
    + apply IH, Hrest.
Qed.

Lemma pinned_page_refl p : pinned_page p p.
Proof. split; [apply pinned_refl|]. repeat split; auto. Qed.

Lemma pinned_page_trans p1 p2 p3 :
  pinned_page p1 p2 -> pinned_page p2 p3 -> pinned_page p1 p3.
Proof.
  intros (A1 & B1 & C1 & D1 & E1) (A2 & B2 & C2 & D2 & E2).
  split; [exact (pinned_trans _ _ _ A1 A2)|].
  split; [auto|]. repeat split; congruence.
Qed.

Lemma update_nth_keys i (f : SnapshotMesh -> SnapshotMesh) (l : list (JsVal * SnapshotMesh)) :
  map fst (update_nth i (fun e => (fst e, f (snd e))) l) = map fst l.
Proof.
  revert i. induction l as [|e l IH]; intros [|i]; cbn [update_nth map fst];
    try reflexivity. rewrite IH. reflexivity.
Qed.

Lemma distinct_keys_by_keys (l l' : list (JsVal * SnapshotMesh)) :
  map fst l' = map fst l -> distinct_keys l -> distinct_keys l'.
Proof.
  revert l'. induction l as [|e l IH]; intros [|e' l'] H; try discriminate H;
    [auto|].
  cbn [map] in H. injection H as Hk Hrest. cbn [distinct_keys]. intros [Hf Hd].
  split; [|apply IH; assumption].
  rewrite Hk. clear IH Hd Hk.
  revert l' Hrest. induction Hf as [|x l Hx _ IH]; intros [|x' l'] Hrest;
    try discriminate Hrest; constructor.
  - cbn [map] in Hrest. injection Hrest as Hk _. rewrite Hk. exact Hx.
  - cbn [map] in Hrest. injection Hrest as _ Hr. apply IH, Hr.
Qed.

Lemma on_entry_keeps i (f : SnapshotMesh -> SnapshotMesh) :
  (forall m, sm_geometry (f m) = sm_geometry m) ->
  keeps pinned_page (on_entry i f).
Proof.
  intros Hg p. unfold on_entry, modify. cbn [snd renderObjects set_renderObjects].
  split.
  { exists (update_nth i (fun e => (fst e, f (snd e))) (renderObjects p)), [].
    split; [symmetry; apply app_nil_r|].
    generalize (renderObjects p) as l. clear p. intros l. revert i.
    induction l as [|e l IH]; intros [|i]; cbn [update_nth]; constructor;
      try (split; [reflexivity|]; cbn [snd]; auto; fail); auto.
    - clear IH. induction l; constructor; auto.
  }
  split; [apply distinct_keys_by_keys, update_nth_keys|]. repeat split.
Qed.

Lemma map_find_none key l :
  map_find key l = None ->
  Forall (fun e => same_value_zero (fst e) key = false) l.
Proof.
  induction l as [|[k m] l IH]; cbn [map_find]; [constructor|].
  destruct (same_value_zero k key) eqn:E; [discriminate|].
  destruct (map_find key l); [discriminate|]. intros _.
  constructor; [exact E|apply IH; reflexivity].
Qed.

Lemma distinct_keys_snoc l (e : JsVal * SnapshotMesh) :
  Forall (fun x => same_value_zero (fst x) (fst e) = false) l ->
  distinct_keys l -> distinct_keys (l ++ [e]).
Proof.
  induction l as [|x l IH]; cbn [app distinct_keys]; intros Hf Hd.
  - split; [constructor|exact I].
  - inversion Hf as [|? ? Hx Hrest]; subst. destruct Hd as [Hd1 Hd2].
    split; [|apply IH; assumption].
    apply Forall_app. split; [exact Hd1|]. constructor; [exact Hx|constructor].
Qed.

Lemma update_object_keeps obj : keeps pinned_page (update_object obj).
Proof.
  pose proof pinned_page_refl as Hr. pose proof pinned_page_trans as Ht.
  assert (Tail : forall i transform,
    keeps pinned_page
      (position <- lift (pos <~ js_get transform "position" ;; read3 pos) ;;
       on_entry i (fun m =>
         {| sm_geometry := sm_geometry m; sm_position := position;
            sm_quaternion := sm_quaternion m; sm_scale := sm_scale m;
            sm_visible := sm_visible m |}) ;;;
       quaternion <- lift (rot <~ js_get transform "rotation" ;; read4 rot) ;;
       on_entry i (fun m =>
         {| sm_geometry := sm_geometry m; sm_position := sm_position m;
            sm_quaternion := quaternion; sm_scale := sm_scale m;
            sm_visible := sm_visible m |}) ;;;
       scale <- lift (sc <~ js_get transform "scale" ;; read3 sc) ;;
       on_entry i (fun m =>
         {| sm_geometry := sm_geometry m; sm_position := sm_position m;
            sm_quaternion := sm_quaternion m; sm_scale := scale;
            sm_visible := sm_visible m |}) ;;;
       visible <- lift (js_get obj "visible") ;;
       on_entry i (fun m =>
         {| sm_geometry := sm_geometry m; sm_position := sm_position m;
            sm_quaternion := sm_quaternion m; sm_scale := sm_scale m;
            sm_visible := visible |}))).
  { intros i transform.
    apply keeps_bind; [exact Ht|apply keeps_lift, Hr|intros position].
    apply keeps_bind; [exact Ht|apply on_entry_keeps; reflexivity|intros _].
    apply keeps_bind; [exact Ht|apply keeps_lift, Hr|intros quaternion].
    apply keeps_bind; [exact Ht|apply on_entry_keeps; reflexivity|intros _].
    apply keeps_bind; [exact Ht|apply keeps_lift, Hr|intros scale].
    apply keeps_bind; [exact Ht|apply on_entry_keeps; reflexivity|intros _].
    apply keeps_bind; [exact Ht|apply keeps_lift, Hr|intros visible].
    apply on_entry_keeps; reflexivity. }
  intros p. unfold update_object.
  unfold bind at 1. unfold lift at 1.
  destruct (js_get obj "geometry") as [g|e]; [|apply Hr].
  unfold bind at 1. unfold lift at 1.
  destruct (parse_json g) as [geom|e]; [|apply Hr].
  unfold bind at 1. unfold lift at 1.
  destruct (js_get obj "transform") as [t|e]; [|apply Hr].
  unfold bind at 1. unfold lift at 1.
  destruct (parse_json t) as [transform|e]; [|apply Hr].
  unfold bind at 1. unfold lift at 1.
  destruct (js_get obj "id") as [id|e]; [|apply Hr].
  unfold bind at 1. unfold get_state at 1.
  unfold bind at 1.
  destruct (map_find id (renderObjects p)) as [i|] eqn:Hfind.
  - unfold ret at 1. apply (Tail i transform p).
  - unfold bind at 1. unfold lift at 1.
    destruct (createMesh geom) as [mesh|e]; [|apply Hr].
    unfold bind at 1. unfold modify at 1. unfold ret at 1.
    apply (Ht _ (set_renderObjects (renderObjects p ++ [(id, mesh)]) p));
      [|apply Tail].
    split.
    { exists (renderObjects p), [(id, mesh)]. split; [reflexivity|].
      generalize (renderObjects p). intros l. induction l; constructor; auto. }
    split; [|repeat split].
    cbn [renderObjects set_renderObjects]. apply distinct_keys_snoc.
    exact (map_find_none _ _ Hfind).
Qed.

Lemma updateScene_keeps snapshot : keeps pinned_page (updateScene snapshot).
Proof.
  pose proof pinned_page_refl as Hr. pose proof pinned_page_trans as Ht.
  unfold updateScene.
  apply keeps_try_catch; [exact Ht| |intros e; apply keeps_ret, Hr].
  apply keeps_bind; [exact Ht|apply keeps_lift, Hr|intros snap].
  apply keeps_bind; [exact Ht|apply keeps_lift, Hr|intros objs].
  apply keeps_bind; [exact Ht|apply keeps_lift, Hr|intros len].
  apply keeps_bind; [exact Ht|apply keeps_lift, Hr|intros count].
  apply keeps_bind; [exact Ht|apply keeps_lift, Hr|intros tick].
  apply keeps_bind; [exact Ht|apply keeps_lift, Hr|intros ticks].
  apply keeps_bind; [exact Ht| |intros _].
  { apply keeps_modify. intros p. split; [apply pinned_refl|]. repeat split; auto. }
  apply keeps_bind; [exact Ht|apply keeps_lift, Hr|intros items].
  apply keeps_forEach; [exact Hr|exact Ht|intros obj]. apply update_object_keeps.
Qed.

Lemma updateScene_ok snapshot p : fst (updateScene snapshot p) = Ok tt.
Proof.
  unfold updateScene, try_catch.
  match goal with |- context [match ?c p with _ => _ end] =>
    destruct (c p) as [[[]|e] p'] end; reflexivity.
Qed.

(** X23.  updateScene never fails, whatever the compiler hands over, and it
    only ever adds to the map of meshes: every entry stays in its place under
    its key with the geometry it was created with, however the object's
    geometry reads in later snapshots, and an object that is gone from the
    snapshot keeps its mesh.  No key is entered twice.  The status, the error
    log and the play button are not touched; when the snapshot cannot be had,
    nothing is. *)
Theorem updateScene_pins_meshes (snapshot : Res JsVal) (p : WasmPage) :
  fst (updateScene snapshot p) = Ok tt /\
  pinned (renderObjects p) (renderObjects (snd (updateScene snapshot p))) /\
  (List.length (renderObjects p)
   <= List.length (renderObjects (snd (updateScene snapshot p))))%nat /\
  (distinct_keys (renderObjects p) ->
   distinct_keys (renderObjects (snd (updateScene snapshot p)))) /\
  wasm_status (snd (updateScene snapshot p)) = wasm_status p /\
  errorLog (snd (updateScene snapshot p)) = errorLog p /\
  wasm_playDisabled (snd (updateScene snapshot p)) = wasm_playDisabled p /\
  (forall e, snapshot = Throw e -> snd (updateScene snapshot p) = p).
Proof.
  split; [apply updateScene_ok|].
  destruct (updateScene_keeps snapshot p) as (A & B & C & D & E).
  split; [exact A|].
  split.
  { destruct A as (kept & added & -> & F). rewrite length_app.
    rewrite <- (Forall2_length F). apply Nat.le_add_r. }
  split; [exact B|]. split; [exact C|]. split; [exact D|]. split; [exact E|].
  intros e ->. reflexivity.
Qed.

Lemma compileAndRender_run (compiled snapshot : Res JsVal) (p : WasmPage) :
  compileAndRender compiled snapshot p
  = (Ok tt,
     match compiled with
     | Throw e =>
         set_wasm_status "Compilation failed"
           (set_errorLog (Some e)
              (set_wasm_status "Compiling..."
                 (set_renderObjects [] (set_errorLog None p))))
     | Ok _ =>
         set_wasm_status "Ready - Scene loaded"
           (set_wasm_playDisabled false
              (snd (updateScene snapshot
                      (set_wasm_status "Compiled successfully! Rendering..."
                         (set_wasm_status "Compiling..."
                            (set_renderObjects [] (set_errorLog None p)))))))
     end).
Proof.
  unfold compileAndRender, try_catch, wasm_clearScene.
  unfold bind at 1. unfold modify at 1. unfold bind at 1. unfold modify at 1.
  unfold bind at 1. unfold modify at 1. unfold bind at 1. unfold lift at 1.
  destruct compiled as [result|e0]; [|reflexivity].
  unfold bind at 1. unfold modify at 1. unfold bind at 1.
  pose proof (updateScene_ok snapshot
                (set_wasm_status "Compiled successfully! Rendering..."
                   (set_wasm_status "Compiling..."
                      (set_renderObjects [] (set_errorLog None p))))) as Hok.
  destruct (updateScene snapshot _) as [res p1]. cbn [fst snd] in *. subst res.
  reflexivity.
Qed.

(** X24.  compileAndRender never fails.  When the compiler rejects the source,
    the previous scene is gone all the same: the map of meshes is empty, the
    error is shown, the status reads "Compilation failed" and the play button
    is as it was.  When the compiler accepts it, the page reports "Ready -
    Scene loaded" and enables the play button whether or not the snapshot
    could be drawn, and no key is in the map twice. *)
Theorem compileAndRender_outcomes (compiled snapshot : Res JsVal) (p : WasmPage) :
  fst (compileAndRender compiled snapshot p) = Ok tt /\
  (forall e, compiled = Throw e ->
     snd (compileAndRender compiled snapshot p)
     = set_wasm_status "Compilation failed"
         (set_errorLog (Some e)
            (set_wasm_status "Compiling..."
               (set_renderObjects [] (set_errorLog None p))))) /\
  (forall result, compiled = Ok result ->
     wasm_status (snd (compileAndRender compiled snapshot p)) = "Ready - Scene loaded" /\
     wasm_playDisabled (snd (compileAndRender compiled snapshot p)) = false /\
     errorLog (snd (compileAndRender compiled snapshot p)) = None /\
     distinct_keys (renderObjects (snd (compileAndRender compiled snapshot p))) /\
     (forall e, snapshot = Throw e ->
        renderObjects (snd (compileAndRender compiled snapshot p)) = [])).
Proof.
  rewrite compileAndRender_run. cbn [fst snd].
  split; [reflexivity|].
  split; [intros e ->; reflexivity|].
  intros result ->.
  pose proof (updateScene_keeps snapshot
                (set_wasm_status "Compiled successfully! Rendering..."
                   (set_wasm_status "Compiling..."
                      (set_renderObjects [] (set_errorLog None p)))))
    as (A & B & C & D & E).
  cbn [wasm_status wasm_playDisabled errorLog renderObjects set_wasm_status
       set_wasm_playDisabled].
  split; [reflexivity|]. split; [reflexivity|].
  split; [rewrite D; reflexivity|].
  split; [apply B; exact I|].
  intros e ->. reflexivity.
Qed.

End Viewer.

(** * Concrete runs *)

Lemma createEntityMesh_defaults_witness :
  is_nullish bare_entity = false /\
  exists mesh,
    createEntityMesh no_digits first_colour (JStr "box") bare_entity new_renderer
      = (Ok tt, with_mesh mesh new_renderer) /\
    mesh_position mesh = (JNum num_zero, JNum num_zero, JNum num_zero) /\
    mesh_rotation mesh = (JNum num_zero, JNum num_zero, JNum num_zero) /\
    mesh_geometry mesh = BoxGeometry (JNum num_one) (JNum num_one) (JNum num_one).
Proof.
  split; [reflexivity|].
  destruct (createEntityMesh_defaults no_digits first_colour (JStr "box") bare_entity
              "box" new_renderer eq_refl eq_refl)
    as (mesh & position & rotation & scale & primitive & _ & Hrun & _ & _ & _ & _ & _
        & Hp & Hr & Hs & _ & _ & _ & _ & Hg & _).
  exists mesh. split; [exact Hrun|].
  split; [apply Hp; reflexivity|]. split; [apply Hr; reflexivity|].
  destruct (Hg eq_refl) as [_ ->]. rewrite (Hs eq_refl). reflexivity.
Defined.

(** C10, where the claim says too much.  A position written as a bare array
    is not replaced by [0,0,0]: the mesh is placed there.  For [null] in the
    place of the entity the method returns normally, having made no mesh.
    And under a name without a string conversion, which is what loadScene
    passes for [unnameable_entity], the method does not return normally: the
    mesh is made, the closing log throws, and the log of the handler throws
    again. *)
Lemma createEntityMesh_keeps_bare_arrays_and_may_throw :
  (exists mesh,
     createEntityMesh no_digits first_colour (JStr "box") placed_entity new_renderer
       = (Ok tt, with_mesh mesh new_renderer) /\
     at_path placed_entity (transform_path "position")
       = JArr [JNum num_one; JNum (num_of_Z 2); JNum (num_of_Z 3)] /\
     mesh_position mesh = (JNum num_one, JNum (num_of_Z 2), JNum (num_of_Z 3)) /\
     mesh_position mesh <> (JNum num_zero, JNum num_zero, JNum num_zero)) /\
  createEntityMesh no_digits first_colour (JStr "box") JNull new_renderer
    = (Ok tt, new_renderer) /\
  (entity_name unnameable_entity = JObj [("toString", JNum num_one)] /\
   exists mesh,
     createEntityMesh no_digits first_colour (entity_name unnameable_entity)
       unnameable_entity new_renderer
     = (Throw (TypeError "Cannot convert object to primitive value"),
        with_mesh mesh new_renderer)).
Proof.
  split.
  - eexists. split; [reflexivity|]. split; [reflexivity|]. split; [reflexivity|].
    discriminate.
  - split; [reflexivity|]. split; [reflexivity|]. eexists. reflexivity.
Defined.

Lemma loadMotions_schedules_event_witness :
  loadMotions no_digits (JArr [json_of_motion rotate_cube])
    (JArr [json_of_timeline main_timeline]) new_renderer
  = (Ok tt,
     set_timelineEvents
       [ {| start := JNum num_zero; duration := JNum (num_of_Z 10);
            motion := json_of_motion rotate_cube |} ]
       (set_motions (JArr [json_of_motion rotate_cube]) new_renderer)).
Proof.
  destruct (loadMotions_schedules_event no_digits [rotate_cube] [main_timeline]
              new_renderer main_timeline first_ten_seconds rotate_cube
              (or_introl eq_refl) (or_introl eq_refl) eq_refl eq_refl
              (or_introl eq_refl) eq_refl) as [Hrun _].
  exact Hrun.
Defined.

Lemma handleCompile_validation_failure_witness :
  exists a',
    handleCompile no_digits first_colour refusing_server trim_latin1 (page_with " entity box { } ")
      = (Ok tt, a') /\
    requests a' = [validate_request "entity box { }"] /\
    renderer a' = new_renderer /\ state a' = new_state /\
    statusText a'
      = "Validation failed: E101: missing required section; E100: unexpected token".
Proof.
  destruct (handleCompile_validation_failure no_digits first_colour refusing_server trim_latin1
              (page_with " entity box { } ")
              (JObj [ ("valid", JBool false);
                      ("errors", JArr [ JStr "E101: missing required section";
                                        JStr "E100: unexpected token" ]) ]))
    as (a' & Hrun & Hreq & _ & Hr & Hs & _ & _ & Htext).
  - discriminate.
  - reflexivity.
  - reflexivity.
  - exists a'. split; [exact Hrun|]. split; [exact Hreq|].
    split; [exact Hr|]. split; [exact Hs|].
    apply (Htext ["E101: missing required section"; "E100: unexpected token"]).
    reflexivity.
Defined.

Lemma loadMotions_discards_ordinary_unmatched_witness :
  loadMotions no_digits (JArr [json_of_motion rotate_cube])
    (JArr [json_of_timeline {| tl_id := "main"; tl_events := [misspelt_event] |}])
    new_renderer
  = (Ok tt,
     set_timelineEvents [] (set_motions (JArr [json_of_motion rotate_cube]) new_renderer)).
Proof.
  destruct (loadMotions_discards_ordinary_unmatched no_digits [rotate_cube]
              [{| tl_id := "main"; tl_events := [misspelt_event] |}]
              new_renderer misspelt_event eq_refl eq_refl) as (Hrun & Hnone & _).
  etransitivity; [exact Hrun|].
  cbn [flat_map tl_events app map]. rewrite (Hnone eq_refl). reflexivity.
Defined.

Lemma handleCompile_compile_failure_witness :
  exists a',
    handleCompile no_digits first_colour failing_server trim_latin1 (page_with "scene { }")
      = (Ok tt, a') /\
    renderer a' = new_renderer /\ state a' = new_state /\
    statusText a' = "Compilation failed: E301: undefined motion spiin".
Proof.
  destruct (handleCompile_compile_failure no_digits first_colour failing_server trim_latin1
              (page_with "scene { }")
              (JObj [("valid", JBool true); ("errors", JArr [])])
              (JObj [ ("success", JBool false); ("ir_scene", JNull);
                      ("errors", JArr [JStr "E301: undefined motion spiin"]) ])
              (JBool true)) as (_ & Hlist).
  - discriminate.
  - reflexivity.
  - reflexivity.
  - reflexivity.
  - reflexivity.
  - reflexivity.
  - destruct (Hlist ["E301: undefined motion spiin"] eq_refl)
      as (a' & Hrun & Hr & Hs & Htext & _).
    exists a'. split; [exact Hrun|]. split; [exact Hr|]. split; [exact Hs|].
    exact Htext.
Defined.

Lemma handleCompile_scene_not_stored_witness :
  exists a',
    handleCompile no_digits first_colour accepting_server trim_latin1 (page_with "scene { }")
      = (Ok tt, a') /\
    state a' = new_state /\ playDisabled a' = true /\ statusType a' = "error".
Proof.
  destruct (handleCompile_scene_not_stored no_digits first_colour accepting_server trim_latin1
              (page_with "scene { }")
              (JObj [("valid", JBool true); ("errors", JArr [])])
              (JObj [("success", JBool true); ("ir_scene", cube_scene); ("errors", JNull)])
              (JBool true) cube_scene)
    as (e & a' & Hrun & _ & Hs & Hp & _ & _ & Ht).
  - discriminate.
  - reflexivity.
  - reflexivity.
  - reflexivity.
  - reflexivity.
  - reflexivity.
  - reflexivity.
  - reflexivity.
  - exists a'. split; [exact Hrun|]. split; [exact Hs|]. split; [exact Hp|exact Ht].
Defined.

(** At the instant where one event ends and the next begins, both turn
    the cube: it receives two rotations of 1.5 delta about [0,1,0]. *)
Lemma updateAnimations_closed_interval_witness :
  map mesh_spins
    (objects (snd (updateAnimations no_digits not_a_number num_tenth handing_over)))
  = [ let turn := {| spin_axis := (JNum num_zero, JNum num_one, JNum num_zero);
                     spin_angle :=
                       num_mul (binary_normalize prec emax 3 (-1) false) num_tenth |} in
      [turn; turn] ].
Proof.
  destruct (updateAnimations_closed_interval no_digits not_a_number num_tenth rotate_cube
              num_zero num_one num_zero (binary_normalize prec emax 3 (-1) false)
              eq_refl eq_refl eq_refl eq_refl) as (_ & _ & _ & _ & Hboth).
  rewrite (Hboth handing_over 0%nat num_zero (num_of_Z 2) num_one
             eq_refl eq_refl eq_refl eq_refl eq_refl).
  reflexivity.
Defined.

Lemma created_mesh_is_found_witness :
  exists r' i,
    createEntityMesh no_digits first_colour (JStr "box") bare_entity new_renderer = (Ok tt, r') /\
    List.length (objects r') = 1%nat /\
    findObjectByName no_digits (JStr "box") (objects r') = Ok (Some i) /\
    i = 0%nat.
Proof.
  destruct (created_mesh_is_found no_digits first_colour "box" bare_entity
              new_renderer eq_refl) as (r' & i & Hrun & Hlen & Hfind & _ & Hlast).
  exists r', i. split; [exact Hrun|]. split; [exact Hlen|]. split; [exact Hfind|].
  apply Hlast. reflexivity.
Defined.

(** The cube of the shipped scene gets its mesh; and of two entities of which
    the first cannot be named, only the first gets one. *)
Lemma loadScene_builds_meshes_witness :
  map mesh_name (objects (snd (loadScene no_digits first_colour cube_scene new_renderer)))
  = [JStr "cube"] /\
  map mesh_userData
    (objects (snd (loadScene no_digits first_colour
                     (JObj [("entities", JArr [unnameable_entity; bare_entity])])
                     new_renderer)))
  = [unnameable_entity].
Proof.
  split.
  - destruct (loadScene_builds_meshes no_digits first_colour cube_scene
                (JArr [ JObj [ ("id", JStr "cube"); ("kind", JStr "solid");
                               ("components", JObj []) ] ])
                new_renderer eq_refl eq_refl eq_refl)
      as (_ & _ & Hnames & _).
    + repeat constructor.
    + exact Hnames.
  - destruct (loadScene_builds_meshes no_digits first_colour
                (JObj [("entities", JArr [unnameable_entity; bare_entity])])
                (JArr [unnameable_entity; bare_entity])
                new_renderer eq_refl eq_refl eq_refl)
      as (_ & Hdata & _).
    + repeat constructor.
    + exact Hdata.
Defined.

Lemma handleCompile_reports_exceptions_witness :
  statusText (snd (handleCompile no_digits first_colour unreachable_server trim_latin1
                     (page_with "scene { }")))
  = "Error: Failed to fetch".
Proof.
  destruct (handleCompile_reports_exceptions no_digits first_colour unreachable_server trim_latin1
              (page_with "scene { }")) as (Hv & _).
  - discriminate.
  - destruct (Hv (RequestError "Failed to fetch") eq_refl) as (Htext & _).
    exact Htext.
Defined.

(** An editor that holds a no-break space is blank: nothing is sent. *)
Lemma handleCompile_settles_witness :
  trim_latin1 no_break_space = "" /\
  snd (handleCompile no_digits first_colour unreachable_server trim_latin1
         (page_with no_break_space))
  = set_status "Please enter DSL code" "error" (page_with no_break_space).
Proof.
  split; [reflexivity|].
  destruct (handleCompile_settles no_digits first_colour unreachable_server trim_latin1
              (page_with no_break_space)) as (_ & _ & Hblank & _).
  apply Hblank. reflexivity.
Defined.

(** Such an editor also counts as blank when the sample arrives, and is
    overwritten. *)
Lemma prefillSample_spares_the_editor_witness :
  dslInput (snd (prefillSample trim_latin1 served_sample (page_with no_break_space)))
  = "scene { }" /\
  dslInput (snd (prefillSample trim_latin1 served_sample (page_with "entity box { }")))
  = "entity box { }".
Proof.
  split.
  - destruct (prefillSample_spares_the_editor trim_latin1 served_sample
                (page_with no_break_space)) as (_ & _ & _ & Hblank & _).
    apply Hblank; reflexivity.
  - destruct (prefillSample_spares_the_editor trim_latin1 served_sample
                (page_with "entity box { }")) as (_ & _ & Hkept & _).
    apply Hkept. discriminate.
Defined.

(** In the chat a no-break space alone is no message, and the message sent
    is the input without the no-break spaces around it. *)
Lemma handleUserInput_outcomes_witness :
  snd (handleUserInput no_digits trim_latin1 noon
         (set_userInput no_break_space connected_chat))
  = set_userInput no_break_space connected_chat /\
  sent (snd (handleUserInput no_digits trim_latin1 noon
               (set_userInput padded_request connected_chat)))
  = [ JObj [ ("message", JStr "spin the cube"); ("scene_context", JNull) ] ].
Proof.
  split.
  - destruct (handleUserInput_outcomes no_digits trim_latin1 noon
                (set_userInput no_break_space connected_chat)) as (_ & Hblank & _).
    apply Hblank. reflexivity.
  - destruct (handleUserInput_outcomes no_digits trim_latin1 noon
                (set_userInput padded_request connected_chat)) as (_ & _ & Hopen & _).
    destruct Hopen as (_ & Hsent & _); [discriminate|reflexivity|].
    exact Hsent.
Defined.

Lemma scene_update_outcomes_witness :
  chat_status (snd (handleServerMessage no_digits first_colour noon cube_update
                      connected_chat))
  = "Scene load failed" /\
  currentScene (chat_state (snd (handleServerMessage no_digits first_colour noon
                                   cube_update connected_chat)))
  = JNull.
Proof.
  destruct (scene_update_outcomes no_digits first_colour noon cube_update cube_scene
              connected_chat eq_refl eq_refl) as (_ & _ & _ & Ht & _).
  destruct (Ht eq_refl) as (Hs & Hst & _).
  split; [exact Hs|]. rewrite Hst. reflexivity.
Defined.

Lemma loaded_rotation_turns_its_target_witness :
  exists mesh,
    objects (snd (loadScene no_digits first_colour
                    (small_scene (JObj [("id", JStr "cube")]) rotate_cube "main"
                       first_ten_seconds)
                    new_renderer)) = [mesh] /\
    map mesh_spins
      (objects (snd (updateAnimations no_digits not_a_number num_tenth
                       (snd (loadScene no_digits first_colour
                               (small_scene (JObj [("id", JStr "cube")]) rotate_cube
                                  "main" first_ten_seconds)
                               new_renderer)))))
    = [[ {| spin_axis := (JNum num_zero, JNum num_one, JNum num_zero);
            spin_angle := num_mul (binary_normalize prec emax 3 (-1) false) num_tenth |} ]].
Proof.
  destruct (loaded_rotation_turns_its_target no_digits not_a_number first_colour
              (JObj [("id", JStr "cube")]) "cube" "main" rotate_cube first_ten_seconds
              num_zero num_one num_zero (binary_normalize prec emax 3 (-1) false)
              num_tenth new_renderer)
    as (mesh & Hobj & _ & Hspins & Hrun); try reflexivity; try discriminate.
  exists mesh. split; [exact Hobj|].
  rewrite Hrun. cbn [snd objects set_objects map add_spins mesh_spins].
  rewrite Hspins. reflexivity.
Defined.

(** *** Where the viewer goes wrong *)

(** C8, the failing run.  With no motion at all, the event named
    [constructor] is not discarded: the lookup in the table answers with the
    function inherited from [Object.prototype], and the event is scheduled
    with that function as its motion.  The same happens for every event whose
    motion_id is carried by no motion and names a function of
    [Object.prototype]. *)
Theorem loadMotions_schedules_inherited_member (number_to_string : number -> string) :
  loadMotions number_to_string (JArr [])
    (JArr [json_of_timeline {| tl_id := "main"; tl_events := [stray_event] |}])
    new_renderer
  = (Ok tt,
     set_timelineEvents
       [ {| start := JNum num_zero; duration := JNum (num_of_Z 10);
            motion := JBuiltin (BuiltinFunction "constructor") |} ]
       new_renderer) /\
  (forall (ms : list IrMotion) (ev : IrEvent),
     find_motion (ev_motion_id ev) ms = None ->
     find_motion "__proto__" ms = None ->
     string_in (ev_motion_id ev) object_prototype_functions = true ->
     scheduled ms ev
     = [ {| start := or_zero (ev_start_time ev);
            duration := or_zero (ev_duration ev);
            motion := JBuiltin (BuiltinFunction (ev_motion_id ev)) |} ]).
Proof.
  split; [reflexivity|].
  intros ms ev Hk Hp Hin. unfold scheduled.
  rewrite (motion_table_inherited ms _ Hk Hp Hin). reflexivity.
Qed.

(** C6, the failing run.  For the tagged speed [{"Number": 0}] the viewer
    does not obtain the number: the speed it takes is the wrapper object, and
    the angle it turns the cube by is that object times delta, the number of
    the text [[object Object]]. *)
Theorem tagged_zero_speed_stays_wrapped
    (number_to_string : number -> string) (string_to_number : string -> number)
    (delta : number) :
  rotation_speed (json_of_motion still_motion) = Ok (JObj [("Number", JNum num_zero)]) /\
  exists r',
    updateAnimations number_to_string string_to_number delta (showing_cube still_motion)
      = (Ok tt, r') /\
    map mesh_spins (objects r')
      = [[ {| spin_axis := (JNum num_zero, JNum num_one, JNum num_zero);
              spin_angle := num_mul (string_to_number "[object Object]") delta |} ]].
Proof. split; [reflexivity|]. eexists. split; reflexivity. Qed.

(** C3, the failing run.  The compile response has [success: true] and a
    scene.  loadScene builds the mesh and the timeline and then throws in
    fitCameraToScene; handleCompile reports the error, and the scene is never
    stored in the application state, nor are the controls enabled. *)
Theorem compiled_scene_is_not_stored
    (number_to_string : number -> string) (random_index : nat -> nat) :
  exists a',
    handleCompile number_to_string random_index accepting_server trim_latin1 (page_with "scene { }")
      = (Ok tt, a') /\
    requests a' = [validate_request "scene { }"; compile_request "scene { }"] /\
    List.length (objects (renderer a')) = 1%nat /\
    List.length (timelineEvents (renderer a')) = 1%nat /\
    currentScene (state a') = JNull /\
    playDisabled a' = true /\
    statusText a' = "Error: Math.isNaN is not a function" /\
    statusType a' = "error".
Proof. eexists. split; [lazy; reflexivity|]. repeat split. Qed.

(** * Properties of the front end *)

Module CompilerFacts.
Import Compiler.
Local Open Scope string_scope.

Lemma kind_eqb_eq a b : kind_eqb a b = true -> a = b.
Proof.
  destruct a as [x| | | | | | | | | | |], b as [y| | | | | | | | | | |];
    try discriminate; try reflexivity.
  destruct x, y; try discriminate; reflexivity.
Qed.

Section Parsers.

Variable file_id : string.

Lemma plain_pure {A} (a : A) : plain (pure a).
Proof. intros toks. exists []. reflexivity. Qed.

Lemma plain_then {A B} (p : Parser A) (k : A -> Parser B) :
  plain p -> (forall a, plain (k a)) -> plain (then_ p k).
Proof.
  intros Hp Hk toks. unfold then_. specialize (Hp toks).
  destruct (p toks) as [d|[a rest]]; [exact Hp|].
  destruct Hp as [pre ->]. specialize (Hk a rest).
  destruct (k a rest) as [d|[b rest']]; [exact Hk|].
  destruct Hk as [pre' ->]. exists (pre ++ pre')%list. apply app_assoc.
Qed.

Lemma plain_expect k : plain (expect file_id k).
Proof.
  intros [|t rest]; cbn; [reflexivity|].
  destruct (kind_eqb (kind t) k); [exists [t]|]; reflexivity.
Qed.

Lemma plain_expect_name name : plain (expect_name file_id name).
Proof.
  intros [|t rest]; cbn; [reflexivity|].
  destruct (kind_eqb (kind t) TIdentifier && (lexeme t =? name)); [exists [t]|]; reflexivity.
Qed.

Lemma plain_parse_scene : plain (parse_scene file_id).
Proof.
  unfold parse_scene.
  repeat first [ apply plain_then; [|intros ?]
               | apply plain_expect | apply plain_expect_name | apply plain_pure ].
Qed.

Lemma expect_inv k toks t rest :
  expect file_id k toks = inr (t, rest) -> toks = t :: rest /\ kind t = k.
Proof.
  destruct toks as [|t0 toks]; cbn; [discriminate|].
  destruct (kind_eqb (kind t0) k) eqn:E; [|discriminate].
  intros [= <- <-]. split; [reflexivity|apply kind_eqb_eq, E].
Qed.

Lemma expect_name_inv name toks t rest :
  expect_name file_id name toks = inr (t, rest) ->
  toks = t :: rest /\ kind t = TIdentifier.
Proof.
  destruct toks as [|t0 toks]; cbn; [discriminate|].
  destruct (kind_eqb (kind t0) TIdentifier) eqn:E; cbn; [|discriminate].
  destruct (lexeme t0 =? name); [|discriminate].
  intros [= <- <-]. split; [reflexivity|apply kind_eqb_eq, E].
Qed.

Lemma then_inv {A B} (p : Parser A) (k : A -> Parser B) toks b rest :
  then_ p k toks = inr (b, rest) ->
  exists a mid, p toks = inr (a, mid) /\ k a mid = inr (b, rest).
Proof.
  unfold then_. destruct (p toks) as [d|[a mid]]; [discriminate|].
  intros H. exists a, mid. split; [reflexivity|exact H].
Qed.

Ltac step_expect H :=
  apply then_inv in H as (? & ? & ?E & H);
  first [ apply expect_inv in E as [-> ?] | apply expect_name_inv in E as [-> ?] ].

(** A scene that parses is the fifteen tokens of the scene section. *)
Lemma parse_scene_kinds toks scene rest :
  parse_scene file_id toks = inr (scene, rest) ->
  kinds toks = (scene_section ++ kinds rest)%list.
Proof.
  unfold parse_scene. intros H.
  do 15 step_expect H.
  injection H as _ <-. unfold kinds, scene_section. cbn [map app].
  repeat match goal with E : kind _ = _ |- _ => rewrite E; clear E end.
  reflexivity.
Qed.

Lemma parse_import_kinds toks x rest :
  parse_import file_id toks = inr (x, rest) ->
  kinds toks = ([TIdentifier; TColon; TString] ++ kinds rest)%list.
Proof.
  unfold parse_import. intros H.
  do 3 step_expect H.
  injection H as _ <-. unfold kinds. cbn [map app].
  repeat match goal with E : kind _ = _ |- _ => rewrite E; clear E end.
  reflexivity.
Qed.

Lemma many_imports_kinds fuel : forall toks xs rest,
  many file_id fuel TIdentifier (parse_import file_id) toks = inr (xs, rest) ->
  kinds toks
  = (List.concat (repeat [TIdentifier; TColon; TString] (List.length xs)) ++ kinds rest)%list.
Proof.
  induction fuel as [|fuel IH]; intros toks xs rest; cbn [many]; [discriminate|].
  destruct (kind_eqb (kind (peek toks)) TIdentifier).
  - destruct (parse_import file_id toks) as [d|[x mid]] eqn:Ep; [discriminate|].
    destruct (many file_id fuel TIdentifier (parse_import file_id) mid)
      as [d|[xs' rest']] eqn:Em; [discriminate|].
    intros [= <- <-].
    rewrite (parse_import_kinds _ _ _ Ep), (IH _ _ _ Em).
    cbn [List.length repeat List.concat]. rewrite <- !app_assoc. reflexivity.
  - intros [= <- <-]. reflexivity.
Qed.

Lemma parse_library_imports_kinds fuel toks xs rest :
  parse_library_imports file_id fuel toks = inr (xs, rest) ->
  kinds toks = (imports_section (List.length xs) ++ kinds rest)%list.
Proof.
  unfold parse_library_imports. intros H.
  do 2 step_expect H.
  apply then_inv in H as (ys & mid & Em & H).
  step_expect H. injection H as <- <-.
  apply many_imports_kinds in Em.
  unfold imports_section. change (kinds (?a :: ?b :: ?l)) with (kind a :: kind b :: kinds l).
  rewrite Em. change (kinds (?a :: ?l)) with (kind a :: kinds l).
  repeat match goal with E : kind _ = _ |- _ => rewrite E; clear E end.
  cbn [app]. rewrite <- !app_assoc. reflexivity.
Qed.

Lemma required_inv {A} k name (p : Parser A) toks a rest :
  required file_id k name p toks = inr (a, rest) -> p toks = inr (a, rest).
Proof.
  unfold required. destruct (kind_eqb (kind (peek toks)) (TKeyword k)); [auto|discriminate].
Qed.

(** Every token list the parser accepts opens with a scene section followed
    by a library_imports section. *)
Lemma parse_file_sections toks ast :
  parse_file file_id toks = inr ast ->
  exists rest,
    kinds toks
    = (scene_section ++ imports_section (List.length (ast_library_imports ast)) ++ rest)%list.
Proof.
  unfold parse_file.
  match goal with |- context [then_ ?p ?k toks] =>
    destruct (then_ p k toks) as [d|[ast' rest']] eqn:H end; [discriminate|].
  intros [= <-].
  apply then_inv in H as (scene & r1 & Hs & H).
  apply then_inv in H as (imports & r2 & Hi & H).
  apply required_inv in Hs. apply required_inv in Hi.
  rewrite (parse_scene_kinds _ _ _ Hs), (parse_library_imports_kinds _ _ _ _ Hi).
  exists (kinds r2).
  repeat (apply then_inv in H as (? & ? & _ & H)).
  injection H as <- _. reflexivity.
Qed.

Lemma peek_in_or_eof toks :
  In (kind (peek toks)) (kinds toks) \/ kind (peek toks) = TEof.
Proof. destruct toks; [right|left; left]; reflexivity. Qed.

(** A token list that lacks the scene keyword or the library_imports keyword
    is refused with E100 or E101. *)
Lemma parse_file_missing_section toks :
  ~ In (TKeyword KwScene) (kinds toks) \/ ~ In (TKeyword KwLibraryImports) (kinds toks) ->
  exists d, parse_file file_id toks = inl d /\ (code d = 100 \/ code d = 101).
Proof.
  intros Hmiss. unfold parse_file, then_ at 1, required at 1.
  destruct (kind_eqb (kind (peek toks)) (TKeyword KwScene)) eqn:Ek.
  2:{ eexists. split; [reflexivity|right; reflexivity]. }
  apply kind_eqb_eq in Ek.
  destruct Hmiss as [Hno|Hno].
  { exfalso. destruct (peek_in_or_eof toks) as [Hin|He]; [|congruence].
    apply Hno. rewrite <- Ek. exact Hin. }
  pose proof (plain_parse_scene toks) as Hp.
  destruct (parse_scene file_id toks) as [d|[scene rest]].
  { eexists. split; [reflexivity|left; exact Hp]. }
  destruct Hp as [pre ->].
  unfold then_ at 1, required at 1.
  destruct (kind_eqb (kind (peek rest)) (TKeyword KwLibraryImports)) eqn:El.
  { exfalso. apply kind_eqb_eq in El.
    destruct (peek_in_or_eof rest) as [Hin|He]; [|congruence].
    apply Hno. unfold kinds in *. rewrite map_app. apply in_or_app. right.
    rewrite <- El. exact Hin. }
  eexists. split; [reflexivity|right; reflexivity].
Qed.

End Parsers.

Lemma compile_accepts_inv B S L source file_id json warnings :
  compile B S L source file_id = Compiled json warnings ->
  exists toks ast, lex source file_id = inr toks /\ parse_file file_id toks = inr ast.
Proof.
  unfold compile, parse_only.
  destruct (lex source file_id) as [d|toks]; [discriminate|].
  destruct (parse_file file_id toks) as [d|ast] eqn:Hp; [discriminate|].
  intros _. exists toks, ast. split; [reflexivity|exact Hp].
Qed.

Lemma sample_rejected file_id :
  exists d, parse_only file_id SAMPLE_DSL = inl d /\ code d = 101.
Proof.
  set (r := parse_only file_id SAMPLE_DSL). vm_compute in r.
  eexists. split; reflexivity.
Qed.

Lemma simple_sample_rejected file_id :
  exists d, parse_only file_id SAMPLE_DSL_SIMPLE = inl d /\ code d = 101.
Proof.
  set (r := parse_only file_id SAMPLE_DSL_SIMPLE). vm_compute in r.
  eexists. split; reflexivity.
Qed.

(** The parser takes the shipped scene.dsl, whose motion carries [axis] and
    [speed] as fields of its own, and the smallest scene. *)
Lemma shipped_scene_parses file_id :
  exists ast,
    parse_only file_id scene_dsl = inr ast /\
    map entity_id (ast_entities ast) = ["cube"] /\
    map (fun m => (motion_id m, motion_target m, motion_type m,
                   map field_name (motion_fields m))) (ast_motions ast)
    = [("rotate_cube", "cube", "rotation", ["axis"; "speed"])] /\
    map (fun t => (timeline_id t, map event_motion (timeline_events t)))
        (ast_timelines ast)
    = [("main", ["rotate_cube"])].
Proof.
  set (r := parse_only file_id scene_dsl). vm_compute in r.
  eexists. split; [reflexivity|]. repeat split.
Qed.

Lemma minimal_scene_parses file_id :
  exists ast,
    parse_only file_id minimal_scene = inr ast /\
    scene_name (ast_scene ast) = "T" /\
    ast_library_imports ast = [("math", "core_mechanics")] /\
    ast_entities ast = [] /\ ast_constraints ast = [] /\
    ast_motions ast = [] /\ ast_timelines ast = [].
Proof.
  set (r := parse_only file_id minimal_scene). vm_compute in r.
  eexists. split; [reflexivity|]. repeat split.
Qed.

(** C1, as the parser has it.  A source the compiler accepts tokenises to a
    scene section followed by a library_imports section, ahead of every
    entity, constraint, motion and timeline.  A source that tokenises and
    lacks the scene keyword or the library_imports keyword is rejected with a
    single diagnostic, E100 or E101, and no IR.  The two samples shipped with
    the viewer, SAMPLE_DSL (no library_imports) and SAMPLE_DSL_SIMPLE (neither
    section), are rejected with E101. *)
Theorem sections_are_mandatory
    (B : Backend) (S : SchemaRegistry) (L : LibraryRegistry) (file_id : string) :
  (forall source json warnings,
     compile B S L source file_id = Compiled json warnings ->
     exists toks n rest,
       lex source file_id = inr toks /\
       kinds toks = (scene_section ++ imports_section n ++ rest)%list) /\
  (forall source toks,
     lex source file_id = inr toks ->
     ~ In (TKeyword KwScene) (kinds toks)
     \/ ~ In (TKeyword KwLibraryImports) (kinds toks) ->
     exists d,
       compile B S L source file_id = Rejected [d] /\ (code d = 100 \/ code d = 101)) /\
  (exists d, compile B S L SAMPLE_DSL file_id = Rejected [d] /\ code d = 101) /\
  (exists d, compile B S L SAMPLE_DSL_SIMPLE file_id = Rejected [d] /\ code d = 101).
Proof.
  split; [|split; [|split]].
  - intros source json warnings H.
    destruct (compile_accepts_inv _ _ _ _ _ _ _ H) as (toks & ast & Hl & Hp).
    destruct (parse_file_sections _ _ _ Hp) as [rest Hk].
    exists toks, (List.length (ast_library_imports ast)), rest. split; assumption.
  - intros source toks Hl Hmiss.
    destruct (parse_file_missing_section file_id toks Hmiss) as (d & Hp & Hc).
    exists d. split; [|exact Hc].
    unfold compile, parse_only. rewrite Hl, Hp. reflexivity.
  - destruct (sample_rejected file_id) as (d & Hp & Hc).
    exists d. split; [|exact Hc]. unfold compile. rewrite Hp. reflexivity.
  - destruct (simple_sample_rejected file_id) as (d & Hp & Hc).
    exists d. split; [|exact Hc]. unfold compile. rewrite Hp. reflexivity.
Qed.

(** The source [@] has neither section, and it is rejected by the lexer with
    E001, not by the parser with E100 or E101. *)
Lemma stray_character_is_E001 :
  exists d,
    (forall B S L, compile B S L "@" "scene.dsl" = Rejected [d]) /\
    code d = 1 /\
    String.index 0 "scene" "@" = None /\
    String.index 0 "library_imports" "@" = None.
Proof.
  eexists. split; [intros B S L; reflexivity|].
  repeat split; reflexivity.
Qed.

End CompilerFacts.
